(** * Higienizacao: normalisation of CPF, name and phone cells (src/app.py)

    A shallow embedding of the four processing functions of [src/app.py]
    ([limpa_cpf_google_sheets], [separar_telefones_multiplos], [limpa_nome],
    [processar_arquivo]) together with the parts of the Python runtime they
    call: [str] of a scalar, [str.strip], [str.split], [str.upper] and the
    [re] functions [re.sub] and [re.split] for the patterns the source uses.
    A table carries the dtype of each column and the label of each row, so
    that [df.iterrows()] hands the loop of [processar_arquivo] what pandas
    hands it; the progress display of that loop is a parameter.

    A Python [str] is a sequence of Unicode code points; [\d] and [\s] in a
    [str] pattern, [str.strip] and [str.split] use the Unicode decimal-digit
    and whitespace classes, so the embedding keeps code points as [N] and the
    classes as tables (Unicode 14.0, the tables of CPython 3.11). *)

From Stdlib Require Import Ascii String DecimalString DecimalZ.
From Stdlib Require DecimalPos DecimalFacts.
From Stdlib.Strings Require Byte.
From Stdlib Require Import SpecFloat.
From Stdlib Require Import Bool Arith NArith ZArith Lia List.
Import ListNotations.

Set Implicit Arguments.

(** ** Python strings *)

(** A [str]: the list of its code points. *)
Definition pystr := list N.

(** A literal of the source, written with ASCII characters. *)
Definition lit (s : string) : pystr := map N_of_ascii (list_ascii_of_string s).

Definition pystr_eqb (a b : pystr) : bool :=
  if list_eq_dec N.eq_dec a b then true else false.

(** ** Unicode character classes of the runtime *)

Definition in_ranges (rs : list (N * N)) (c : N) : bool :=
  existsb (fun r => (fst r <=? c)%N && (c <=? snd r)%N) rs.

(** Code points of general category Nd: what [\d] matches in a [str]
    pattern and what [str.isdecimal] accepts. *)
Definition decimal_ranges : list (N * N) :=
  [ (0x30, 0x39); (0x660, 0x669); (0x6F0, 0x6F9); (0x7C0, 0x7C9); (0x966, 0x96F); (0x9E6, 0x9EF);
    (0xA66, 0xA6F); (0xAE6, 0xAEF); (0xB66, 0xB6F); (0xBE6, 0xBEF); (0xC66, 0xC6F); (0xCE6, 0xCEF);
    (0xD66, 0xD6F); (0xDE6, 0xDEF); (0xE50, 0xE59); (0xED0, 0xED9); (0xF20, 0xF29); (0x1040, 0x1049);
    (0x1090, 0x1099); (0x17E0, 0x17E9); (0x1810, 0x1819); (0x1946, 0x194F); (0x19D0, 0x19D9); (0x1A80, 0x1A89);
    (0x1A90, 0x1A99); (0x1B50, 0x1B59); (0x1BB0, 0x1BB9); (0x1C40, 0x1C49); (0x1C50, 0x1C59); (0xA620, 0xA629);
    (0xA8D0, 0xA8D9); (0xA900, 0xA909); (0xA9D0, 0xA9D9); (0xA9F0, 0xA9F9); (0xAA50, 0xAA59); (0xABF0, 0xABF9);
    (0xFF10, 0xFF19); (0x104A0, 0x104A9); (0x10D30, 0x10D39); (0x11066, 0x1106F); (0x110F0, 0x110F9); (0x11136, 0x1113F);
    (0x111D0, 0x111D9); (0x112F0, 0x112F9); (0x11450, 0x11459); (0x114D0, 0x114D9); (0x11650, 0x11659); (0x116C0, 0x116C9);
    (0x11730, 0x11739); (0x118E0, 0x118E9); (0x11950, 0x11959); (0x11C50, 0x11C59); (0x11D50, 0x11D59); (0x11DA0, 0x11DA9);
    (0x16A60, 0x16A69); (0x16AC0, 0x16AC9); (0x16B50, 0x16B59); (0x1D7CE, 0x1D7FF); (0x1E140, 0x1E149); (0x1E2F0, 0x1E2F9);
    (0x1E950, 0x1E959); (0x1FBF0, 0x1FBF9) ]%N.

(** Whitespace: what [\s] matches in a [str] pattern, and what [str.strip]
    and [str.split] without argument treat as blank. *)
Definition space_ranges : list (N * N) :=
  [ (0x9, 0xD); (0x1C, 0x20); (0x85, 0x85); (0xA0, 0xA0); (0x1680, 0x1680); (0x2000, 0x200A);
    (0x2028, 0x2029); (0x202F, 0x202F); (0x205F, 0x205F); (0x3000, 0x3000) ]%N.

Definition is_decimal (c : N) : bool := in_ranges decimal_ranges c.
Definition is_space (c : N) : bool := in_ranges space_ranges c.

(** The ASCII digits ['0'] .. ['9']. *)
Definition is_ascii_digit (c : N) : bool := (48 <=? c)%N && (c <=? 57)%N.

(** Full upper-case mapping of one code point ([str.upper] maps every
    character on its own).  [upper_runs] holds entries [(lo, hi, step, up)]:
    every [step]-th code point from [lo] to [hi] maps to [up + (c - lo)];
    [upper_special] holds the code points whose upper case has several
    characters. *)
Definition upper_runs : list (N * N * N * N) :=
  [ (0x61, 0x7A, 1, 0x41); (0xB5, 0xB5, 1, 0x39C); (0xE0, 0xF6, 1, 0xC0); (0xF8, 0xFE, 1, 0xD8);
    (0xFF, 0xFF, 1, 0x178); (0x101, 0x12F, 2, 0x100); (0x131, 0x131, 1, 0x49); (0x133, 0x137, 2, 0x132);
    (0x13A, 0x148, 2, 0x139); (0x14B, 0x177, 2, 0x14A); (0x17A, 0x17E, 2, 0x179); (0x17F, 0x17F, 1, 0x53);
    (0x180, 0x180, 1, 0x243); (0x183, 0x185, 2, 0x182); (0x188, 0x188, 1, 0x187); (0x18C, 0x18C, 1, 0x18B);
    (0x192, 0x192, 1, 0x191); (0x195, 0x195, 1, 0x1F6); (0x199, 0x199, 1, 0x198); (0x19A, 0x19A, 1, 0x23D);
    (0x19E, 0x19E, 1, 0x220); (0x1A1, 0x1A5, 2, 0x1A0); (0x1A8, 0x1A8, 1, 0x1A7); (0x1AD, 0x1AD, 1, 0x1AC);
    (0x1B0, 0x1B0, 1, 0x1AF); (0x1B4, 0x1B6, 2, 0x1B3); (0x1B9, 0x1B9, 1, 0x1B8); (0x1BD, 0x1BD, 1, 0x1BC);
    (0x1BF, 0x1BF, 1, 0x1F7); (0x1C5, 0x1C5, 1, 0x1C4); (0x1C6, 0x1C6, 1, 0x1C4); (0x1C8, 0x1C8, 1, 0x1C7);
    (0x1C9, 0x1C9, 1, 0x1C7); (0x1CB, 0x1CB, 1, 0x1CA); (0x1CC, 0x1CC, 1, 0x1CA); (0x1CE, 0x1DC, 2, 0x1CD);
    (0x1DD, 0x1DD, 1, 0x18E); (0x1DF, 0x1EF, 2, 0x1DE); (0x1F2, 0x1F2, 1, 0x1F1); (0x1F3, 0x1F3, 1, 0x1F1);
    (0x1F5, 0x1F5, 1, 0x1F4); (0x1F9, 0x21F, 2, 0x1F8); (0x223, 0x233, 2, 0x222); (0x23C, 0x23C, 1, 0x23B);
    (0x23F, 0x240, 1, 0x2C7E); (0x242, 0x242, 1, 0x241); (0x247, 0x24F, 2, 0x246); (0x250, 0x250, 1, 0x2C6F);
    (0x251, 0x251, 1, 0x2C6D); (0x252, 0x252, 1, 0x2C70); (0x253, 0x253, 1, 0x181); (0x254, 0x254, 1, 0x186);
    (0x256, 0x257, 1, 0x189); (0x259, 0x259, 1, 0x18F); (0x25B, 0x25B, 1, 0x190); (0x25C, 0x25C, 1, 0xA7AB);
    (0x260, 0x260, 1, 0x193); (0x261, 0x261, 1, 0xA7AC); (0x263, 0x263, 1, 0x194); (0x265, 0x265, 1, 0xA78D);
    (0x266, 0x266, 1, 0xA7AA); (0x268, 0x268, 1, 0x197); (0x269, 0x269, 1, 0x196); (0x26A, 0x26A, 1, 0xA7AE);
    (0x26B, 0x26B, 1, 0x2C62); (0x26C, 0x26C, 1, 0xA7AD); (0x26F, 0x26F, 1, 0x19C); (0x271, 0x271, 1, 0x2C6E);
    (0x272, 0x272, 1, 0x19D); (0x275, 0x275, 1, 0x19F); (0x27D, 0x27D, 1, 0x2C64); (0x280, 0x280, 1, 0x1A6);
    (0x282, 0x282, 1, 0xA7C5); (0x283, 0x283, 1, 0x1A9); (0x287, 0x287, 1, 0xA7B1); (0x288, 0x288, 1, 0x1AE);
    (0x289, 0x289, 1, 0x244); (0x28A, 0x28B, 1, 0x1B1); (0x28C, 0x28C, 1, 0x245); (0x292, 0x292, 1, 0x1B7);
    (0x29D, 0x29D, 1, 0xA7B2); (0x29E, 0x29E, 1, 0xA7B0); (0x345, 0x345, 1, 0x399); (0x371, 0x373, 2, 0x370);
    (0x377, 0x377, 1, 0x376); (0x37B, 0x37D, 1, 0x3FD); (0x3AC, 0x3AC, 1, 0x386); (0x3AD, 0x3AF, 1, 0x388);
    (0x3B1, 0x3C1, 1, 0x391); (0x3C2, 0x3C2, 1, 0x3A3); (0x3C3, 0x3CB, 1, 0x3A3); (0x3CC, 0x3CC, 1, 0x38C);
    (0x3CD, 0x3CE, 1, 0x38E); (0x3D0, 0x3D0, 1, 0x392); (0x3D1, 0x3D1, 1, 0x398); (0x3D5, 0x3D5, 1, 0x3A6);
    (0x3D6, 0x3D6, 1, 0x3A0); (0x3D7, 0x3D7, 1, 0x3CF); (0x3D9, 0x3EF, 2, 0x3D8); (0x3F0, 0x3F0, 1, 0x39A);
    (0x3F1, 0x3F1, 1, 0x3A1); (0x3F2, 0x3F2, 1, 0x3F9); (0x3F3, 0x3F3, 1, 0x37F); (0x3F5, 0x3F5, 1, 0x395);
    (0x3F8, 0x3F8, 1, 0x3F7); (0x3FB, 0x3FB, 1, 0x3FA); (0x430, 0x44F, 1, 0x410); (0x450, 0x45F, 1, 0x400);
    (0x461, 0x481, 2, 0x460); (0x48B, 0x4BF, 2, 0x48A); (0x4C2, 0x4CE, 2, 0x4C1); (0x4CF, 0x4CF, 1, 0x4C0);
    (0x4D1, 0x52F, 2, 0x4D0); (0x561, 0x586, 1, 0x531); (0x10D0, 0x10FA, 1, 0x1C90); (0x10FD, 0x10FF, 1, 0x1CBD);
    (0x13F8, 0x13FD, 1, 0x13F0); (0x1C80, 0x1C80, 1, 0x412); (0x1C81, 0x1C81, 1, 0x414); (0x1C82, 0x1C82, 1, 0x41E);
    (0x1C83, 0x1C84, 1, 0x421); (0x1C85, 0x1C85, 1, 0x422); (0x1C86, 0x1C86, 1, 0x42A); (0x1C87, 0x1C87, 1, 0x462);
    (0x1C88, 0x1C88, 1, 0xA64A); (0x1D79, 0x1D79, 1, 0xA77D); (0x1D7D, 0x1D7D, 1, 0x2C63); (0x1D8E, 0x1D8E, 1, 0xA7C6);
    (0x1E01, 0x1E95, 2, 0x1E00); (0x1E9B, 0x1E9B, 1, 0x1E60); (0x1EA1, 0x1EFF, 2, 0x1EA0); (0x1F00, 0x1F07, 1, 0x1F08);
    (0x1F10, 0x1F15, 1, 0x1F18); (0x1F20, 0x1F27, 1, 0x1F28); (0x1F30, 0x1F37, 1, 0x1F38); (0x1F40, 0x1F45, 1, 0x1F48);
    (0x1F51, 0x1F57, 2, 0x1F59); (0x1F60, 0x1F67, 1, 0x1F68); (0x1F70, 0x1F71, 1, 0x1FBA); (0x1F72, 0x1F75, 1, 0x1FC8);
    (0x1F76, 0x1F77, 1, 0x1FDA); (0x1F78, 0x1F79, 1, 0x1FF8); (0x1F7A, 0x1F7B, 1, 0x1FEA); (0x1F7C, 0x1F7D, 1, 0x1FFA);
    (0x1FB0, 0x1FB1, 1, 0x1FB8); (0x1FBE, 0x1FBE, 1, 0x399); (0x1FD0, 0x1FD1, 1, 0x1FD8); (0x1FE0, 0x1FE1, 1, 0x1FE8);
    (0x1FE5, 0x1FE5, 1, 0x1FEC); (0x214E, 0x214E, 1, 0x2132); (0x2170, 0x217F, 1, 0x2160); (0x2184, 0x2184, 1, 0x2183);
    (0x24D0, 0x24E9, 1, 0x24B6); (0x2C30, 0x2C5F, 1, 0x2C00); (0x2C61, 0x2C61, 1, 0x2C60); (0x2C65, 0x2C65, 1, 0x23A);
    (0x2C66, 0x2C66, 1, 0x23E); (0x2C68, 0x2C6C, 2, 0x2C67); (0x2C73, 0x2C73, 1, 0x2C72); (0x2C76, 0x2C76, 1, 0x2C75);
    (0x2C81, 0x2CE3, 2, 0x2C80); (0x2CEC, 0x2CEE, 2, 0x2CEB); (0x2CF3, 0x2CF3, 1, 0x2CF2); (0x2D00, 0x2D25, 1, 0x10A0);
    (0x2D27, 0x2D27, 1, 0x10C7); (0x2D2D, 0x2D2D, 1, 0x10CD); (0xA641, 0xA66D, 2, 0xA640); (0xA681, 0xA69B, 2, 0xA680);
    (0xA723, 0xA72F, 2, 0xA722); (0xA733, 0xA76F, 2, 0xA732); (0xA77A, 0xA77C, 2, 0xA779); (0xA77F, 0xA787, 2, 0xA77E);
    (0xA78C, 0xA78C, 1, 0xA78B); (0xA791, 0xA793, 2, 0xA790); (0xA794, 0xA794, 1, 0xA7C4); (0xA797, 0xA7A9, 2, 0xA796);
    (0xA7B5, 0xA7C3, 2, 0xA7B4); (0xA7C8, 0xA7CA, 2, 0xA7C7); (0xA7D1, 0xA7D1, 1, 0xA7D0); (0xA7D7, 0xA7D9, 2, 0xA7D6);
    (0xA7F6, 0xA7F6, 1, 0xA7F5); (0xAB53, 0xAB53, 1, 0xA7B3); (0xAB70, 0xABBF, 1, 0x13A0); (0xFF41, 0xFF5A, 1, 0xFF21);
    (0x10428, 0x1044F, 1, 0x10400); (0x104D8, 0x104FB, 1, 0x104B0); (0x10597, 0x105A1, 1, 0x10570); (0x105A3, 0x105B1, 1, 0x1057C);
    (0x105B3, 0x105B9, 1, 0x1058C); (0x105BB, 0x105BC, 1, 0x10594); (0x10CC0, 0x10CF2, 1, 0x10C80); (0x118C0, 0x118DF, 1, 0x118A0);
    (0x16E60, 0x16E7F, 1, 0x16E40); (0x1E922, 0x1E943, 1, 0x1E900) ]%N.

Definition upper_special : list (N * list N) :=
  [ (0xDF, [0x53; 0x53]); (0x149, [0x2BC; 0x4E]); (0x1F0, [0x4A; 0x30C]);
    (0x390, [0x399; 0x308; 0x301]); (0x3B0, [0x3A5; 0x308; 0x301]); (0x587, [0x535; 0x552]);
    (0x1E96, [0x48; 0x331]); (0x1E97, [0x54; 0x308]); (0x1E98, [0x57; 0x30A]);
    (0x1E99, [0x59; 0x30A]); (0x1E9A, [0x41; 0x2BE]); (0x1F50, [0x3A5; 0x313]);
    (0x1F52, [0x3A5; 0x313; 0x300]); (0x1F54, [0x3A5; 0x313; 0x301]); (0x1F56, [0x3A5; 0x313; 0x342]);
    (0x1F80, [0x1F08; 0x399]); (0x1F81, [0x1F09; 0x399]); (0x1F82, [0x1F0A; 0x399]);
    (0x1F83, [0x1F0B; 0x399]); (0x1F84, [0x1F0C; 0x399]); (0x1F85, [0x1F0D; 0x399]);
    (0x1F86, [0x1F0E; 0x399]); (0x1F87, [0x1F0F; 0x399]); (0x1F88, [0x1F08; 0x399]);
    (0x1F89, [0x1F09; 0x399]); (0x1F8A, [0x1F0A; 0x399]); (0x1F8B, [0x1F0B; 0x399]);
    (0x1F8C, [0x1F0C; 0x399]); (0x1F8D, [0x1F0D; 0x399]); (0x1F8E, [0x1F0E; 0x399]);
    (0x1F8F, [0x1F0F; 0x399]); (0x1F90, [0x1F28; 0x399]); (0x1F91, [0x1F29; 0x399]);
    (0x1F92, [0x1F2A; 0x399]); (0x1F93, [0x1F2B; 0x399]); (0x1F94, [0x1F2C; 0x399]);
    (0x1F95, [0x1F2D; 0x399]); (0x1F96, [0x1F2E; 0x399]); (0x1F97, [0x1F2F; 0x399]);
    (0x1F98, [0x1F28; 0x399]); (0x1F99, [0x1F29; 0x399]); (0x1F9A, [0x1F2A; 0x399]);
    (0x1F9B, [0x1F2B; 0x399]); (0x1F9C, [0x1F2C; 0x399]); (0x1F9D, [0x1F2D; 0x399]);
    (0x1F9E, [0x1F2E; 0x399]); (0x1F9F, [0x1F2F; 0x399]); (0x1FA0, [0x1F68; 0x399]);
    (0x1FA1, [0x1F69; 0x399]); (0x1FA2, [0x1F6A; 0x399]); (0x1FA3, [0x1F6B; 0x399]);
    (0x1FA4, [0x1F6C; 0x399]); (0x1FA5, [0x1F6D; 0x399]); (0x1FA6, [0x1F6E; 0x399]);
    (0x1FA7, [0x1F6F; 0x399]); (0x1FA8, [0x1F68; 0x399]); (0x1FA9, [0x1F69; 0x399]);
    (0x1FAA, [0x1F6A; 0x399]); (0x1FAB, [0x1F6B; 0x399]); (0x1FAC, [0x1F6C; 0x399]);
    (0x1FAD, [0x1F6D; 0x399]); (0x1FAE, [0x1F6E; 0x399]); (0x1FAF, [0x1F6F; 0x399]);
    (0x1FB2, [0x1FBA; 0x399]); (0x1FB3, [0x391; 0x399]); (0x1FB4, [0x386; 0x399]);
    (0x1FB6, [0x391; 0x342]); (0x1FB7, [0x391; 0x342; 0x399]); (0x1FBC, [0x391; 0x399]);
    (0x1FC2, [0x1FCA; 0x399]); (0x1FC3, [0x397; 0x399]); (0x1FC4, [0x389; 0x399]);
    (0x1FC6, [0x397; 0x342]); (0x1FC7, [0x397; 0x342; 0x399]); (0x1FCC, [0x397; 0x399]);
    (0x1FD2, [0x399; 0x308; 0x300]); (0x1FD3, [0x399; 0x308; 0x301]); (0x1FD6, [0x399; 0x342]);
    (0x1FD7, [0x399; 0x308; 0x342]); (0x1FE2, [0x3A5; 0x308; 0x300]); (0x1FE3, [0x3A5; 0x308; 0x301]);
    (0x1FE4, [0x3A1; 0x313]); (0x1FE6, [0x3A5; 0x342]); (0x1FE7, [0x3A5; 0x308; 0x342]);
    (0x1FF2, [0x1FFA; 0x399]); (0x1FF3, [0x3A9; 0x399]); (0x1FF4, [0x38F; 0x399]);
    (0x1FF6, [0x3A9; 0x342]); (0x1FF7, [0x3A9; 0x342; 0x399]); (0x1FFC, [0x3A9; 0x399]);
    (0xFB00, [0x46; 0x46]); (0xFB01, [0x46; 0x49]); (0xFB02, [0x46; 0x4C]);
    (0xFB03, [0x46; 0x46; 0x49]); (0xFB04, [0x46; 0x46; 0x4C]); (0xFB05, [0x53; 0x54]);
    (0xFB06, [0x53; 0x54]); (0xFB13, [0x544; 0x546]); (0xFB14, [0x544; 0x535]);
    (0xFB15, [0x544; 0x53B]); (0xFB16, [0x54E; 0x546]); (0xFB17, [0x544; 0x53D]) ]%N.

Definition in_run (c : N) (e : N * N * N * N) : bool :=
  let '(lo, hi, step, _) := e in
  (lo <=? c)%N && (c <=? hi)%N && ((c - lo) mod step =? 0)%N.

Definition toupper_full (c : N) : pystr :=
  match find (fun e => (fst e =? c)%N) upper_special with
  | Some (_, u) => u
  | None =>
      match find (in_run c) upper_runs with
      | Some (lo, _, _, up) => [(up + (c - lo))%N]
      | None => [c]
      end
  end.

(** ** String methods *)

Fixpoint dropwhile (p : N -> bool) (s : pystr) : pystr :=
  match s with
  | [] => []
  | c :: s' => if p c then dropwhile p s' else s
  end.

(** [s.strip()] *)
Definition str_strip (s : pystr) : pystr :=
  rev (dropwhile is_space (rev (dropwhile is_space s))).

(** [s.upper()] *)
Definition str_upper (s : pystr) : pystr := flat_map toupper_full s.

(** [s.split()]: the maximal runs of non-blank characters, in order.
    [cur] is the token being read, reversed. *)
Fixpoint split_ws (cur : pystr) (s : pystr) : list pystr :=
  match s with
  | [] => match cur with [] => [] | _ => [rev cur] end
  | c :: s' =>
      if is_space c
      then match cur with [] => split_ws [] s' | _ => rev cur :: split_ws [] s' end
      else split_ws (c :: cur) s'
  end.

Definition str_split (s : pystr) : list pystr := split_ws [] s.

(** ** Scalar cell values and [str] *)

(** What a cell of the table can hold when the loop of [processar_arquivo]
    reads it with [row.iloc]: a missing value ([None], [pd.NA], [NaT]), a
    string, an integer, a float (binary64, with NaN) or a boolean. *)
Inductive pyval :=
| PyNone
| PyStr (s : pystr)
| PyInt (z : Z)
| PyFloat (f : spec_float)
| PyBool (b : bool).

(** [pd.isna(v)] on a scalar. *)
Definition pd_isna (v : pyval) : bool :=
  match v with
  | PyNone => true
  | PyFloat S754_nan => true
  | _ => false
  end.

(** [v == ''] *)
Definition eq_vazio (v : pyval) : bool :=
  match v with
  | PyStr [] => true
  | _ => false
  end.

(** [str(z)] for an integer, when it returns: decimal digits, with a
    leading [-] when negative.  CPython 3.11 refuses to print an integer of
    more than [sys.int_max_str_digits] digits and raises [ValueError]
    there; see [str_retorna]. *)
Definition str_of_Z (z : Z) : pystr := lit (NilEmpty.string_of_int (Z.to_int z)).

(** [sys.get_int_max_str_digits()], as the interpreter starts. *)
Definition int_max_str_digits : Z := 4300.

(** The double nearest to an integer ([float(z)]). *)
Definition float_of_Z (z : Z) : spec_float := binary_normalize 53 1024 z 0 false.

Local Open Scope Z_scope.

(** *** [repr] of a float

    CPython prints a finite double [x = m * 2^e] with the shortest digit
    string that reads back as [x] (the closest to [x] among the shortest),
    in positional notation when the decimal point lies within
    [-4 < decpt <= 16] and in exponent notation otherwise.  All quantities
    below are numerators over the common denominator [fl_den]. *)
Section FloatRepr.
Variables (m : positive) (e : Z).

Let U : Z := 2 ^ Z.max e 0.
Definition fl_den : Z := 4 * 2 ^ Z.max (- e) 0.
Definition fl_x : Z := 4 * Zpos m * U.
(** Half-way to the next double above and to the next double below. *)
Definition fl_hi : Z := fl_x + 2 * U.
Definition fl_lo : Z :=
  fl_x - (if (Zpos m =? 2 ^ 52) && (-1074 <? e) then U else 2 * U).

(** Compares the decimal [c * 10^j] with the numerator [n]. *)
Definition dec_cmp (c j n : Z) : comparison :=
  if 0 <=? j then (c * 10 ^ j * fl_den ?= n) else (c * fl_den ?= n * 10 ^ (- j)).

(** The least [k] from [k0] on with [x < 10^k]. *)
Fixpoint find_decpt (fuel : nat) (k : Z) : Z :=
  match fuel with
  | O => k
  | S fuel' =>
      match dec_cmp 1 k fl_x with
      | Gt => k
      | _ => find_decpt fuel' (k + 1)
      end
  end.

(** Position of the decimal point: [10^(decpt-1) <= x < 10^decpt].  The
    search starts below it, at an estimate from the binary logarithm. *)
Definition fl_decpt : Z :=
  find_decpt 8 ((Z.log2 fl_x - Z.log2 fl_den) * 30103 / 100000 - 2).

(** A decimal reads back as [x] when it lies in the rounding interval of
    [x]; the ends belong to it when the mantissa is even. *)
Definition reads_back (c j : Z) : bool :=
  match dec_cmp c j fl_lo, dec_cmp c j fl_hi with
  | Gt, Lt => true
  | Eq, Lt | Gt, Eq => Z.even (Zpos m)
  | _, _ => false
  end.

(** The [n]-digit decimal [c * 10^(k-n)] that reads back as [x] and is
    closest to it, for the decimal point at [k]. *)
Definition candidate (k n : Z) : option Z :=
  let j := k - n in
  let c := if 0 <=? j then fl_x / (10 ^ j * fl_den) else (fl_x * 10 ^ (- j)) / fl_den in
  match reads_back c j, reads_back (c + 1) j with
  | true, true =>
      match dec_cmp (2 * c + 1) j (2 * fl_x) with
      | Gt => Some c
      | Lt => Some (c + 1)
      | Eq => Some (if Z.even c then c else c + 1)
      end
  | true, false => Some c
  | false, true => Some (c + 1)
  | false, false => None
  end.

(** The shortest such decimal, trying [n], [n+1], ... digits; seventeen
    digits always read back. *)
Fixpoint shortest_from (fuel : nat) (k n : Z) : Z * Z :=
  match fuel with
  | O => (Zpos m, 0)
  | S fuel' =>
      match candidate k n with
      | Some c => (c, n)
      | None => shortest_from fuel' k (n + 1)
      end
  end.
End FloatRepr.

Definition strip_zeros (ds : pystr) : pystr :=
  rev (dropwhile (N.eqb 48) (rev ds)).

(** Digits (without trailing zeros) and position of the decimal point:
    the value is [0.d1d2... * 10^decpt]. *)
Definition float_digits (m : positive) (e : Z) : pystr * Z :=
  let k := fl_decpt m e in
  let '(c, n) := shortest_from m e 17 k 1 in
  (strip_zeros (str_of_Z c), if c =? 10 ^ n then k + 1 else k).

Definition zeros (n : Z) : pystr := repeat 48%N (Z.to_nat n).

(** The exponent of the exponent notation: sign and at least two digits. *)
Definition str_of_exp (x : Z) : pystr :=
  (if x <? 0 then lit "-" else lit "+")
  ++ (if Z.abs x <? 10 then lit "0" else []) ++ str_of_Z (Z.abs x).

Definition float_repr_pos (m : positive) (e : Z) : pystr :=
  let '(ds, decpt) := float_digits m e in
  let nd := Z.of_nat (List.length ds) in
  if (decpt <=? -4) || (16 <? decpt) then
    firstn 1 ds ++ (if 1 <? nd then lit "." ++ skipn 1 ds else [])
    ++ lit "e" ++ str_of_exp (decpt - 1)
  else if decpt <=? 0 then lit "0." ++ zeros (- decpt) ++ ds
  else if nd <=? decpt then ds ++ zeros (decpt - nd) ++ lit ".0"
  else firstn (Z.to_nat decpt) ds ++ lit "." ++ skipn (Z.to_nat decpt) ds.

Definition sign_str (neg : bool) : pystr := if neg then lit "-" else [].

(** [str(f)] for a float. *)
Definition float_repr (f : spec_float) : pystr :=
  match f with
  | S754_nan => lit "nan"
  | S754_infinity neg => sign_str neg ++ lit "inf"
  | S754_zero neg => sign_str neg ++ lit "0.0"
  | S754_finite neg m e => sign_str neg ++ float_repr_pos m e
  end.

(** [str(v)], when it returns. *)
Definition py_str (v : pyval) : pystr :=
  match v with
  | PyNone => lit "None"
  | PyStr s => s
  | PyInt z => str_of_Z z
  | PyFloat f => float_repr f
  | PyBool b => if b then lit "True" else lit "False"
  end.

(** The values for which [str(v)] returns: every value but an integer
    of more than [int_max_str_digits] digits, for which it raises
    [ValueError].  An integer cell of a table is an [int64] and is far
    inside the limit; the three cell functions are embedded on these
    values, and the statements about arbitrary integers carry the bound. *)
Definition str_retorna (v : pyval) : Prop :=
  match v with
  | PyInt z => (Z.abs z < 10 ^ int_max_str_digits)%Z
  | _ => True
  end.

Local Close Scope Z_scope.

(** ** Regular expressions of the [re] module

    The constructs the source's patterns use: a character class, a greedy
    bounded repetition of a class, concatenation and a lookahead. *)
Inductive regex :=
| Class (p : N -> bool)                (* [...]  \s  \d  a literal *)
| Rep (p : N -> bool) (lo : nat) (hi : option nat)
                                       (* c*  c+  c?  c{n}  c{n,m}, greedy *)
| Cat (r1 r2 : regex)
| Lookahead (r : regex).               (* (?=...) *)

(** Length of the longest prefix of [s] whose characters are all in [p]. *)
Fixpoint prefix_len (p : N -> bool) (s : pystr) : nat :=
  match s with
  | c :: s' => if p c then S (prefix_len p s') else 0
  | [] => 0
  end.

(** [lo + n; ...; lo + 1; lo] *)
Fixpoint countdown (lo n : nat) : list nat :=
  match n with
  | O => [lo]
  | S n' => (lo + n) :: countdown lo n'
  end.

(** The lengths of the prefixes of [s] that [r] matches, in the order in
    which the backtracking matcher tries them (a greedy repetition tries
    the longest first). *)
Fixpoint matches (r : regex) (s : pystr) : list nat :=
  match r with
  | Class p =>
      match s with
      | c :: _ => if p c then [1] else []
      | [] => []
      end
  | Rep p lo hi =>
      let n := prefix_len p s in
      let top := match hi with Some h => Nat.min n h | None => n end in
      if lo <=? top then countdown lo (top - lo) else []
  | Cat r1 r2 =>
      flat_map (fun n1 => map (Nat.add n1) (matches r2 (skipn n1 s))) (matches r1 s)
  | Lookahead r' =>
      match matches r' s with
      | [] => []
      | _ => [0]
      end
  end.

(** The match the search finds at the current position.  After an empty
    match the next one must not be empty at the same position
    ([must_advance]). *)
Definition match_here (r : regex) (must_advance : bool) (s : pystr) : option nat :=
  find (fun n => negb must_advance || (0 <? n)) (matches r s).

(** [re.split(r, s)] for a pattern without groups.  [skip] counts the
    characters of the current match still to pass, [seg] is the segment
    since the end of the last match, reversed. *)
Fixpoint split_scan (r : regex) (skip : nat) (seg s : pystr) {struct s} : list pystr :=
  match skip with
  | S k =>
      match s with
      | [] => [rev seg]
      | _ :: s' => split_scan r k seg s'
      end
  | O =>
      let next n :=
        match n, s with
        | S k, _ :: s' => split_scan r k [] s'
        | _, _ => [[]]
        end in
      match match_here r false s with
      | Some (S k) => rev seg :: next (S k)
      | Some O =>
          rev seg ::
          match match_here r true s with
          | Some n => [] :: next n
          | None =>
              match s with
              | [] => [[]]
              | c :: s' => split_scan r 0 [c] s'
              end
          end
      | None =>
          match s with
          | [] => [rev seg]
          | c :: s' => split_scan r 0 (c :: seg) s'
          end
      end
  end.

Definition re_split (r : regex) (s : pystr) : list pystr := split_scan r 0 [] s.

(** [sep.join(l)] *)
Fixpoint str_join (sep : pystr) (l : list pystr) : pystr :=
  match l with
  | [] => []
  | [x] => x
  | x :: l' => x ++ sep ++ str_join sep l'
  end.

(** [re.sub(r, repl, s)] for a literal replacement: the pieces between the
    matches, joined by the replacement. *)
Definition re_sub (r : regex) (repl s : pystr) : pystr := str_join repl (re_split r s).

(** The code point of an ASCII character. *)
Definition chr (a : ascii) : N := N_of_ascii a.

Definition star (p : N -> bool) : regex := Rep p 0 None.
Definition plus (p : N -> bool) : regex := Rep p 1 None.

(** [r'[^\d]'] *)
Definition nao_digito : regex := Class (fun c => negb (is_decimal c)).

(** [r'\s*[;,/]\s*'] *)
Definition sep_pontuacao : regex :=
  Cat (star is_space)
      (Cat (Class (fun c => (c =? chr ";")%N || (c =? chr ",")%N || (c =? chr "/")%N))
           (star is_space)).

(** [r'\s*-\s*(?=\d)'] *)
Definition sep_hifen : regex :=
  Cat (star is_space)
      (Cat (Class (N.eqb (chr "-")))
           (Cat (star is_space) (Lookahead (Class is_decimal)))).

(** [r'\s+(?=\d{2}\s*\d{4,5}[-\s]?\d{4})'] *)
Definition sep_espaco : regex :=
  Cat (plus is_space)
      (Lookahead
         (Cat (Rep is_decimal 2 (Some 2))
              (Cat (star is_space)
                   (Cat (Rep is_decimal 4 (Some 5))
                        (Cat (Rep (fun c => (c =? chr "-")%N || is_space c) 0 (Some 1))
                             (Rep is_decimal 4 (Some 4))))))).

(** ** The functions of [src/app.py] *)

(** [l[-n:]] for a positive [n] *)
Definition ultimos {A} (n : nat) (l : list A) : list A := skipn (List.length l - n) l.

Definition limpa_cpf_google_sheets (cpf : pyval) : pystr :=
  if pd_isna cpf || eq_vazio cpf then []
  else
    let cpf_str := py_str cpf in
    let cpf_apenas_digitos := re_sub nao_digito [] cpf_str in
    let cpf_formatado := ultimos 11 (lit "00000000000" ++ cpf_apenas_digitos) in
    cpf_formatado.

Definition separadores : list regex := [sep_pontuacao; sep_hifen; sep_espaco].

(** One pass of the outer loop: every fragment is split by [separador]. *)
Definition passo (telefones : list pystr) (separador : regex) : list pystr :=
  flat_map (re_split separador) telefones.

(** The body of the cleaning loop for one fragment: the digits of the
    fragment when there are at least eight, nothing otherwise. *)
Definition limpar_telefone (tel : pystr) : list pystr :=
  let tel_limpo := re_sub nao_digito [] (str_strip tel) in
  if 8 <=? List.length tel_limpo then [tel_limpo] else [].

Definition separar_telefones_multiplos (telefone_str : pyval) : list pystr :=
  if pd_isna telefone_str || eq_vazio telefone_str then []
  else
    let telefone_str := py_str telefone_str in
    let telefones := fold_left passo separadores [telefone_str] in
    flat_map limpar_telefone telefones.

(** *** Exceptions

    On the values of [str_retorna], the operations of the cell functions
    and of the loop body that can raise are the two indexings,
    [row.iloc[i]] and [nome_str.split()[0]], with [IndexError].  The
    progress code of the row loop works on the label of the row and can
    raise as well: [index % 100] is string formatting when the label is a
    string ([TypeError], [ValueError]), [index / total_registros] overflows
    for a huge integer label ([OverflowError]), and [progress_bar.progress]
    refuses a value outside 0..100 ([StreamlitAPIException]). *)
Inductive exn :=
| IndexError
| ValueError
| TypeError
| OverflowError
| StreamlitAPIException.

Inductive result (A : Type) :=
| Ok (a : A)
| Raise (e : exn).
Arguments Ok {A} a.
Arguments Raise {A} e.

Definition bind {A B} (c : result A) (k : A -> result B) : result B :=
  match c with
  | Ok a => k a
  | Raise e => Raise e
  end.

Notation "x <- c ;; k" := (bind c (fun x => k))
  (at level 61, c at next level, right associativity).

(** [l[0]] *)
Definition item0 {A} (l : list A) : result A :=
  match l with
  | x :: _ => Ok x
  | [] => Raise IndexError
  end.

Definition limpa_nome (nome : pyval) (apenas_primeiro_nome : bool) : result pystr :=
  if pd_isna nome || eq_vazio nome then Ok []
  else
    let nome_str := str_upper (str_strip (py_str nome)) in
    if apenas_primeiro_nome then
      match nome_str with
      | [] => Ok []
      | _ => item0 (str_split nome_str)
      end
    else Ok nome_str.

(** *** The table processor *)

(** The cells of a row: the scalars [row.iloc] reads.  The column indices
    of the configuration come from number inputs with minimum 0 and the
    maximum phone count from a slider from 1 to 10, hence natural
    numbers. *)
Definition linha := list pyval.

Record config := {
  nome_col : nat;
  cpf_col : nat;
  telefone_cols : list nat;
  apenas_primeiro_nome : bool;
  remover_sem_telefone : bool;
  max_telefones : nat
}.

(** [row.iloc[i]] *)
Definition iloc (row : linha) (i : nat) : result pyval :=
  match nth_error row i with
  | Some v => Ok v
  | None => Raise IndexError
  end.

(** A [dict] with string keys and string values, in insertion order. *)
Definition dict := list (pystr * pystr).

(** [d[k] = v] *)
Fixpoint dict_set (d : dict) (k v : pystr) : dict :=
  match d with
  | [] => [(k, v)]
  | (k', v') :: d' =>
      if pystr_eqb k' k then (k', v) :: d' else (k', v') :: dict_set d' k v
  end.

(** [row.iloc[col] if col < len(row) else ''] *)
Definition celula (row : linha) (col : nat) : result pyval :=
  if col <? List.length row then iloc row col else Ok (PyStr []).

(** The loop over [telefone_cols]; [acc] is [telefones_processados]. *)
Fixpoint telefones_das_colunas (row : linha) (cols : list nat) (acc : list pystr)
  : result (list pystr) :=
  match cols with
  | [] => Ok acc
  | tel_col :: cols' =>
      if tel_col <? List.length row then
        telefone_original <- iloc row tel_col ;;
        telefones_das_colunas row cols' (acc ++ separar_telefones_multiplos telefone_original)
      else telefones_das_colunas row cols' acc
  end.

(** [while len(tels) < max: tels.append('')], with [falta] the number of
    iterations left. *)
Fixpoint preencher (falta : nat) (tels : list pystr) : list pystr :=
  match falta with
  | O => tels
  | S falta' => preencher falta' (tels ++ [[]])
  end.

(** [any(tel for tel in tels if tel)] *)
Definition algum_telefone (tels : list pystr) : bool :=
  existsb (fun tel => match tel with [] => false | _ => true end) tels.

(** [f'DDD/Telefone {i+1}'] *)
Definition chave_telefone (i : nat) : pystr :=
  lit "DDD/Telefone " ++ str_of_Z (Z.of_nat (i + 1)).

(** [for i, tel in enumerate(tels): registro[f'DDD/Telefone {i+1}'] = tel],
    from index [i] on. *)
Fixpoint por_telefones (registro : dict) (i : nat) (tels : list pystr) : dict :=
  match tels with
  | [] => registro
  | tel :: tels' => por_telefones (dict_set registro (chave_telefone i) tel) (S i) tels'
  end.

(** The phone slots of a row: the numbers found, cut to [max_telefones] and
    filled up with empty strings. *)
Definition telefones_da_linha (cfg : config) (row : linha) : result (list pystr) :=
  telefones_processados <- telefones_das_colunas row (telefone_cols cfg) [] ;;
  let telefones_processados := firstn (max_telefones cfg) telefones_processados in
  Ok (preencher (max_telefones cfg - List.length telefones_processados) telefones_processados).

(** The body of the loop over the rows: the record to append, if any. *)
Definition processar_linha (cfg : config) (row : linha) : result (option dict) :=
  nome_original <- celula row (nome_col cfg) ;;
  cpf_original <- celula row (cpf_col cfg) ;;
  nome_limpo <- limpa_nome nome_original (apenas_primeiro_nome cfg) ;;
  let cpf_formatado := limpa_cpf_google_sheets cpf_original in
  telefones_processados <- telefones_da_linha cfg row ;;
  if negb (remover_sem_telefone cfg) || algum_telefone telefones_processados then
    let registro := [(lit "Nome", nome_limpo); (lit "CPF", cpf_formatado)] in
    Ok (Some (por_telefones registro 0 telefones_processados))
  else Ok None.

(** *** Tables

    A [DataFrame] keeps one dtype per column and one label per row
    ([df.index]).  [pd.read_csv] gives columns of the dtypes [int64]
    ([uint64] for integers that need it), [float64], [bool] and [object]
    (text, with NaN for a missing cell), and the labels 0, 1, ... unless
    the data lines have more fields than the header, in which case the
    first fields are the labels. *)
Inductive dtype := Int64 | UInt64 | Float64 | Bool | Object.

(** The dtype of an array that holds cells of two dtypes
    ([find_common_type]): different numeric dtypes meet in [float64];
    pandas does not mix booleans with numbers, and everything else meets
    in [object]. *)
Definition comum (a b : dtype) : dtype :=
  match a, b with
  | Int64, Int64 => Int64
  | UInt64, UInt64 => UInt64
  | Bool, Bool => Bool
  | Float64, (Int64 | UInt64 | Float64)
  | Int64, (UInt64 | Float64)
  | UInt64, (Int64 | Float64) => Float64
  | _, _ => Object
  end.

(** The dtype of [df.values], hence of every row that [df.iterrows()]
    yields; a table without columns gives an empty array of floats. *)
Definition dtype_das_linhas (dts : list dtype) : dtype :=
  match dts with
  | [] => Float64
  | d :: dts' => fold_left comum dts' d
  end.

(** A cell as the row array holds it: in an array of floats an integer
    is the nearest float; in every other array the cell is as it was. *)
Definition converter (d : dtype) (v : pyval) : pyval :=
  match d, v with
  | Float64, PyInt z => PyFloat (float_of_Z z)
  | _, _ => v
  end.

Section Tabela.
(** The labels of the rows. *)
Variable rotulo : Type.

(** The columns' dtypes and the rows, each with its label and its cells
    as the columns hold them. *)
Record dataframe := {
  dtypes : list dtype;
  linhas : list (rotulo * linha)
}.

(** [len(df)] *)
Definition len (df : dataframe) : nat := List.length (linhas df).

(** [df.iterrows()]: the label and the row [Series] of every row, the
    cells of all rows converted to the one dtype of [df.values]. *)
Definition iterrows (df : dataframe) : list (rotulo * linha) :=
  map (fun r => (fst r, map (converter (dtype_das_linhas (dtypes df))) (snd r))) (linhas df).

(** The progress code at the head of the loop body,
    [if index % 100 == 0: progress = int((index / total_registros) * 100);
    progress_bar.progress(progress); status_text.text(...)]: it reads the
    label and [total_registros], shows something, and returns or
    raises. *)
Variable atualizar_progresso : rotulo -> nat -> result unit.

(** The loop over the rows; [dados_processados] is the list built so far. *)
Fixpoint processar_linhas (cfg : config) (total_registros : nat)
    (rows : list (rotulo * linha)) (dados_processados : list dict) : result (list dict) :=
  match rows with
  | [] => Ok dados_processados
  | (index, row) :: rows' =>
      feito <- atualizar_progresso index total_registros ;;
      r <- processar_linha cfg row ;;
      processar_linhas cfg total_registros rows'
        (match r with
         | Some registro => dados_processados ++ [registro]
         | None => dados_processados
         end)
  end.

(** [processar_arquivo(df, config)]: the records of the final table, in
    order.  The calls outside the loop, [st.progress(0)], [st.empty()],
    [progress_bar.progress(100)] and the last [status_text.text], take
    constants; they do not depend on the table and are not part of the
    embedding. *)
Definition processar_arquivo (df : dataframe) (cfg : config) : result (list dict) :=
  let total_registros := len df in
  processar_linhas cfg total_registros (iterrows df) [].
End Tabela.

(** *** The statistics of a run

    After the table is processed the application shows three counts; the
    third is [len(df_processado[df_processado['DDD/Telefone 1'] != ''])]. *)

(** [registro[k]], if the record has the key. *)
Fixpoint dict_get (d : dict) (k : pystr) : option pystr :=
  match d with
  | [] => None
  | (k', v) :: d' => if pystr_eqb k' k then Some v else dict_get d' k
  end.

(** The final table [pd.DataFrame(dados_processados)] has the keys of the
    records as columns; a table built from no record has no column. *)
Definition tem_coluna (df_final : list dict) (k : pystr) : bool :=
  existsb (fun registro => match dict_get registro k with Some _ => true | None => false end)
          df_final.

(** [len(df_processado[df_processado[k] != ''])]; [None] stands for the
    [KeyError] that [df_processado[k]] raises when there is no such column.
    A record without the key has NaN in the column, which differs from
    ['']. *)
Definition registros_com (k : pystr) (df_processado : list dict) : option nat :=
  if tem_coluna df_processado k then
    Some (length (filter (fun registro =>
                            match dict_get registro k with
                            | Some [] => false
                            | _ => true
                            end) df_processado))
  else None.

Definition registros_com_telefone (df_processado : list dict) : option nat :=
  registros_com (lit "DDD/Telefone 1") df_processado.

(** *** Bytes and codecs

    The upload is a sequence of bytes that [pd.read_csv] decodes with the
    encoding it is given; the download link carries the text of the final
    table encoded as UTF-8 and then as base64. *)
Definition pybytes := list Byte.byte.

(** The byte with the given value below 256. *)
Definition byte_of_N (n : N) : Byte.byte :=
  match Byte.of_N n with
  | Some b => b
  | None => Byte.x00
  end.

Definition surrogate (c : N) : bool := (0xD800 <=? c)%N && (c <=? 0xDFFF)%N.

(** The UTF-8 bytes of one code point; a surrogate cannot be encoded. *)
Definition utf8_char (c : N) : option (list N) :=
  (if c <? 0x80 then Some [c]
   else if c <? 0x800 then Some [0xC0 + c / 64; 0x80 + c mod 64]
   else if c <? 0x10000 then
     if surrogate c then None
     else Some [0xE0 + c / 4096; 0x80 + (c / 64) mod 64; 0x80 + c mod 64]
   else if c <? 0x110000 then
     Some [0xF0 + c / 262144; 0x80 + (c / 4096) mod 64; 0x80 + (c / 64) mod 64;
           0x80 + c mod 64]
   else None)%N.

Fixpoint utf8_encode_N (s : pystr) : option (list N) :=
  match s with
  | [] => Some []
  | c :: s' =>
      match utf8_char c, utf8_encode_N s' with
      | Some bs, Some bs' => Some (bs ++ bs')
      | _, _ => None
      end
  end.

(** [s.encode('utf-8')]; [None] stands for [UnicodeEncodeError]. *)
Definition utf8_encode (s : pystr) : option pybytes :=
  option_map (map byte_of_N) (utf8_encode_N s).

(** A continuation byte, [10xxxxxx]. *)
Definition cont (b : N) : bool := (0x80 <=? b)%N && (b <=? 0xBF)%N.

(** Strict UTF-8 decoding of byte values: no overlong form, no surrogate,
    nothing above U+10FFFF. *)
Fixpoint utf8_decode_N (bs : list N) : option pystr :=
  match bs with
  | [] => Some []
  | b1 :: r1 =>
      if (b1 <? 0x80)%N then option_map (cons b1) (utf8_decode_N r1)
      else if (b1 <? 0xC2)%N then None
      else if (b1 <? 0xE0)%N then
        match r1 with
        | b2 :: r2 =>
            if cont b2
            then option_map (cons ((b1 - 0xC0) * 64 + (b2 - 0x80))%N) (utf8_decode_N r2)
            else None
        | _ => None
        end
      else if (b1 <? 0xF0)%N then
        match r1 with
        | b2 :: b3 :: r3 =>
            let c := ((b1 - 0xE0) * 4096 + (b2 - 0x80) * 64 + (b3 - 0x80))%N in
            if cont b2 && cont b3 && (0x800 <=? c)%N && negb (surrogate c)
            then option_map (cons c) (utf8_decode_N r3)
            else None
        | _ => None
        end
      else if (b1 <? 0xF5)%N then
        match r1 with
        | b2 :: b3 :: b4 :: r4 =>
            let c := ((b1 - 0xF0) * 262144 + (b2 - 0x80) * 4096 + (b3 - 0x80) * 64
                      + (b4 - 0x80))%N in
            if cont b2 && cont b3 && cont b4 && (0x10000 <=? c)%N && (c <? 0x110000)%N
            then option_map (cons c) (utf8_decode_N r4)
            else None
        | _ => None
        end
      else None
  end.

(** [b.decode('utf-8')], also [b.decode()]; [None] stands for
    [UnicodeDecodeError]. *)
Definition utf8_decode (bs : pybytes) : option pystr := utf8_decode_N (map Byte.to_N bs).

(** [b.decode('latin-1')]: every byte is the code point of its value. *)
Definition latin1_decode (bs : pybytes) : option pystr := Some (map Byte.to_N bs).

(** Windows-1252: the code points of the bytes [0x80] to [0x9F]; five of
    them are undefined. *)
Definition cp1252_alto : list (option N) :=
  [ Some 0x20AC; None; Some 0x201A; Some 0x0192; Some 0x201E; Some 0x2026; Some 0x2020;
    Some 0x2021; Some 0x02C6; Some 0x2030; Some 0x0160; Some 0x2039; Some 0x0152; None;
    Some 0x017D; None; None; Some 0x2018; Some 0x2019; Some 0x201C; Some 0x201D;
    Some 0x2022; Some 0x2013; Some 0x2014; Some 0x02DC; Some 0x2122; Some 0x0161;
    Some 0x203A; Some 0x0153; None; Some 0x017E; Some 0x0178 ]%N.

Definition cp1252_byte (b : N) : option N :=
  if ((0x80 <=? b) && (b <? 0xA0))%N then nth (N.to_nat (b - 0x80)) cp1252_alto None
  else Some b.

(** [b.decode('cp1252')] *)
Fixpoint cp1252_decode_N (bs : list N) : option pystr :=
  match bs with
  | [] => Some []
  | b :: bs' =>
      match cp1252_byte b, cp1252_decode_N bs' with
      | Some c, Some s => Some (c :: s)
      | _, _ => None
      end
  end.

Definition cp1252_decode (bs : pybytes) : option pystr := cp1252_decode_N (map Byte.to_N bs).

(** The character of the base64 alphabet for a value below 64. *)
Definition b64_char (n : N) : N :=
  (if n <? 26 then 65 + n
   else if n <? 52 then 97 + (n - 26)
   else if n <? 62 then 48 + (n - 52)
   else if n =? 62 then 43
   else 47)%N.

Fixpoint b64encode_N (bs : list N) : list N :=
  match bs with
  | [] => []
  | [a] => [b64_char (a / 4); b64_char (a mod 4 * 16); 61; 61]%N
  | [a; b] =>
      [b64_char (a / 4); b64_char (a mod 4 * 16 + b / 16); b64_char (b mod 16 * 4); 61]%N
  | a :: b :: c :: bs' =>
      (b64_char (a / 4) :: b64_char (a mod 4 * 16 + b / 16)
       :: b64_char (b mod 16 * 4 + c / 64) :: b64_char (c mod 64) :: b64encode_N bs')%N
  end.

(** [base64.b64encode(b)] *)
Definition b64encode (bs : pybytes) : pybytes :=
  map byte_of_N (b64encode_N (map Byte.to_N bs)).

(** *** Reading the upload

    The application tries [pd.read_csv(uploaded_file, sep=';',
    encoding=encoding, low_memory=False)] with each encoding of
    [encodings] in turn, goes on to the next one on [UnicodeDecodeError]
    only, and reports that the file cannot be read when none succeeded.
    Any other exception leaves the loop and is reported by the handler
    around it. *)
Inductive codec := Latin1 | Utf8 | Cp1252.

Definition encodings : list codec := [Latin1; Utf8; Cp1252].

Definition decodificar (encoding : codec) (dados : pybytes) : option pystr :=
  match encoding with
  | Latin1 => latin1_decode dados
  | Utf8 => utf8_decode dados
  | Cp1252 => cp1252_decode dados
  end.

Section Carga.
(** The tables, and what [pd.read_csv] makes of the decoded text ([None]
    when it raises, for instance on a text without columns). *)
Variable tabela : Type.
Variable analisar : pystr -> option tabela.
(** What is left to read of the upload after an attempt has failed. *)
Variable resto : codec -> pybytes -> pybytes.

Inductive tentativa :=
| Lido (df : tabela)
| ErroDeDecodificacao
| OutraExcecao.

Definition read_csv (encoding : codec) (dados : pybytes) : tentativa :=
  match decodificar encoding dados with
  | None => ErroDeDecodificacao
  | Some texto =>
      match analisar texto with
      | Some df => Lido df
      | None => OutraExcecao
      end
  end.

Inductive carga :=
| Carregado (df : tabela)
| NaoFoiPossivelLer
| ErroAoProcessar.

Fixpoint carregar (encs : list codec) (dados : pybytes) : carga :=
  match encs with
  | [] => NaoFoiPossivelLer
  | encoding :: encs' =>
      match read_csv encoding dados with
      | Lido df => Carregado df
      | ErroDeDecodificacao => carregar encs' (resto encoding dados)
      | OutraExcecao => ErroAoProcessar
      end
  end.
End Carga.

(** *** The download link *)

Section Download.
(** The text [df.to_csv(sep=';', index=False, encoding='utf-8')] of a
    table. *)
Variable to_csv : list dict -> pystr.

(** [get_download_link(df, filename)]; [None] stands for the
    [UnicodeEncodeError] of [csv.encode('utf-8')] and the
    [UnicodeDecodeError] of [.decode()]. *)
Definition get_download_link (df : list dict) (filename : pystr) : option pystr :=
  let csv := to_csv df in
  match utf8_encode csv with
  | None => None
  | Some bytes =>
      match utf8_decode (b64encode bytes) with
      | None => None
      | Some b64 =>
          Some (lit "<a href=" ++ [34%N] ++ lit "data:file/csv;base64," ++ b64 ++ [34%N]
                ++ lit " download=" ++ [34%N] ++ filename ++ [34%N]
                ++ lit ">Baixar arquivo CSV</a>")
      end
  end.
End Download.

(** ** Notions used to state the properties *)

(** [l1] can be read off [l2] from left to right. *)
Inductive subseq {A : Type} : list A -> list A -> Prop :=
| subseq_nil : subseq [] []
| subseq_skip x l1 l2 : subseq l1 l2 -> subseq l1 (x :: l2)
| subseq_take x l1 l2 : subseq l1 l2 -> subseq (x :: l1) (x :: l2).

(** A cell that holds no value: missing, or the empty string. *)
Definition vazio (v : pyval) : bool := pd_isna v || eq_vazio v.

(** The keys [DDD/Telefone 1], ..., [DDD/Telefone k]. *)
Definition chaves_telefone (k : nat) : list pystr := map chave_telefone (seq 0 k).

(** The record with the given name, identifier and phone slots. *)
Definition registro_de (nome cpf : pystr) (slots : list pystr) : dict :=
  (lit "Nome", nome) :: (lit "CPF", cpf)
  :: combine (chaves_telefone (List.length slots)) slots.

(** The phone numbers found in the configured columns of a row, in the
    order of the columns; a column outside the row counts as an empty cell. *)
Definition telefones_achados (row : linha) (cols : list nat) : list pystr :=
  flat_map (fun col => separar_telefones_multiplos (nth col row (PyStr []))) cols.

(** The first [k] of the numbers found, filled up with empty strings. *)
Definition slots_da_linha (cfg : config) (row : linha) : list pystr :=
  let achados := telefones_achados row (telefone_cols cfg) in
  firstn (max_telefones cfg) achados ++ repeat [] (max_telefones cfg - length achados).

(** What one row adds to the output table. *)
Definition registros_da_linha (cfg : config) (row : linha) : list dict :=
  match processar_linha cfg row with
  | Ok (Some registro) => [registro]
  | _ => []
  end.

(** The rows the loop of [processar_arquivo] reads, without their
    labels. *)
Definition linhas_lidas {rotulo} (df : dataframe rotulo) : list linha :=
  map snd (iterrows df).

(** A cell that a column of the given dtype can hold. *)
Definition cabe (d : dtype) (v : pyval) : bool :=
  match d, v with
  | Int64, PyInt z => ((- 2 ^ 63 <=? z) && (z <? 2 ^ 63))%Z
  | UInt64, PyInt z => ((0 <=? z) && (z <? 2 ^ 64))%Z
  | Float64, PyFloat _ => true
  | Bool, PyBool _ => true
  | Object, PyStr _ => true
  | Object, PyFloat S754_nan => true
  | _, _ => false
  end.

Fixpoint cabem (dts : list dtype) (row : linha) : bool :=
  match dts, row with
  | [], [] => true
  | d :: dts', v :: row' => cabe d v && cabem dts' row'
  | _, _ => false
  end.

(** A table as pandas can hold it: every row has one cell per column, of
    the dtype of the column. *)
Definition bem_formada {rotulo} (df : dataframe rotulo) : bool :=
  forallb (fun r => cabem (dtypes df) (snd r)) (linhas df).

(** The progress code returns at every row of the table. *)
Definition progresso_retorna {rotulo} (atualizar_progresso : rotulo -> nat -> result unit)
    (df : dataframe rotulo) : Prop :=
  Forall (fun r => atualizar_progresso (fst r) (len df) = Ok tt) (linhas df).

(** Two rows of the same length that agree on the configured columns. *)
Definition mesmas_na_linha (cfg : config) (r1 r2 : linha) : Prop :=
  List.length r1 = List.length r2 /\
  forall col, In col (nome_col cfg :: cpf_col cfg :: telefone_cols cfg) ->
              nth_error r1 col = nth_error r2 col.

(** Two input tables that agree on the configured columns: the same
    number of rows with the same labels and lengths, and in the name,
    identifier and phone columns the same dtype and the same cells. *)
Definition mesmas_celulas {rotulo} (cfg : config) (df1 df2 : dataframe rotulo) : Prop :=
  Forall2 (fun r1 r2 => fst r1 = fst r2 /\ mesmas_na_linha cfg (snd r1) (snd r2))
          (linhas df1) (linhas df2) /\
  forall col, In col (nome_col cfg :: cpf_col cfg :: telefone_cols cfg) ->
              nth_error (dtypes df1) col = nth_error (dtypes df2) col.

(** Every upper-case image in the tables starts with a non-blank
    character, and no run of the table maps into a blank range. *)
Definition special_ok (e : N * list N) : bool :=
  match snd e with
  | u :: _ => negb (is_space u)
  | [] => false
  end.

Definition run_ok (e : N * N * N * N) : bool :=
  let '(lo, hi, _, up) := e in
  forallb (fun r => (snd r <? up)%N || (up + (hi - lo) <? fst r)%N) space_ranges.

(** The configuration with the option to drop rows without phone switched
    off. *)
Definition sem_remover (cfg : config) : config :=
  {| nome_col := nome_col cfg; cpf_col := cpf_col cfg;
     telefone_cols := telefone_cols cfg;
     apenas_primeiro_nome := apenas_primeiro_nome cfg;
     remover_sem_telefone := false;
     max_telefones := max_telefones cfg |}.

(** A phone number as the splitter returns it: decimal digits, at least
    eight of them. *)
Definition telefone_valido (tel : pystr) : Prop :=
  forallb is_decimal tel = true /\ 8 <= length tel.

(** The number an ASCII digit string denotes. *)
Definition valor_decimal (s : pystr) : Z :=
  fold_left (fun acc c => (10 * acc + (Z.of_N c - 48))%Z) s 0%Z.

(** The characters of an upper-case image are not blank and are their own
    upper case. *)
Definition imagem_fixa (u : pystr) : bool :=
  forallb (fun x => negb (is_space x) && pystr_eqb (toupper_full x) [x]) u.

(** The code points a run of the table maps to. *)
Definition alvos_do_run (e : N * N * N * N) : list N :=
  let '(lo, hi, step, up) := e in
  map (fun k => (up + N.of_nat k * step)%N) (seq 0 (S (N.to_nat ((hi - lo) / step)))).

Definition run_fixo (e : N * N * N * N) : bool :=
  let '(_, _, step, _) := e in
  (0 <? step)%N && imagem_fixa (alvos_do_run e).

(** A string that neither starts nor ends with a blank. *)
Definition aparado (s : pystr) : Prop :=
  s = [] \/
  ((exists c r, s = c :: r /\ is_space c = false) /\
   (exists r d, s = r ++ [d] /\ is_space d = false)).

(** The value of a character of the base64 alphabet. *)
Definition b64_valor (c : N) : option N :=
  (if (65 <=? c) && (c <=? 90) then Some (c - 65)
   else if (97 <=? c) && (c <=? 122) then Some (c - 71)
   else if (48 <=? c) && (c <=? 57) then Some (c + 4)
   else if c =? 43 then Some 62
   else if c =? 47 then Some 63
   else None)%N.

(** Reading base64 back: groups of four characters, the last one possibly
    padded with [=]. *)
Fixpoint b64decode_N (cs : list N) : option (list N) :=
  match cs with
  | [] => Some []
  | c1 :: c2 :: c3 :: c4 :: cs' =>
      match b64_valor c1, b64_valor c2 with
      | Some v1, Some v2 =>
          if (c3 =? 61)%N then
            match (c4 =? 61)%N, cs' with
            | true, [] => Some [v1 * 4 + v2 / 16]%N
            | _, _ => None
            end
          else
            match b64_valor c3 with
            | Some v3 =>
                if (c4 =? 61)%N then
                  match cs' with
                  | [] => Some [v1 * 4 + v2 / 16; v2 mod 16 * 16 + v3 / 4]%N
                  | _ => None
                  end
                else
                  match b64_valor c4, b64decode_N cs' with
                  | Some v4, Some bs =>
                      Some (v1 * 4 + v2 / 16 :: v2 mod 16 * 16 + v3 / 4
                            :: v3 mod 4 * 64 + v4 :: bs)%N
                  | _, _ => None
                  end
            | None => None
            end
      | _, _ => None
      end
  | _ => None
  end.

(** * Properties *)

(** ** Lists *)

Section Subseq.
Context {A : Type}.
Implicit Types l : list A.

Lemma subseq_refl l : subseq l l.
Proof. induction l; [constructor | now apply subseq_take]. Qed.

Lemma subseq_nil_l l : subseq [] l.
Proof. induction l; [constructor | now apply subseq_skip]. Qed.

Lemma subseq_app l1 l2 l3 l4 :
  subseq l1 l2 -> subseq l3 l4 -> subseq (l1 ++ l3) (l2 ++ l4).
Proof.
  intros H12 H34. induction H12; simpl.
  - assumption.
  - now apply subseq_skip.
  - now apply subseq_take.
Qed.

Lemma subseq_trans l1 l2 l3 : subseq l1 l2 -> subseq l2 l3 -> subseq l1 l3.
Proof.
  intros H12 H23. revert l1 H12.
  induction H23; intros k Hk.
  - assumption.
  - apply subseq_skip. now apply IHsubseq.
  - inversion Hk; subst.
    + apply subseq_skip. now apply IHsubseq.
    + apply subseq_take. now apply IHsubseq.
Qed.

Lemma subseq_app_r l1 l2 l : subseq l1 l2 -> subseq l1 (l ++ l2).
Proof. intros H. induction l; simpl; [assumption | now apply subseq_skip]. Qed.

Lemma subseq_app_l l1 l2 l : subseq l1 l2 -> subseq l1 (l2 ++ l).
Proof.
  intros H. rewrite <- (app_nil_r l1).
  apply subseq_app; [assumption | apply subseq_nil_l].
Qed.

Lemma subseq_mid l l1 l2 x : subseq l (l1 ++ l2) -> subseq l (l1 ++ x :: l2).
Proof.
  revert l. induction l1 as [|y l1 IH]; simpl; intros l H.
  - now apply subseq_skip.
  - inversion H; subst.
    + apply subseq_skip. now apply IH.
    + apply subseq_take. now apply IH.
Qed.

Lemma subseq_filter (p : A -> bool) l : subseq (filter p l) l.
Proof.
  induction l as [|x l IH]; simpl; [constructor|].
  destruct (p x); [now apply subseq_take | now apply subseq_skip].
Qed.

Lemma subseq_rev l1 l2 : subseq l1 l2 -> subseq (rev l1) (rev l2).
Proof.
  intros H. induction H as [|x k1 k2 H IH|x k1 k2 H IH]; simpl.
  - constructor.
  - apply subseq_app_l. exact IH.
  - apply subseq_app; [exact IH | apply subseq_refl].
Qed.

Lemma subseq_length l1 l2 : subseq l1 l2 -> List.length l1 <= List.length l2.
Proof. intros H. induction H; simpl; lia. Qed.
End Subseq.

Lemma subseq_dropwhile p s : subseq (dropwhile p s) s.
Proof.
  induction s as [|c s IH]; simpl; [constructor|].
  destruct (p c); [now apply subseq_skip | apply subseq_refl].
Qed.

Lemma subseq_strip s : subseq (str_strip s) s.
Proof.
  unfold str_strip.
  apply subseq_trans with (l2 := dropwhile is_space s); [|apply subseq_dropwhile].
  rewrite <- (rev_involutive (dropwhile is_space s)) at 2.
  apply subseq_rev, subseq_dropwhile.
Qed.

Lemma dropwhile_last p s c : p c = false -> dropwhile p (s ++ [c]) = dropwhile p s ++ [c].
Proof.
  intros Hc. induction s as [|d s IH]; simpl.
  - now rewrite Hc.
  - destruct (p d); [assumption | reflexivity].
Qed.

Lemma filter_all {A} (p : A -> bool) (l : list A) : forallb p l = true -> filter p l = l.
Proof.
  induction l as [|x l IH]; simpl; [reflexivity|].
  intros H. apply andb_true_iff in H as [Hx Hl]. rewrite Hx. f_equal. now apply IH.
Qed.

Lemma filter_none {A} (p : A -> bool) (l : list A) :
  forallb (fun x => negb (p x)) l = true -> filter p l = [].
Proof.
  induction l as [|x l IH]; simpl; [reflexivity|].
  intros H. apply andb_true_iff in H as [Hx Hl].
  apply negb_true_iff in Hx. rewrite Hx. now apply IH.
Qed.

Lemma forallb_filter_id {A} (p : A -> bool) (l : list A) : forallb p (filter p l) = true.
Proof.
  induction l as [|x l IH]; simpl; [reflexivity|].
  destruct (p x) eqn:Hx; simpl; [now rewrite Hx|assumption].
Qed.

(** ** Character classes *)

Lemma ascii_digit_is_decimal c : is_ascii_digit c = true -> is_decimal c = true.
Proof.
  unfold is_ascii_digit, is_decimal, decimal_ranges, in_ranges. intros H.
  cbn [existsb fst snd]. apply orb_true_iff. left.
  apply andb_true_iff in H as [H1 H2].
  apply N.leb_le in H1, H2. apply andb_true_iff. split; apply N.leb_le; lia.
Qed.

Lemma in_ranges_bounds rs c :
  in_ranges rs c = true -> exists r, In r rs /\ (fst r <= c <= snd r)%N.
Proof.
  unfold in_ranges. intros H. apply existsb_exists in H as (r & Hr & Hc).
  exists r. split; [assumption|].
  apply andb_true_iff in Hc as [H1 H2]. apply N.leb_le in H1, H2. lia.
Qed.

Lemma forallb_ascii_decimal s :
  forallb is_ascii_digit s = true -> forallb is_decimal s = true.
Proof.
  induction s as [|c s IH]; simpl; [reflexivity|].
  intros H. apply andb_true_iff in H as [Hc Hs].
  now rewrite (ascii_digit_is_decimal _ Hc), IH.
Qed.

(** ** [re.sub] and [re.split] *)

Lemma str_join_nil l : str_join [] l = concat l.
Proof.
  induction l as [|x l IH]; [reflexivity|].
  destruct l as [|y l].
  - simpl. now rewrite app_nil_r.
  - change (str_join [] (x :: y :: l)) with (x ++ [] ++ str_join [] (y :: l)).
    now rewrite IH.
Qed.

(** Substituting nothing for one class of characters keeps exactly the
    other characters. *)
Lemma match_here_class p c s :
  match_here (Class p) false (c :: s) = if p c then Some 1 else None.
Proof. unfold match_here. simpl. now destruct (p c). Qed.

Lemma split_scan_class p seg s :
  concat (split_scan (Class p) 0 seg s) = rev seg ++ filter (fun c => negb (p c)) s.
Proof.
  revert seg. induction s as [|c s IH]; intros seg.
  - simpl. now rewrite !app_nil_r.
  - cbn [split_scan filter]. rewrite match_here_class. destruct (p c); cbn [negb concat].
    + now rewrite IH.
    + rewrite IH. cbn [rev]. now rewrite <- app_assoc.
Qed.

Lemma re_sub_class p s :
  re_sub (Class p) [] s = filter (fun c => negb (p c)) s.
Proof.
  unfold re_sub, re_split. rewrite str_join_nil. apply split_scan_class.
Qed.

Lemma re_sub_nao_digito s : re_sub nao_digito [] s = filter is_decimal s.
Proof.
  unfold nao_digito. rewrite re_sub_class.
  apply filter_ext. intros c. apply negb_involutive.
Qed.

Lemma countdown_ge lo k n : In n (countdown lo k) -> lo <= n.
Proof.
  induction k as [|k IH]; simpl; intros [<-|H]; try lia. now apply IH.
Qed.

Lemma matches_cat_class r1 p r2 s n :
  In n (matches (Cat r1 (Cat (Class p) r2)) s) -> 0 < n.
Proof.
  cbn [matches]. intros H.
  apply in_flat_map in H as (n1 & _ & H). apply in_map_iff in H as (n2 & <- & H).
  apply in_flat_map in H as (n3 & H3 & H). apply in_map_iff in H as (n4 & <- & _).
  destruct (skipn n1 s) as [|c rest]; [contradiction|].
  destruct (p c); [|contradiction]. destruct H3 as [<-|[]]. lia.
Qed.

(** Every separator of the phone splitter consumes at least one character,
    so that no split of the source happens at an empty match. *)
Lemma separadores_nao_vazios sep s n :
  In sep separadores -> In n (matches sep s) -> 0 < n.
Proof.
  intros [<-|[<-|[<-|[]]]].
  - apply matches_cat_class.
  - apply matches_cat_class.
  - unfold sep_espaco, plus. cbn [matches]. intros H.
    apply in_flat_map in H as (n1 & H1 & H). apply in_map_iff in H as (n2 & <- & _).
    destruct (1 <=? prefix_len is_space s); [|contradiction].
    apply countdown_ge in H1. lia.
Qed.

(** The pieces of a split, one after another, can be read off the string
    from left to right, whatever the pattern. *)
Lemma split_scan_subseq r s : forall skip seg,
  subseq (concat (split_scan r skip seg s)) (rev seg ++ s).
Proof.
  induction s as [|c s IH]; intros skip seg.
  - assert (Hseg : subseq (rev seg ++ []) (rev seg ++ [])) by apply subseq_refl.
    destruct skip as [|k]; cbn [split_scan]; [|exact Hseg].
    destruct (match_here r false []) as [[|k]|]; cbn [concat]; try exact Hseg.
    destruct (match_here r true []) as [n|]; [destruct n|]; exact Hseg.
  - destruct skip as [|k]; cbn [split_scan].
    + destruct (match_here r false (c :: s)) as [[|k]|]; cbn [concat].
      * apply subseq_app; [apply subseq_refl|].
        destruct (match_here r true (c :: s)) as [[|k]|]; cbn [concat app].
        -- apply subseq_nil_l.
        -- apply subseq_skip. apply (IH k []).
        -- apply (IH 0 [c]).
      * apply subseq_app; [apply subseq_refl|].
        apply subseq_skip. apply (IH k []).
      * specialize (IH 0 (c :: seg)). cbn [rev] in IH.
        now rewrite <- app_assoc in IH.
    + apply subseq_mid. apply IH.
Qed.

Lemma re_split_subseq r s : subseq (concat (re_split r s)) s.
Proof. apply (split_scan_subseq r s 0 []). Qed.

Lemma passo_subseq sep tels : subseq (concat (passo tels sep)) (concat tels).
Proof.
  unfold passo. induction tels as [|t tels IH]; simpl; [constructor|].
  rewrite concat_app. apply subseq_app; [apply re_split_subseq | exact IH].
Qed.

Lemma passos_subseq seps : forall tels,
  subseq (concat (fold_left passo seps tels)) (concat tels).
Proof.
  induction seps as [|sep seps IH]; intros tels; simpl.
  - apply subseq_refl.
  - eapply subseq_trans; [apply IH | apply passo_subseq].
Qed.

(** ** [str] of an integer *)

Lemma lit_cons a s : lit (String a s) = N_of_ascii a :: lit s.
Proof. reflexivity. Qed.

Lemma string_of_uint_digits d :
  forallb is_ascii_digit (lit (NilEmpty.string_of_uint d)) = true.
Proof.
  induction d; cbn [NilEmpty.string_of_uint]; rewrite ?lit_cons;
    try reflexivity; cbn [forallb]; rewrite IHd; reflexivity.
Qed.

(** A non-negative integer prints as ASCII digits only. *)
Lemma str_of_Z_digits z : (0 <= z)%Z -> forallb is_ascii_digit (str_of_Z z) = true.
Proof.
  intros Hz. unfold str_of_Z. destruct z as [|p|p]; [reflexivity| |lia].
  apply string_of_uint_digits.
Qed.

(** A negative integer prints as [-] and the digits of its absolute value. *)
Lemma str_of_Z_neg p : str_of_Z (Zneg p) = chr "-" :: str_of_Z (Zpos p).
Proof. reflexivity. Qed.

Lemma str_of_Z_decimal z : filter is_decimal (str_of_Z z) = str_of_Z (Z.abs z).
Proof.
  destruct z as [|p|p].
  - reflexivity.
  - apply filter_all, forallb_ascii_decimal, str_of_Z_digits. lia.
  - rewrite str_of_Z_neg. cbn [filter Z.abs].
    change (is_decimal (chr "-")) with false. cbv iota.
    apply filter_all, forallb_ascii_decimal, str_of_Z_digits. lia.
Qed.

(** ** The identifier normaliser *)

Lemma skipn_repeat {A} (x : A) n k : skipn n (repeat x k) = repeat x (k - n).
Proof.
  revert n. induction k as [|k IH]; intros [|n]; simpl; try reflexivity.
  apply IH.
Qed.

Lemma forallb_skipn {A} (p : A -> bool) n l :
  forallb p l = true -> forallb p (skipn n l) = true.
Proof.
  revert n. induction l as [|x l IH]; intros [|n]; simpl; try reflexivity.
  - intros H; exact H.
  - intros H. apply andb_true_iff in H as [_ H]. now apply IH.
Qed.

Lemma ultimos_length {A} n (l : list A) : n <= length l -> length (ultimos n l) = n.
Proof. intros H. unfold ultimos. rewrite length_skipn. lia. Qed.

Lemma onze_zeros : lit "00000000000" = repeat 48%N 11.
Proof. reflexivity. Qed.

(** Left padding: a digit string of at most eleven characters is filled up
    with zeros on the left. *)
Lemma ultimos_pad (d : pystr) :
  length d <= 11 -> ultimos 11 (repeat 48%N 11 ++ d) = repeat 48%N (11 - length d) ++ d.
Proof.
  intros H. unfold ultimos. rewrite length_app, repeat_length.
  replace (11 + length d - 11) with (length d) by lia.
  rewrite skipn_app, skipn_repeat, repeat_length.
  replace (length d - 11) with 0 by lia. reflexivity.
Qed.

(** Truncation: of a longer digit string the rightmost eleven are kept. *)
Lemma ultimos_trunc (d : pystr) :
  11 <= length d -> ultimos 11 (repeat 48%N 11 ++ d) = ultimos 11 d.
Proof.
  intros H. unfold ultimos. rewrite length_app, repeat_length.
  replace (11 + length d - 11) with (length d) by lia.
  rewrite skipn_app, skipn_repeat, repeat_length.
  replace (11 - length d) with 0 by lia. reflexivity.
Qed.

Lemma limpa_cpf_vazio v : vazio v = true -> limpa_cpf_google_sheets v = [].
Proof. unfold vazio, limpa_cpf_google_sheets. now intros ->. Qed.

Lemma limpa_cpf_digitos v :
  vazio v = false ->
  limpa_cpf_google_sheets v = ultimos 11 (repeat 48%N 11 ++ filter is_decimal (py_str v)).
Proof.
  unfold vazio, limpa_cpf_google_sheets. intros ->.
  now rewrite re_sub_nao_digito, onze_zeros.
Qed.

Lemma forallb_pad p (d : pystr) :
  p 48%N = true -> forallb p d = true ->
  forallb p (ultimos 11 (repeat 48%N 11 ++ d)) = true.
Proof.
  intros H0 Hd. unfold ultimos. apply forallb_skipn.
  rewrite forallb_app, Hd, andb_true_r.
  apply forallb_forall. intros x Hx. apply repeat_spec in Hx. now subst.
Qed.

(** Below U+0100 the only decimal digits are the ASCII ones: a table that
    was decoded as Latin-1, the first encoding the application tries, has
    no other digit. *)
Lemma decimal_latin1 c : is_decimal c = true -> (c < 256)%N -> is_ascii_digit c = true.
Proof.
  intros Hd Hc. apply in_ranges_bounds in Hd as (r & Hr & Hb).
  unfold decimal_ranges in Hr. cbn [In] in Hr.
  destruct Hr as [<-|Hr].
  - unfold is_ascii_digit. cbn [fst snd] in Hb.
    apply andb_true_iff. split; apply N.leb_le; lia.
  - exfalso.
    repeat (destruct Hr as [<-|Hr]; [cbn [fst snd] in Hb; lia|]). exact Hr.
Qed.

Lemma limpa_cpf_latin1 v :
  Forall (fun c => (c < 256)%N) (py_str v) ->
  forallb is_ascii_digit (limpa_cpf_google_sheets v) = true.
Proof.
  intros Hlatin. destruct (vazio v) eqn:Hv.
  - now rewrite (limpa_cpf_vazio _ Hv).
  - rewrite (limpa_cpf_digitos _ Hv). apply forallb_pad; [reflexivity|].
    apply forallb_forall. intros c Hc. apply filter_In in Hc as [Hin Hd].
    apply (decimal_latin1 Hd). now apply (proj1 (Forall_forall _ _) Hlatin).
Qed.

(** The identifier normaliser on every value.  A missing or empty value
    gives the empty string.  Every other value gives exactly eleven
    characters, each a decimal digit in the sense of [\d]: the digits of
    the text of the value, padded with ['0'] on the left up to eleven, or
    cut to the rightmost eleven when there are more.  They are ASCII digits
    whenever the digits of the text are.
    [limpa_cpf_google_sheets("123")] is ["00000000123"] and
    [limpa_cpf_google_sheets("")] is [""]. *)
Lemma limpa_cpf_onze_digitos (v : pyval) :
  (vazio v = true -> limpa_cpf_google_sheets v = []) /\
  (vazio v = false ->
   let digitos := filter is_decimal (py_str v) in
   limpa_cpf_google_sheets v = ultimos 11 (repeat 48%N 11 ++ digitos) /\
   length (limpa_cpf_google_sheets v) = 11 /\
   forallb is_decimal (limpa_cpf_google_sheets v) = true /\
   (length digitos <= 11 ->
    limpa_cpf_google_sheets v = repeat 48%N (11 - length digitos) ++ digitos) /\
   (11 <= length digitos -> limpa_cpf_google_sheets v = ultimos 11 digitos) /\
   (forallb is_ascii_digit digitos = true ->
    forallb is_ascii_digit (limpa_cpf_google_sheets v) = true)) /\
  limpa_cpf_google_sheets (PyStr (lit "123")) = lit "00000000123" /\
  limpa_cpf_google_sheets (PyStr (lit "")) = lit "".
Proof.
  split; [apply limpa_cpf_vazio|]. split; [|split; reflexivity].
  intros Hv digitos. rewrite (limpa_cpf_digitos _ Hv). fold digitos.
  repeat split.
  - apply ultimos_length. rewrite length_app, repeat_length. lia.
  - apply forallb_pad; [reflexivity | apply forallb_filter_id].
  - apply ultimos_pad.
  - apply ultimos_trunc.
  - intros Hd. now apply forallb_pad.
Qed.

Lemma limpa_cpf_onze_digitos_witness :
  limpa_cpf_google_sheets (PyInt 12345678901234) = lit "45678901234".
Proof.
  destruct (limpa_cpf_onze_digitos (PyInt 12345678901234)) as (_ & H & _).
  destruct (H eq_refl) as (_ & _ & _ & _ & Htrunc & _).
  rewrite Htrunc; [reflexivity | vm_compute; lia].
Defined.

(** C3 fails in the code.  The docstring gives the spreadsheet formula
    that the function is to replicate exactly; the [REGEXREPLACE] of the
    formula keeps the digits 0 to 9 only.  In the code the pattern [[^\d]]
    is a [str] pattern, for which [\d] is every Unicode decimal digit: the
    text of one Arabic-Indic digit three (U+0663) is neither missing nor
    empty, [\d] matches it, and the result is ten zeros followed by that
    character, which is not an ASCII digit, where eleven zeros were to
    come out. *)
Theorem limpa_cpf_nao_ascii :
  vazio (PyStr [0x663%N]) = false /\
  limpa_cpf_google_sheets (PyStr [0x663%N]) = lit "0000000000" ++ [0x663%N] /\
  forallb is_ascii_digit (limpa_cpf_google_sheets (PyStr [0x663%N])) = false /\
  limpa_cpf_google_sheets (PyStr [0x663%N]) <> lit "00000000000".
Proof. repeat split. discriminate. Qed.

(** C10.  A value that is neither missing nor the empty string and whose
    text has no digit character is normalised to eleven zeros, not to the
    empty string. *)
Theorem limpa_cpf_sem_digitos (v : pyval) :
  pd_isna v = false -> eq_vazio v = false ->
  forallb (fun c => negb (is_decimal c)) (py_str v) = true ->
  limpa_cpf_google_sheets v = lit "00000000000" /\ limpa_cpf_google_sheets v <> [].
Proof.
  intros Hna Hev Hnd.
  assert (H : limpa_cpf_google_sheets v = lit "00000000000").
  { rewrite limpa_cpf_digitos by (unfold vazio; now rewrite Hna, Hev).
    now rewrite (filter_none _ _ Hnd). }
  split; [exact H | rewrite H; discriminate].
Qed.

Lemma limpa_cpf_sem_digitos_witness :
  limpa_cpf_google_sheets (PyStr (lit "abc")) = lit "00000000000" /\
  limpa_cpf_google_sheets (PyStr (lit "abc")) <> [].
Proof.
  apply (limpa_cpf_sem_digitos (PyStr (lit "abc"))); reflexivity.
Defined.

(** The identifier of an integer: the digits of its absolute value,
    right-aligned in eleven characters. *)
Lemma limpa_cpf_int z :
  limpa_cpf_google_sheets (PyInt z) = ultimos 11 (repeat 48%N 11 ++ str_of_Z (Z.abs z)).
Proof.
  rewrite limpa_cpf_digitos by reflexivity. cbn [py_str]. now rewrite str_of_Z_decimal.
Qed.

(** C2 (the code at the failing inputs).  An integer is printed with its
    decimal digits, so the integer 12345678901234 gives ["45678901234"].
    A float is printed by [str] as well: 12345678901234.0 prints as
    ["12345678901234.0"] and gives ["56789012340"], and 1e16 prints in
    exponent notation as ["1e+16"] and gives ["00000000116"]. *)
Theorem limpa_cpf_numero :
  (forall z, limpa_cpf_google_sheets (PyInt z)
             = ultimos 11 (repeat 48%N 11 ++ str_of_Z (Z.abs z))) /\
  limpa_cpf_google_sheets (PyInt 12345678901234) = lit "45678901234" /\
  py_str (PyFloat (float_of_Z 12345678901234)) = lit "12345678901234.0" /\
  limpa_cpf_google_sheets (PyFloat (float_of_Z 12345678901234)) = lit "56789012340" /\
  py_str (PyFloat (float_of_Z (10 ^ 16))) = lit "1e+16" /\
  limpa_cpf_google_sheets (PyFloat (float_of_Z (10 ^ 16))) = lit "00000000116".
Proof.
  split; [exact limpa_cpf_int|]. repeat split; vm_compute; reflexivity.
Qed.

(** ** The phone splitter *)

Lemma space_not_decimal c : is_space c = true -> is_decimal c = false.
Proof.
  intros Hs. destruct (is_decimal c) eqn:Hd; [exfalso|reflexivity].
  apply in_ranges_bounds in Hs as (r & Hr & Hrc).
  apply in_ranges_bounds in Hd as (d & Hd & Hdc).
  assert (Hdisj : forallb (fun r => forallb (fun d => (snd r <? fst d)%N || (snd d <? fst r)%N)
                                       decimal_ranges) space_ranges = true)
    by (vm_compute; reflexivity).
  pose proof (proj1 (forallb_forall _ _) Hdisj r Hr) as H1. cbv beta in H1.
  pose proof (proj1 (forallb_forall _ _) H1 d Hd) as H2. cbv beta in H2.
  apply orb_true_iff in H2 as [H2|H2]; apply N.ltb_lt in H2; lia.
Qed.

Lemma filter_dropwhile (p q : N -> bool) s :
  (forall c, p c = true -> q c = false) -> filter q (dropwhile p s) = filter q s.
Proof.
  intros Hpq. induction s as [|c s IH]; simpl; [reflexivity|].
  destruct (p c) eqn:Hc; [|reflexivity].
  now rewrite (Hpq _ Hc).
Qed.

Lemma filter_strip s : filter is_decimal (str_strip s) = filter is_decimal s.
Proof.
  unfold str_strip.
  rewrite filter_rev, (@filter_dropwhile is_space is_decimal _ space_not_decimal), filter_rev.
  rewrite (@filter_dropwhile is_space is_decimal _ space_not_decimal). apply rev_involutive.
Qed.

(** The digits of a fragment. *)
Lemma limpar_telefone_digitos tel :
  limpar_telefone tel =
  if 8 <=? length (filter is_decimal tel) then [filter is_decimal tel] else [].
Proof. unfold limpar_telefone. now rewrite re_sub_nao_digito, filter_strip. Qed.

Lemma limpar_telefones_filter tels :
  flat_map limpar_telefone tels =
  map (filter is_decimal) (filter (fun t => 8 <=? length (filter is_decimal t)) tels).
Proof.
  induction tels as [|t tels IH]; cbn [flat_map filter]; [reflexivity|].
  rewrite limpar_telefone_digitos, IH.
  now destruct (8 <=? length (filter is_decimal t)).
Qed.

Lemma limpar_telefones_subseq tels :
  subseq (concat (flat_map limpar_telefone tels)) (concat tels).
Proof.
  induction tels as [|t tels IH]; simpl; [constructor|].
  rewrite concat_app. apply subseq_app; [|exact IH].
  rewrite limpar_telefone_digitos.
  destruct (8 <=? length (filter is_decimal t)); simpl.
  - rewrite app_nil_r. apply subseq_filter.
  - apply subseq_nil_l.
Qed.

Lemma separar_vazio v : vazio v = true -> separar_telefones_multiplos v = [].
Proof. unfold vazio, separar_telefones_multiplos. now intros ->. Qed.

Lemma separar_fragmentos v :
  vazio v = false ->
  separar_telefones_multiplos v =
  flat_map limpar_telefone (fold_left passo separadores [py_str v]).
Proof. unfold vazio, separar_telefones_multiplos. now intros ->. Qed.

Lemma subseq_In {A} (l1 l2 : list A) x : subseq l1 l2 -> In x l1 -> In x l2.
Proof.
  intros H. induction H as [|y k1 k2 H IH|y k1 k2 H IH]; simpl; intuition.
Qed.

Lemma separar_subseq v : subseq (concat (separar_telefones_multiplos v)) (py_str v).
Proof.
  destruct (vazio v) eqn:Hv.
  - rewrite (separar_vazio _ Hv). apply subseq_nil_l.
  - rewrite (separar_fragmentos _ Hv).
    eapply subseq_trans; [apply limpar_telefones_subseq|].
    eapply subseq_trans; [apply passos_subseq|].
    simpl. rewrite app_nil_r. apply subseq_refl.
Qed.

Lemma separar_digitos v tel :
  In tel (separar_telefones_multiplos v) ->
  forallb is_decimal tel = true /\ 8 <= length tel.
Proof.
  destruct (vazio v) eqn:Hv.
  - now rewrite (separar_vazio _ Hv).
  - rewrite (separar_fragmentos _ Hv), limpar_telefones_filter.
    intros H. apply in_map_iff in H as (t & <- & Ht).
    apply filter_In in Ht as [_ Ht]. apply Nat.leb_le in Ht.
    split; [apply forallb_filter_id | exact Ht].
Qed.

(** C8 (as the code has it).  A missing or empty value gives the empty
    sequence.  Otherwise the result holds, in their order, the digits of
    the fragments that have at least eight of them; fragments with fewer
    are discarded.  Every element consists of decimal digits in the sense of
    [\d] only (ASCII digits whenever the digits of the text are), has at
    least eight of them, and the elements one after another can be read off
    the text from left to right.  [separar_telefones_multiplos("abc")] and
    [separar_telefones_multiplos(None)] are [[]]. *)
Theorem separar_telefones_ordenados (v : pyval) :
  (vazio v = true -> separar_telefones_multiplos v = []) /\
  (vazio v = false ->
   separar_telefones_multiplos v =
   map (filter is_decimal)
       (filter (fun t => 8 <=? length (filter is_decimal t))
               (fold_left passo separadores [py_str v]))) /\
  Forall (fun tel => forallb is_decimal tel = true /\ 8 <= length tel)
         (separar_telefones_multiplos v) /\
  subseq (concat (separar_telefones_multiplos v)) (py_str v) /\
  (forallb is_ascii_digit (filter is_decimal (py_str v)) = true ->
   Forall (fun tel => forallb is_ascii_digit tel = true) (separar_telefones_multiplos v)) /\
  separar_telefones_multiplos (PyStr (lit "abc")) = [] /\
  separar_telefones_multiplos PyNone = [].
Proof.
  split; [apply separar_vazio|].
  split; [intros Hv; rewrite (separar_fragmentos _ Hv); apply limpar_telefones_filter|].
  split; [apply Forall_forall; intros tel; apply separar_digitos|].
  split; [apply separar_subseq|].
  split; [|split; reflexivity].
  intros Hascii. apply Forall_forall. intros tel Htel.
  apply forallb_forall. intros c Hc.
  apply (proj1 (forallb_forall _ _) Hascii). apply filter_In. split.
  - apply (@subseq_In _ _ _ c (separar_subseq v)). apply in_concat. now exists tel.
  - destruct (separar_digitos _ _ Htel) as [Hd _].
    now apply (proj1 (forallb_forall _ _) Hd).
Qed.

Lemma separar_telefones_ordenados_witness :
  separar_telefones_multiplos (PyStr (lit "11988887777, 1133334444"))
  = [lit "11988887777"; lit "1133334444"] /\
  Forall (fun tel => forallb is_ascii_digit tel = true)
         (separar_telefones_multiplos (PyStr (lit "11988887777, 1133334444"))).
Proof.
  destruct (separar_telefones_ordenados (PyStr (lit "11988887777, 1133334444")))
    as (_ & Heq & _ & _ & Hascii & _).
  split; [rewrite (Heq eq_refl); vm_compute; reflexivity | apply Hascii; reflexivity].
Defined.

(** C8, as stated, fails: eight Arabic-Indic digits (U+0661) are kept as
    one phone number, and its characters are not ASCII digits. *)
Lemma separar_telefones_nao_ascii :
  vazio (PyStr (repeat 0x661%N 8)) = false /\
  separar_telefones_multiplos (PyStr (repeat 0x661%N 8)) = [repeat 0x661%N 8] /\
  forallb is_ascii_digit (repeat 0x661%N 8) = false.
Proof. repeat split. Qed.

(** C1 (the code at the failing input).  The punctuation pass cuts the text
    at the semicolon; the hyphen pass then cuts each of the two numbers at
    its hyphen, because a digit follows it; no fragment has eight digits and
    the result is empty. *)
Theorem separar_telefones_hifen :
  re_split sep_pontuacao (lit "11 98888-7777; 11 97777-6666")
  = [lit "11 98888-7777"; lit "11 97777-6666"] /\
  re_split sep_hifen (lit "11 98888-7777") = [lit "11 98888"; lit "7777"] /\
  fold_left passo separadores [lit "11 98888-7777; 11 97777-6666"]
  = [lit "11 98888"; lit "7777"; lit "11 97777"; lit "6666"] /\
  separar_telefones_multiplos (PyStr (lit "11 98888-7777; 11 97777-6666")) = [].
Proof. repeat split; vm_compute; reflexivity. Qed.

(** ** The name normaliser *)

Lemma dropwhile_head p c s : p c = false -> dropwhile p (c :: s) = c :: s.
Proof. intros H. simpl. now rewrite H. Qed.

Lemma forallb_rev {A} (p : A -> bool) l : forallb p l = true -> forallb p (rev l) = true.
Proof.
  intros H. apply forallb_forall. intros x Hx. apply in_rev in Hx.
  now apply (proj1 (forallb_forall _ _) H).
Qed.

Lemma dropwhile_none p s :
  forallb (fun c => negb (p c)) s = true -> dropwhile p s = s.
Proof.
  destruct s as [|c s]; [reflexivity|]. simpl. intros H.
  apply andb_true_iff in H as [Hc _]. apply negb_true_iff in Hc. now rewrite Hc.
Qed.

(** A string without blanks is its own [strip]. *)
Lemma strip_token t :
  forallb (fun c => negb (is_space c)) t = true -> str_strip t = t.
Proof.
  intros H. unfold str_strip.
  rewrite (dropwhile_none _ _ H), (dropwhile_none _ _ (forallb_rev _ _ H)).
  apply rev_involutive.
Qed.

(** A stripped string is empty or starts with a non-blank character. *)
Lemma strip_head s :
  str_strip s = [] \/ exists c r, str_strip s = c :: r /\ is_space c = false.
Proof.
  unfold str_strip.
  assert (Hd : dropwhile is_space s = [] \/
               exists c r, dropwhile is_space s = c :: r /\ is_space c = false).
  { induction s as [|c s IH]; simpl; [now left|].
    destruct (is_space c) eqn:Hc; [exact IH|]. right. now exists c, s. }
  destruct Hd as [-> | (c & r & -> & Hc)]; [now left|]. right.
  cbn [rev]. rewrite (dropwhile_last _ _ _ Hc), rev_app_distr. cbn [rev app].
  now exists c, (rev (dropwhile is_space (rev r))).
Qed.

Lemma tables_ok :
  forallb special_ok upper_special = true /\ forallb run_ok upper_runs = true.
Proof. split; vm_compute; reflexivity. Qed.

(** The upper case of a non-blank character is not empty and starts with a
    non-blank character. *)
Lemma toupper_sane c :
  is_space c = false -> exists u us, toupper_full c = u :: us /\ is_space u = false.
Proof.
  intros Hc. unfold toupper_full.
  destruct (find _ upper_special) as [[k u]|] eqn:Hs.
  - apply find_some in Hs as [Hin _].
    pose proof (proj1 (forallb_forall _ _) (proj1 tables_ok) _ Hin) as Hok.
    unfold special_ok in Hok. cbn [snd] in Hok.
    destruct u as [|u us]; [discriminate|].
    exists u, us. split; [reflexivity | now apply negb_true_iff].
  - destruct (find (in_run c) upper_runs) as [[[[lo hi] step] up]|] eqn:Hr.
    + eexists _, []. split; [reflexivity|].
      apply find_some in Hr as [Hin Hrun].
      pose proof (proj1 (forallb_forall _ _) (proj2 tables_ok) _ Hin) as Hok.
      unfold run_ok in Hok. unfold in_run in Hrun.
      apply andb_true_iff in Hrun as [Hrun _].
      apply andb_true_iff in Hrun as [Hlo Hhi]. apply N.leb_le in Hlo, Hhi.
      destruct (is_space (up + (c - lo))) eqn:Hsp; [exfalso|reflexivity].
      apply in_ranges_bounds in Hsp as (r & Hr & Hb).
      pose proof (proj1 (forallb_forall _ _) Hok r Hr) as H. cbv beta in H.
      apply orb_true_iff in H as [H|H]; apply N.ltb_lt in H; lia.
    + now exists c, [].
Qed.

Lemma split_ws_cur cur s : cur <> [] -> split_ws cur s <> [].
Proof.
  revert cur. induction s as [|c s IH]; intros cur Hcur; simpl.
  - destruct cur; [contradiction | discriminate].
  - destruct (is_space c).
    + destruct cur; [contradiction | discriminate].
    + apply IH. discriminate.
Qed.

(** A string without blanks that is not empty is its only token. *)
Lemma split_ws_token s : forall cur,
  forallb (fun c => negb (is_space c)) s = true ->
  rev cur ++ s <> [] -> split_ws cur s = [rev cur ++ s].
Proof.
  induction s as [|c s IH]; intros cur Hs Hne.
  - rewrite app_nil_r in *. simpl. destruct cur; [contradiction | reflexivity].
  - simpl in Hs. apply andb_true_iff in Hs as [Hc Hs]. apply negb_true_iff in Hc.
    simpl. rewrite Hc. rewrite (IH (c :: cur) Hs).
    + cbn [rev]. now rewrite <- app_assoc.
    + cbn [rev]. rewrite <- app_assoc. now destruct (rev cur).
Qed.

(** [nome_str.split()[0]] is only evaluated on a string with a token: on
    the values of [str_retorna] the name normaliser returns. *)
Lemma limpa_nome_ok nome primeiro : exists s, limpa_nome nome primeiro = Ok s.
Proof.
  unfold limpa_nome. destruct (pd_isna nome || eq_vazio nome); [now eexists|].
  destruct primeiro; [|now eexists].
  destruct (strip_head (py_str nome)) as [-> | (c & r & -> & Hc)]; [now eexists|].
  destruct (toupper_sane _ Hc) as (u & us & Hu & Hsp).
  cbn [str_upper flat_map]. rewrite Hu. cbn [app].
  unfold str_split. cbn [split_ws]. rewrite Hsp.
  destruct (split_ws [u] (us ++ flat_map toupper_full r)) as [|tok toks] eqn:Hsplit.
  - exfalso. revert Hsplit. apply split_ws_cur. discriminate.
  - now eexists.
Qed.

(** C6.  The normalisers leave their own output unchanged: a string of
    exactly eleven ASCII digits is its own identifier, and a single token
    (no blank in it) that is already upper-cased is its own first name. *)
Theorem normalizadores_idempotentes :
  (forall s, length s = 11 -> forallb is_ascii_digit s = true ->
             limpa_cpf_google_sheets (PyStr s) = s) /\
  (forall t, forallb (fun c => negb (is_space c)) t = true -> str_upper t = t ->
             limpa_nome (PyStr t) true = Ok t).
Proof.
  split.
  - intros s Hlen Hdig.
    rewrite limpa_cpf_digitos by (destruct s; [discriminate | reflexivity]).
    cbn [py_str]. rewrite (filter_all _ _ (forallb_ascii_decimal _ Hdig)).
    rewrite ultimos_trunc by lia. unfold ultimos. now rewrite Hlen.
  - intros t Hsp Hup. unfold limpa_nome. destruct t as [|c t]; [reflexivity|].
    cbn [pd_isna eq_vazio orb py_str]. rewrite (strip_token _ Hsp), Hup.
    unfold str_split. now rewrite (split_ws_token _ [] Hsp).
Qed.

Lemma normalizadores_idempotentes_witness :
  limpa_cpf_google_sheets (PyStr (lit "00012345678")) = lit "00012345678" /\
  limpa_nome (PyStr [0x4A; 0x4F; 0xC3; 0x4F]%N) true = Ok [0x4A; 0x4F; 0xC3; 0x4F]%N.
Proof.
  destruct normalizadores_idempotentes as [Hcpf Hnome]. split.
  - apply Hcpf; reflexivity.
  - apply Hnome; reflexivity.
Defined.

(** ** Keys of a record *)

Lemma pystr_eqb_eq a b : pystr_eqb a b = true <-> a = b.
Proof. unfold pystr_eqb. destruct (list_eq_dec N.eq_dec a b); split; congruence. Qed.

Lemma pystr_eqb_neq a b : a <> b -> pystr_eqb a b = false.
Proof. unfold pystr_eqb. destruct (list_eq_dec N.eq_dec a b); congruence. Qed.

Lemma lit_inj s1 s2 : lit s1 = lit s2 -> s1 = s2.
Proof.
  unfold lit. intros H.
  rewrite <- (string_of_list_ascii_of_string s1), <- (string_of_list_ascii_of_string s2).
  f_equal. revert H. generalize (list_ascii_of_string s1) (list_ascii_of_string s2).
  induction l as [|a l IH]; intros [|b k]; simpl; try discriminate; [reflexivity|].
  intros H. injection H as Hab Hlk. f_equal; [|now apply IH].
  now rewrite <- (ascii_N_embedding a), <- (ascii_N_embedding b), Hab.
Qed.

Lemma str_of_Z_inj a b : str_of_Z a = str_of_Z b -> a = b.
Proof.
  unfold str_of_Z. intros H. apply lit_inj in H.
  apply DecimalZ.to_int_inj.
  assert (Hs : Some (Z.to_int a) = Some (Z.to_int b))
    by (rewrite <- !NilEmpty.isi; now rewrite H).
  now injection Hs.
Qed.

Lemma chave_telefone_inj i j : chave_telefone i = chave_telefone j -> i = j.
Proof.
  unfold chave_telefone. intros H. apply app_inv_head in H.
  apply str_of_Z_inj in H. lia.
Qed.

Lemma chave_telefone_nome i : chave_telefone i <> lit "Nome".
Proof. discriminate. Qed.

Lemma chave_telefone_cpf i : chave_telefone i <> lit "CPF".
Proof. discriminate. Qed.

(** Setting a key that the record does not have adds it at the end. *)
Lemma dict_set_fresh d k v :
  (forall kv, In kv d -> fst kv <> k) -> dict_set d k v = d ++ [(k, v)].
Proof.
  induction d as [|[k' v'] d IH]; intros Hfresh; simpl; [reflexivity|].
  rewrite pystr_eqb_neq by (apply (Hfresh (k', v')); now left).
  rewrite IH; [reflexivity|]. intros kv Hkv. apply Hfresh. now right.
Qed.

Lemma por_telefones_fresh tels : forall d i,
  (forall kv j, In kv d -> i <= j -> fst kv <> chave_telefone j) ->
  por_telefones d i tels = d ++ combine (map chave_telefone (seq i (length tels))) tels.
Proof.
  induction tels as [|tel tels IH]; intros d i Hfresh; simpl.
  - now rewrite app_nil_r.
  - rewrite dict_set_fresh by (intros kv Hkv; now apply (Hfresh kv i)).
    rewrite IH.
    + now rewrite <- app_assoc.
    + intros kv j Hkv Hj. apply in_app_or in Hkv as [Hkv|[<-|[]]].
      * apply (Hfresh kv j Hkv). lia.
      * cbn [fst]. intros Heq. apply chave_telefone_inj in Heq. lia.
Qed.

(** The record of a row: the name, the identifier and the slots under the
    keys [DDD/Telefone 1], [DDD/Telefone 2], ... in this order. *)
Lemma por_telefones_registro nome cpf slots :
  por_telefones [(lit "Nome", nome); (lit "CPF", cpf)] 0 slots = registro_de nome cpf slots.
Proof.
  rewrite por_telefones_fresh; [reflexivity|].
  intros kv j [<-|[<-|[]]] _; cbn [fst]; intros H; symmetry in H; revert H.
  - apply chave_telefone_nome.
  - apply chave_telefone_cpf.
Qed.

Lemma map_fst_combine {A B} (l : list A) (k : list B) :
  length l = length k -> map fst (combine l k) = l.
Proof.
  revert k. induction l as [|x l IH]; intros [|y k]; simpl; try discriminate; [reflexivity|].
  intros H. f_equal. apply IH. lia.
Qed.

Lemma map_snd_combine {A B} (l : list A) (k : list B) :
  length l = length k -> map snd (combine l k) = k.
Proof.
  revert k. induction l as [|x l IH]; intros [|y k]; simpl; try discriminate; [reflexivity|].
  intros H. f_equal. apply IH. lia.
Qed.

Lemma registro_de_chaves nome cpf slots :
  map fst (registro_de nome cpf slots)
  = lit "Nome" :: lit "CPF" :: chaves_telefone (length slots).
Proof.
  unfold registro_de. cbn [map fst]. do 2 f_equal.
  apply map_fst_combine. unfold chaves_telefone. now rewrite length_map, length_seq.
Qed.

Lemma registro_de_valores nome cpf slots :
  map snd (registro_de nome cpf slots) = nome :: cpf :: slots.
Proof.
  unfold registro_de. cbn [map snd]. do 2 f_equal.
  apply map_snd_combine. unfold chaves_telefone. now rewrite length_map, length_seq.
Qed.

(** ** The record transformer *)

(** Reading a cell never raises: the guard [col < len(row)] keeps
    [row.iloc] in range, and a column outside the row reads as ['']. *)
Lemma celula_nth row col : celula row col = Ok (nth col row (PyStr [])).
Proof.
  unfold celula, iloc. destruct (col <? length row) eqn:Hlt.
  - apply Nat.ltb_lt in Hlt.
    now rewrite (nth_error_nth' row (PyStr []) Hlt).
  - apply Nat.ltb_ge in Hlt. now rewrite (nth_overflow row (PyStr []) Hlt).
Qed.

Lemma telefones_das_colunas_achados row cols : forall acc,
  telefones_das_colunas row cols acc = Ok (acc ++ telefones_achados row cols).
Proof.
  induction cols as [|col cols IH]; intros acc; simpl.
  - now rewrite app_nil_r.
  - unfold iloc. destruct (col <? length row) eqn:Hlt.
    + apply Nat.ltb_lt in Hlt.
      rewrite (nth_error_nth' row (PyStr []) Hlt). cbn [bind].
      now rewrite IH, <- app_assoc.
    + apply Nat.ltb_ge in Hlt. rewrite (nth_overflow row (PyStr []) Hlt).
      now rewrite IH.
Qed.

Lemma preencher_repeat falta : forall tels, preencher falta tels = tels ++ repeat [] falta.
Proof.
  induction falta as [|falta IH]; intros tels; simpl.
  - now rewrite app_nil_r.
  - now rewrite IH, <- app_assoc.
Qed.

Lemma telefones_da_linha_slots cfg row :
  telefones_da_linha cfg row = Ok (slots_da_linha cfg row).
Proof.
  unfold telefones_da_linha, slots_da_linha.
  rewrite telefones_das_colunas_achados. cbn [bind app].
  rewrite preencher_repeat, length_firstn. do 3 f_equal. lia.
Qed.

Lemma slots_da_linha_length cfg row : length (slots_da_linha cfg row) = max_telefones cfg.
Proof.
  unfold slots_da_linha. rewrite length_app, length_firstn, repeat_length. lia.
Qed.

Lemma algum_telefone_false tels : algum_telefone tels = false <-> Forall (eq []) tels.
Proof.
  unfold algum_telefone. induction tels as [|tel tels IH]; simpl.
  - split; [constructor | reflexivity].
  - destruct tel as [|c tel]; simpl.
    + rewrite IH. split; [now constructor | now inversion 1].
    + split; [discriminate | inversion 1; discriminate].
Qed.

(** The loop body, with the reads and the phone slots made explicit: the
    only step that could raise is the name normaliser. *)
Lemma processar_linha_eq cfg row :
  processar_linha cfg row =
  (nome_limpo <- limpa_nome (nth (nome_col cfg) row (PyStr [])) (apenas_primeiro_nome cfg) ;;
   if negb (remover_sem_telefone cfg) || algum_telefone (slots_da_linha cfg row)
   then Ok (Some (registro_de nome_limpo
                    (limpa_cpf_google_sheets (nth (cpf_col cfg) row (PyStr [])))
                    (slots_da_linha cfg row)))
   else Ok None).
Proof.
  unfold processar_linha. rewrite !celula_nth. cbn [bind].
  destruct (limpa_nome _ _) as [nome|e]; cbn [bind]; [|reflexivity].
  rewrite telefones_da_linha_slots. cbn [bind].
  now rewrite por_telefones_registro.
Qed.

Lemma processar_linha_ok cfg row : exists r, processar_linha cfg row = Ok r.
Proof.
  rewrite processar_linha_eq.
  destruct (limpa_nome_ok (nth (nome_col cfg) row (PyStr [])) (apenas_primeiro_nome cfg))
    as [nome ->].
  cbn [bind]. destruct (negb _ || _); now eexists.
Qed.

Section Linhas.
Variable rotulo : Type.
Variable prog : rotulo -> nat -> result unit.

(** The loop over the rows, when the progress code returns at each of
    them: the rows add their records one after another. *)
Lemma processar_linhas_eq cfg total (rows : list (rotulo * linha)) : forall dados,
  Forall (fun r => prog (fst r) total = Ok tt) rows ->
  processar_linhas prog cfg total rows dados
  = Ok (dados ++ flat_map (registros_da_linha cfg) (map snd rows)).
Proof.
  induction rows as [|[index row] rows IH]; intros dados Hprog; cbn [processar_linhas].
  - cbn [map flat_map]. now rewrite app_nil_r.
  - inversion Hprog as [|? ? Hindex Hrows]; subst. cbn [fst] in Hindex.
    rewrite Hindex. cbn [bind map flat_map snd]. unfold registros_da_linha at 1.
    destruct (processar_linha_ok cfg row) as [[registro|] ->]; cbn [bind].
    + now rewrite (IH _ Hrows), <- app_assoc.
    + now rewrite (IH _ Hrows).
Qed.

(** The loop returns only when the progress code returned at every row. *)
Lemma processar_linhas_retorna cfg total (rows : list (rotulo * linha)) : forall dados out,
  processar_linhas prog cfg total rows dados = Ok out ->
  Forall (fun r => prog (fst r) total = Ok tt) rows.
Proof.
  induction rows as [|[index row] rows IH]; intros dados out H; [constructor|].
  cbn [processar_linhas] in H.
  destruct (prog index total) as [[]|e] eqn:Hindex; cbn [bind] in H; [|discriminate].
  destruct (processar_linha cfg row) as [r|e]; cbn [bind] in H; [|discriminate].
  constructor; [exact Hindex | exact (IH _ _ H)].
Qed.

(** The loop stops with the exception of the progress code at the first
    row where it raises. *)
Lemma processar_linhas_levanta cfg total (antes depois : list (rotulo * linha)) index row e :
  forall dados,
  Forall (fun r => prog (fst r) total = Ok tt) antes ->
  prog index total = Raise e ->
  processar_linhas prog cfg total (antes ++ (index, row) :: depois) dados = Raise e.
Proof.
  induction antes as [|[i r] antes IH]; intros dados Hantes Hindex; cbn [app processar_linhas].
  - now rewrite Hindex.
  - inversion Hantes as [|? ? Hi Hresto]; subst. cbn [fst] in Hi. rewrite Hi. cbn [bind].
    destruct (processar_linha_ok cfg r) as [x ->]. cbn [bind]. now apply IH.
Qed.

Lemma iterrows_rotulos (df : dataframe rotulo) : map fst (iterrows df) = map fst (linhas df).
Proof. unfold iterrows. rewrite map_map. reflexivity. Qed.

Lemma progresso_iterrows (df : dataframe rotulo) total :
  Forall (fun r => prog (fst r) total = Ok tt) (iterrows df) <->
  Forall (fun r => prog (fst r) total = Ok tt) (linhas df).
Proof.
  unfold iterrows. rewrite Forall_map. reflexivity.
Qed.

(** The table processor returns exactly when the progress code returns at
    every row, and its output is then what the rows add, one after
    another. *)
Lemma processar_arquivo_eq (df : dataframe rotulo) cfg :
  progresso_retorna prog df ->
  processar_arquivo prog df cfg = Ok (flat_map (registros_da_linha cfg) (linhas_lidas df)).
Proof.
  intros H. unfold processar_arquivo.
  rewrite processar_linhas_eq by (now apply progresso_iterrows). reflexivity.
Qed.

Lemma processar_arquivo_retorna (df : dataframe rotulo) cfg out :
  processar_arquivo prog df cfg = Ok out ->
  progresso_retorna prog df /\ out = flat_map (registros_da_linha cfg) (linhas_lidas df).
Proof.
  intros H.
  assert (Hprog : progresso_retorna prog df).
  { apply progresso_iterrows. exact (processar_linhas_retorna _ _ _ _ H). }
  split; [exact Hprog|]. rewrite (@processar_arquivo_eq df cfg Hprog) in H. congruence.
Qed.
End Linhas.

(** C4.  The numbers found in the phone columns of a row are cut to the first
    [max_telefones] when there are more and filled up with empty strings
    when there are fewer, so there are exactly [max_telefones] slots; every
    record the row produces has the name, the identifier and exactly these
    slots, under the keys [DDD/Telefone 1] .. [DDD/Telefone max_telefones]. *)
Theorem registro_tem_k_telefones (cfg : config) (row : linha) :
  let k := max_telefones cfg in
  exists achados slots,
    telefones_das_colunas row (telefone_cols cfg) [] = Ok achados /\
    telefones_da_linha cfg row = Ok slots /\
    length slots = k /\
    (k <= length achados -> slots = firstn k achados) /\
    (length achados <= k -> slots = achados ++ repeat [] (k - length achados)) /\
    forall registro,
      processar_linha cfg row = Ok (Some registro) ->
      map fst registro = lit "Nome" :: lit "CPF" :: chaves_telefone k /\
      skipn 2 (map snd registro) = slots.
Proof.
  intros k. exists (telefones_achados row (telefone_cols cfg)), (slots_da_linha cfg row).
  split; [apply (telefones_das_colunas_achados row (telefone_cols cfg) [])|].
  split; [apply telefones_da_linha_slots|].
  split; [apply slots_da_linha_length|].
  split; [|split].
  - intros Hk. unfold slots_da_linha. fold k.
    replace (k - _) with 0 by lia. apply app_nil_r.
  - intros Hk. unfold slots_da_linha. fold k. now rewrite firstn_all2.
  - intros registro. rewrite processar_linha_eq.
    destruct (limpa_nome _ _) as [nome|e]; cbn [bind]; [|discriminate].
    destruct (negb _ || _); [|discriminate].
    intros H. injection H as <-.
    rewrite registro_de_chaves, registro_de_valores, slots_da_linha_length.
    split; reflexivity.
Qed.

Lemma registro_tem_k_telefones_witness :
  exists registro,
    processar_linha (Build_config 0 1 [2; 3] true true 3)
      [PyStr (lit "ana maria"); PyInt 123;
       PyStr (lit "11988887777, 1133334444, 1144445555"); PyInt 11977776666]
    = Ok (Some registro) /\
    skipn 2 (map snd registro) = [lit "11988887777"; lit "1133334444"; lit "1144445555"].
Proof.
  set (cfg := Build_config 0 1 [2; 3] true true 3).
  set (row := [PyStr (lit "ana maria"); PyInt 123;
               PyStr (lit "11988887777, 1133334444, 1144445555"); PyInt 11977776666]).
  destruct (registro_tem_k_telefones cfg row)
    as (achados & slots & Hach & _ & _ & Htrunc & _ & Hreg).
  assert (Hrow : exists registro, processar_linha cfg row = Ok (Some registro))
    by (vm_compute; eexists; reflexivity).
  destruct Hrow as [registro Hrow]. exists registro. split; [exact Hrow|].
  rewrite (proj2 (Hreg _ Hrow)).
  vm_compute in Hach. injection Hach as <-.
  rewrite Htrunc; [reflexivity | simpl; lia].
Defined.

(** C5.  A row is dropped exactly when the option to drop rows without any
    phone is enabled and every one of its slots is empty; with the option
    disabled such a row is kept, with all its slots empty strings. *)
Theorem descarta_sem_telefone (cfg : config) (row : linha) :
  exists slots,
    telefones_da_linha cfg row = Ok slots /\
    (processar_linha cfg row = Ok None <->
     remover_sem_telefone cfg = true /\ Forall (eq []) slots) /\
    (remover_sem_telefone cfg = false ->
     exists registro,
       processar_linha cfg row = Ok (Some registro) /\
       skipn 2 (map snd registro) = slots /\
       (Forall (eq []) slots ->
        skipn 2 (map snd registro) = repeat [] (max_telefones cfg))).
Proof.
  exists (slots_da_linha cfg row).
  split; [apply telefones_da_linha_slots|].
  rewrite processar_linha_eq.
  destruct (limpa_nome_ok (nth (nome_col cfg) row (PyStr [])) (apenas_primeiro_nome cfg))
    as [nome ->]. cbn [bind].
  split.
  - destruct (remover_sem_telefone cfg); cbn [negb orb].
    + destruct (algum_telefone (slots_da_linha cfg row)) eqn:Halgum.
      * split; [discriminate|]. intros [_ H].
        apply algum_telefone_false in H. congruence.
      * split; [|reflexivity]. intros _. split; [reflexivity|].
        now apply algum_telefone_false.
    + split; [discriminate | intros [H _]; discriminate].
  - intros ->. cbn [negb orb]. eexists. split; [reflexivity|].
    rewrite registro_de_valores. cbn [skipn]. split; [reflexivity|].
    intros Hvazios. rewrite <- (slots_da_linha_length cfg row).
    clear -Hvazios. induction Hvazios as [|x l <- _ IH]; simpl; [reflexivity|].
    now rewrite <- IH.
Qed.

Lemma descarta_sem_telefone_witness :
  let row := [PyStr (lit "ana"); PyInt 123; PyStr (lit "")] in
  processar_linha (Build_config 0 1 [2] true true 2) row = Ok None /\
  exists registro,
    processar_linha (Build_config 0 1 [2] true false 2) row = Ok (Some registro) /\
    skipn 2 (map snd registro) = [lit ""; lit ""].
Proof.
  intros row. split.
  - destruct (descarta_sem_telefone (Build_config 0 1 [2] true true 2) row)
      as (slots & Hslots & Hdrop & _).
    apply Hdrop. vm_compute in Hslots. injection Hslots as <-.
    split; [reflexivity | repeat constructor].
  - destruct (descarta_sem_telefone (Build_config 0 1 [2] true false 2) row)
      as (slots & Hslots & _ & Hkeep).
    destruct (Hkeep eq_refl) as (registro & Hreg & _ & Hvazios).
    exists registro. split; [exact Hreg|].
    apply Hvazios. vm_compute in Hslots. injection Hslots as <-. repeat constructor.
Defined.

(** ** Cells outside the row, and cells of other columns *)

Lemma limpa_nome_vazio v primeiro : vazio v = true -> limpa_nome v primeiro = Ok [].
Proof. unfold vazio, limpa_nome. now intros ->. Qed.

(** A cell read at a column of a row that was extended by empty or missing
    cells is the cell of the row, or both hold no value. *)
Lemma nth_extra row extra col :
  Forall (fun v => vazio v = true) extra ->
  nth col (row ++ extra) (PyStr []) = nth col row (PyStr []) \/
  (vazio (nth col (row ++ extra) (PyStr [])) = true /\
   vazio (nth col row (PyStr [])) = true).
Proof.
  intros Hextra. destruct (Nat.lt_ge_cases col (length row)) as [Hlt|Hge].
  - left. now apply app_nth1.
  - right. rewrite (app_nth2 _ _ _ Hge), (nth_overflow row _ Hge).
    split; [|reflexivity].
    destruct (Nat.lt_ge_cases (col - length row) (length extra)) as [Hin|Hout].
    + apply (proj1 (Forall_forall _ _) Hextra). now apply nth_In.
    + now rewrite (nth_overflow extra _ Hout).
Qed.

Lemma telefones_achados_extra row extra cols :
  Forall (fun v => vazio v = true) extra ->
  telefones_achados (row ++ extra) cols = telefones_achados row cols.
Proof.
  intros Hextra. unfold telefones_achados.
  induction cols as [|col cols IH]; simpl; [reflexivity|]. rewrite IH. f_equal.
  destruct (nth_extra row col Hextra) as [-> | [H1 H2]]; [reflexivity|].
  now rewrite (separar_vazio _ H1), (separar_vazio _ H2).
Qed.

Lemma processar_linha_extra cfg row extra :
  Forall (fun v => vazio v = true) extra ->
  processar_linha cfg (row ++ extra) = processar_linha cfg row.
Proof.
  intros Hextra. rewrite !processar_linha_eq. unfold slots_da_linha.
  rewrite (telefones_achados_extra row (telefone_cols cfg) Hextra).
  assert (Hnome : limpa_nome (nth (nome_col cfg) (row ++ extra) (PyStr []))
                             (apenas_primeiro_nome cfg)
                  = limpa_nome (nth (nome_col cfg) row (PyStr [])) (apenas_primeiro_nome cfg)).
  { destruct (nth_extra row (nome_col cfg) Hextra) as [-> | [H1 H2]]; [reflexivity|].
    now rewrite (limpa_nome_vazio _ _ H1), (limpa_nome_vazio _ _ H2). }
  assert (Hcpf : limpa_cpf_google_sheets (nth (cpf_col cfg) (row ++ extra) (PyStr []))
                 = limpa_cpf_google_sheets (nth (cpf_col cfg) row (PyStr []))).
  { destruct (nth_extra row (cpf_col cfg) Hextra) as [-> | [H1 H2]]; [reflexivity|].
    now rewrite (limpa_cpf_vazio _ H1), (limpa_cpf_vazio _ H2). }
  now rewrite Hnome, Hcpf.
Qed.

(** A phone column outside the row adds no number. *)
Lemma telefones_achados_dentro row cols :
  telefones_achados row cols
  = telefones_achados row (filter (fun col => col <? length row) cols).
Proof.
  unfold telefones_achados. induction cols as [|col cols IH]; [reflexivity|].
  cbn [flat_map filter]. destruct (col <? length row) eqn:Hcol.
  - cbn [flat_map]. now rewrite IH.
  - apply Nat.ltb_ge in Hcol. rewrite (nth_overflow row _ Hcol).
    rewrite (separar_vazio (PyStr [])) by reflexivity. exact IH.
Qed.

(** C7.  A configured column outside the row reads as the empty string and
    raises nothing.  The row still gives its record: the one made of the
    cells inside the row, with an empty name or identifier when that
    column is outside and no number from a phone column that is outside,
    as if the row had empty or missing cells there.  The row loop goes on:
    whenever the progress code returns at every row, the table processor
    returns the records of all rows, those after such a row included. *)
Theorem coluna_fora_da_linha (rotulo : Type) (prog : rotulo -> nat -> result unit)
    (cfg : config) :
  (forall row col, length row <= col -> celula row col = Ok (PyStr [])) /\
  (forall row,
     exists nome,
       limpa_nome (nth (nome_col cfg) row (PyStr [])) (apenas_primeiro_nome cfg) = Ok nome /\
       processar_linha cfg row
       = Ok (if negb (remover_sem_telefone cfg) || algum_telefone (slots_da_linha cfg row)
             then Some (registro_de nome
                          (limpa_cpf_google_sheets (nth (cpf_col cfg) row (PyStr [])))
                          (slots_da_linha cfg row))
             else None) /\
       (length row <= nome_col cfg -> nome = []) /\
       (length row <= cpf_col cfg ->
        limpa_cpf_google_sheets (nth (cpf_col cfg) row (PyStr [])) = []) /\
       telefones_achados row (telefone_cols cfg)
       = telefones_achados row (filter (fun col => col <? length row) (telefone_cols cfg))) /\
  (forall row extra, Forall (fun v => vazio v = true) extra ->
                     processar_linha cfg (row ++ extra) = processar_linha cfg row) /\
  (forall df : dataframe rotulo,
     progresso_retorna prog df ->
     processar_arquivo prog df cfg
     = Ok (flat_map (registros_da_linha cfg) (linhas_lidas df))).
Proof.
  split; [|split; [|split]].
  - intros row col Hcol. rewrite celula_nth. now rewrite nth_overflow.
  - intros row.
    destruct (limpa_nome_ok (nth (nome_col cfg) row (PyStr [])) (apenas_primeiro_nome cfg))
      as [nome Hnome].
    exists nome. split; [exact Hnome|]. split; [|split; [|split]].
    + rewrite processar_linha_eq, Hnome. cbn [bind]. now destruct (negb _ || _).
    + intros Hfora. rewrite (nth_overflow row _ Hfora) in Hnome.
      rewrite limpa_nome_vazio in Hnome by reflexivity. congruence.
    + intros Hfora. rewrite (nth_overflow row _ Hfora). reflexivity.
    + apply telefones_achados_dentro.
  - apply processar_linha_extra.
  - intros df Hprog. now apply processar_arquivo_eq.
Qed.

Lemma coluna_fora_da_linha_witness :
  celula [PyStr (lit "ana"); PyInt 123] 5 = Ok (PyStr []) /\
  processar_arquivo (fun (_ : nat) (_ : nat) => Ok tt)
    {| dtypes := [Object; Object];
       linhas := [(0, [PyStr (lit "ana"); PyStr (lit "11988887777")]);
                  (1, [PyStr (lit "rui"); PyStr (lit "1133334444")])] |}
    (Build_config 0 2 [1; 5] true true 2)
  = Ok [registro_de (lit "ANA") [] [lit "11988887777"; []];
        registro_de (lit "RUI") [] [lit "1133334444"; []]].
Proof.
  destruct (coluna_fora_da_linha (fun (_ : nat) (_ : nat) => Ok tt)
              (Build_config 0 2 [1; 5] true true 2)) as (Hcel & _ & _ & Hdf).
  split.
  - apply Hcel. simpl. lia.
  - rewrite Hdf; [reflexivity | repeat constructor].
Defined.

Lemma nth_nth_error {A} (l : list A) n d :
  nth n l d = match nth_error l n with Some x => x | None => d end.
Proof.
  revert n. induction l as [|x l IH]; intros [|n]; simpl; try reflexivity. apply IH.
Qed.

Lemma telefones_achados_mesmas r1 r2 cols :
  (forall col, In col cols -> nth_error r1 col = nth_error r2 col) ->
  telefones_achados r1 cols = telefones_achados r2 cols.
Proof.
  unfold telefones_achados. induction cols as [|col cols IH]; intros H; simpl; [reflexivity|].
  rewrite IH by (intros c Hc; apply H; now right).
  now rewrite !nth_nth_error, (H col) by now left.
Qed.

Lemma processar_linha_mesmas cfg r1 r2 :
  mesmas_na_linha cfg r1 r2 -> processar_linha cfg r1 = processar_linha cfg r2.
Proof.
  intros [_ H]. rewrite !processar_linha_eq. unfold slots_da_linha.
  rewrite (telefones_achados_mesmas r1 r2 (telefone_cols cfg))
    by (intros col Hcol; apply H; now do 2 right).
  rewrite !nth_nth_error.
  rewrite (H (nome_col cfg)) by now left.
  rewrite (H (cpf_col cfg)) by (right; now left).
  reflexivity.
Qed.

(** Rows that agree on the configured columns still agree there once
    their cells are converted to one and the same dtype. *)
Lemma mesmas_convertidas d cfg r1 r2 :
  mesmas_na_linha cfg r1 r2 ->
  mesmas_na_linha cfg (map (converter d) r1) (map (converter d) r2).
Proof.
  intros [Hlen H]. split; [now rewrite !length_map|].
  intros col Hcol. now rewrite !nth_error_map, (H col Hcol).
Qed.

(** C9 fails in the code.  Two tables of three integer columns agree on
    the identifier column and the phone column, on the labels and on the
    lengths of the rows; the third column, which is not configured, has a
    blank cell in the second table and is therefore a column of floats
    there.  The rows of the second table are read as rows of floats, the
    identifier 123 prints as [123.0], and its record has the identifier
    ["00000001230"] and the phone ["119888877770"], where the first table
    gives ["00000000123"] and ["11988887777"]. *)
Theorem coluna_alheia_muda_registro :
  let cfg := Build_config 3 0 [1] true true 1 in
  let prog := fun (_ : nat) (_ : nat) => Ok tt in
  let df1 := {| dtypes := [Int64; Int64; Int64];
                linhas := [(0, [PyInt 123; PyInt 11988887777; PyInt 10]);
                           (1, [PyInt 456; PyInt 1133334444; PyInt 20])] |} in
  let df2 := {| dtypes := [Int64; Int64; Float64];
                linhas := [(0, [PyInt 123; PyInt 11988887777; PyFloat (float_of_Z 10)]);
                           (1, [PyInt 456; PyInt 1133334444; PyFloat S754_nan])] |} in
  bem_formada df1 = true /\ bem_formada df2 = true /\
  mesmas_celulas cfg df1 df2 /\
  processar_arquivo prog df1 cfg
  = Ok [registro_de [] (lit "00000000123") [lit "11988887777"];
        registro_de [] (lit "00000000456") [lit "1133334444"]] /\
  processar_arquivo prog df2 cfg
  = Ok [registro_de [] (lit "00000001230") [lit "119888877770"];
        registro_de [] (lit "00000004560") [lit "11333344440"]] /\
  processar_arquivo prog df1 cfg <> processar_arquivo prog df2 cfg.
Proof.
  intros cfg prog df1 df2.
  assert (H1 : processar_arquivo prog df1 cfg
               = Ok [registro_de [] (lit "00000000123") [lit "11988887777"];
                     registro_de [] (lit "00000000456") [lit "1133334444"]])
    by (vm_compute; reflexivity).
  assert (H2 : processar_arquivo prog df2 cfg
               = Ok [registro_de [] (lit "00000001230") [lit "119888877770"];
                     registro_de [] (lit "00000004560") [lit "11333344440"]])
    by (vm_compute; reflexivity).
  split; [reflexivity|]. split; [reflexivity|]. split; [|split; [exact H1|split; [exact H2|]]].
  - split.
    + repeat constructor; intros col [<-|[<-|[<-|[]]]]; reflexivity.
    + intros col [<-|[<-|[<-|[]]]]; reflexivity.
  - rewrite H1, H2. vm_compute. discriminate.
Qed.

Lemma dtype_das_linhas_object dts : In Object dts -> dtype_das_linhas dts = Object.
Proof.
  assert (Hfold : forall l d, d = Object \/ In Object l -> fold_left comum l d = Object).
  { induction l as [|x l IH]; intros d [Hd|Hin]; cbn [fold_left].
    - exact Hd.
    - destruct Hin.
    - apply IH. left. subst d. now destruct x.
    - apply IH. destruct Hin as [->|Hin]; [left; now destruct d | now right]. }
  destruct dts as [|d dts]; intros Hin; [destruct Hin|].
  cbn [dtype_das_linhas]. apply Hfold. destruct Hin as [Hd|Hin]; [now left | now right].
Qed.

(** X14.  The cells of the columns that are not configured reach the
    output only through the dtype they give the rows: two tables that
    agree on the configured columns (labels, row lengths, dtypes and
    cells) and whose rows have the same dtype give the same result, the
    same records or the same exception.  This is the case whenever both
    tables have a column of text. *)
Theorem colunas_alheias_mesmo_dtype (rotulo : Type) (prog : rotulo -> nat -> result unit)
    (cfg : config) (df1 df2 : dataframe rotulo) :
  mesmas_celulas cfg df1 df2 ->
  dtype_das_linhas (dtypes df1) = dtype_das_linhas (dtypes df2) \/
  (In Object (dtypes df1) /\ In Object (dtypes df2)) ->
  processar_arquivo prog df1 cfg = processar_arquivo prog df2 cfg.
Proof.
  intros [Hlinhas _] Hd.
  assert (Hdtype : dtype_das_linhas (dtypes df1) = dtype_das_linhas (dtypes df2)).
  { destruct Hd as [Hd|[H1 H2]]; [exact Hd|].
    now rewrite (dtype_das_linhas_object _ H1), (dtype_das_linhas_object _ H2). }
  unfold processar_arquivo, iterrows, len. rewrite <- Hdtype.
  rewrite (Forall2_length Hlinhas).
  generalize (length (linhas df2)) as total. generalize (dtype_das_linhas (dtypes df1)) as d.
  intros d total. generalize (@nil dict) as dados.
  induction Hlinhas as [|[i1 r1] [i2 r2] l1 l2 [Hi Hr] _ IH]; intros dados; [reflexivity|].
  cbn [fst snd] in Hi, Hr. subst i2. cbn [map processar_linhas fst snd].
  destruct (prog i1 total) as [[]|e]; cbn [bind]; [|reflexivity].
  rewrite (processar_linha_mesmas (mesmas_convertidas d Hr)).
  destruct (processar_linha cfg (map (converter d) r2)) as [r|e]; cbn [bind]; [|reflexivity].
  apply IH.
Qed.

Lemma colunas_alheias_mesmo_dtype_witness :
  processar_arquivo (fun (_ : nat) (_ : nat) => Ok tt)
    {| dtypes := [Object; Int64; Int64];
       linhas := [(0, [PyStr (lit "ana"); PyInt 123; PyInt 10])] |}
    (Build_config 0 1 [] true false 1)
  = processar_arquivo (fun (_ : nat) (_ : nat) => Ok tt)
      {| dtypes := [Object; Int64; Float64];
         linhas := [(0, [PyStr (lit "ana"); PyInt 123; PyFloat S754_nan])] |}
      (Build_config 0 1 [] true false 1).
Proof.
  apply colunas_alheias_mesmo_dtype.
  - split.
    + repeat constructor; intros col [<-|[<-|[]]]; reflexivity.
    + intros col [<-|[<-|[]]]; reflexivity.
  - right. split; now left.
Defined.

(** ** The table processor on parts of a table, and the drop option *)

Lemma registros_da_linha_eq cfg row :
  exists nome,
    limpa_nome (nth (nome_col cfg) row (PyStr [])) (apenas_primeiro_nome cfg) = Ok nome /\
    registros_da_linha cfg row =
    if negb (remover_sem_telefone cfg) || algum_telefone (slots_da_linha cfg row)
    then [registro_de nome (limpa_cpf_google_sheets (nth (cpf_col cfg) row (PyStr [])))
                      (slots_da_linha cfg row)]
    else [].
Proof.
  destruct (limpa_nome_ok (nth (nome_col cfg) row (PyStr [])) (apenas_primeiro_nome cfg))
    as [nome Hnome].
  exists nome. split; [exact Hnome|].
  unfold registros_da_linha. rewrite processar_linha_eq, Hnome. cbn [bind].
  now destruct (negb _ || _).
Qed.

Lemma filter_flat_map {A B} (p : B -> bool) (f : A -> list B) l :
  filter p (flat_map f l) = flat_map (fun x => filter p (f x)) l.
Proof.
  induction l as [|x l IH]; simpl; [reflexivity|]. now rewrite filter_app, IH.
Qed.

Lemma flat_map_length_one {A B} (f : A -> list B) l :
  (forall x, length (f x) = 1) -> length (flat_map f l) = length l.
Proof.
  intros H. induction l as [|x l IH]; simpl; [reflexivity|].
  rewrite length_app, H, IH. reflexivity.
Qed.

Lemma flat_map_subseq {A B} (f g : A -> list B) l :
  (forall x, subseq (f x) (g x)) -> subseq (flat_map f l) (flat_map g l).
Proof.
  intros H. induction l as [|x l IH]; simpl; [constructor|].
  apply subseq_app; [apply H | exact IH].
Qed.

(** X1.  A table can be processed in parts: when the runs on a table and
    on its two parts return, the output for the table is the output for
    the first part followed by the output for the second. *)
Theorem processar_arquivo_em_partes (rotulo : Type) (prog : rotulo -> nat -> result unit)
    (cfg : config) (dts : list dtype) (l1 l2 : list (rotulo * linha))
    (out1 out2 out : list dict) :
  processar_arquivo prog {| dtypes := dts; linhas := l1 |} cfg = Ok out1 ->
  processar_arquivo prog {| dtypes := dts; linhas := l2 |} cfg = Ok out2 ->
  processar_arquivo prog {| dtypes := dts; linhas := l1 ++ l2 |} cfg = Ok out ->
  out = out1 ++ out2.
Proof.
  intros H1 H2 H.
  apply processar_arquivo_retorna in H1 as [_ ->].
  apply processar_arquivo_retorna in H2 as [_ ->].
  apply processar_arquivo_retorna in H as [_ ->].
  unfold linhas_lidas, iterrows. cbn [dtypes linhas].
  now rewrite !map_app, flat_map_app.
Qed.

Lemma processar_arquivo_em_partes_witness :
  exists out1 out2 out,
    processar_arquivo (fun (_ : nat) (_ : nat) => Ok tt)
      {| dtypes := [Object; Object];
         linhas := [(0, [PyStr (lit "ana"); PyStr (lit "11988887777")])] |}
      (Build_config 0 2 [1] true true 1) = Ok out1 /\
    processar_arquivo (fun (_ : nat) (_ : nat) => Ok tt)
      {| dtypes := [Object; Object];
         linhas := [(1, [PyStr (lit "rui"); PyStr (lit "1133334444")])] |}
      (Build_config 0 2 [1] true true 1) = Ok out2 /\
    processar_arquivo (fun (_ : nat) (_ : nat) => Ok tt)
      {| dtypes := [Object; Object];
         linhas := [(0, [PyStr (lit "ana"); PyStr (lit "11988887777")])]
                   ++ [(1, [PyStr (lit "rui"); PyStr (lit "1133334444")])] |}
      (Build_config 0 2 [1] true true 1) = Ok out /\
    out = out1 ++ out2.
Proof.
  set (prog := fun (_ : nat) (_ : nat) => Ok tt).
  set (cfg := Build_config 0 2 [1] true true 1).
  set (l1 := [(0, [PyStr (lit "ana"); PyStr (lit "11988887777")])]).
  set (l2 := [(1, [PyStr (lit "rui"); PyStr (lit "1133334444")])]).
  assert (H1 : exists out1,
             processar_arquivo prog {| dtypes := [Object; Object]; linhas := l1 |} cfg
             = Ok out1) by (vm_compute; eexists; reflexivity).
  assert (H2 : exists out2,
             processar_arquivo prog {| dtypes := [Object; Object]; linhas := l2 |} cfg
             = Ok out2) by (vm_compute; eexists; reflexivity).
  assert (H : exists out,
             processar_arquivo prog {| dtypes := [Object; Object]; linhas := l1 ++ l2 |} cfg
             = Ok out) by (vm_compute; eexists; reflexivity).
  destruct H1 as [out1 H1], H2 as [out2 H2], H as [out H].
  exists out1, out2, out. repeat split; try assumption.
  exact (processar_arquivo_em_partes prog cfg [Object; Object] l1 l2 H1 H2 H).
Defined.

(** X2.  The option to drop rows without phone only takes records out.
    When the run with the option as configured returns, so does the run
    with the option switched off, which gives one record per row; the
    output as configured is made of the records among those that have a
    phone in some slot, unchanged and in the same order. *)
Theorem remover_so_retira (rotulo : Type) (prog : rotulo -> nat -> result unit)
    (cfg : config) (df : dataframe rotulo) (mantidos : list dict) :
  processar_arquivo prog df cfg = Ok mantidos ->
  exists todos,
    processar_arquivo prog df (sem_remover cfg) = Ok todos /\
    length todos = len df /\
    subseq mantidos todos /\
    (remover_sem_telefone cfg = false -> mantidos = todos) /\
    (remover_sem_telefone cfg = true ->
     mantidos = filter (fun registro => algum_telefone (skipn 2 (map snd registro))) todos).
Proof.
  intros H. apply processar_arquivo_retorna in H as [Hprog ->].
  exists (flat_map (registros_da_linha (sem_remover cfg)) (linhas_lidas df)).
  split; [now apply processar_arquivo_eq|].
  assert (Hrow : forall row,
             exists registro,
               registros_da_linha (sem_remover cfg) row = [registro] /\
               algum_telefone (skipn 2 (map snd registro))
               = algum_telefone (slots_da_linha cfg row) /\
               registros_da_linha cfg row =
               if negb (remover_sem_telefone cfg) || algum_telefone (slots_da_linha cfg row)
               then [registro] else []).
  { intros row.
    destruct (registros_da_linha_eq cfg row) as (nome & Hnome & Hcfg).
    destruct (registros_da_linha_eq (sem_remover cfg) row) as (nome' & Hnome' & Hsem).
    cbn [sem_remover nome_col cpf_col apenas_primeiro_nome remover_sem_telefone negb orb]
      in Hnome', Hsem.
    rewrite Hnome in Hnome'. injection Hnome' as <-.
    change (slots_da_linha (sem_remover cfg) row) with (slots_da_linha cfg row) in Hsem.
    eexists. split; [exact Hsem|]. split; [|exact Hcfg].
    now rewrite registro_de_valores. }
  repeat split.
  - rewrite flat_map_length_one.
    + unfold linhas_lidas, iterrows, len. now rewrite !length_map.
    + intros row. destruct (Hrow row) as (r & -> & _). reflexivity.
  - apply flat_map_subseq. intros row. destruct (Hrow row) as (r & -> & _ & ->).
    destruct (negb _ || _); [apply subseq_refl | apply subseq_nil_l].
  - intros Hoff. apply flat_map_ext. intros row.
    destruct (Hrow row) as (r & -> & _ & ->). now rewrite Hoff.
  - intros Hon. rewrite filter_flat_map. apply flat_map_ext. intros row.
    destruct (Hrow row) as (r & -> & Halgum & ->). rewrite Hon. cbn [negb orb filter].
    rewrite Halgum. now destruct (algum_telefone (slots_da_linha cfg row)).
Qed.

Lemma remover_so_retira_witness :
  exists mantidos todos,
    processar_arquivo (fun (_ : nat) (_ : nat) => Ok tt)
      {| dtypes := [Object; Object];
         linhas := [(0, [PyStr (lit "ana"); PyStr (lit "11988887777")]);
                    (1, [PyStr (lit "rui"); PyFloat S754_nan])] |}
      (Build_config 0 2 [1] true true 1) = Ok mantidos /\
    processar_arquivo (fun (_ : nat) (_ : nat) => Ok tt)
      {| dtypes := [Object; Object];
         linhas := [(0, [PyStr (lit "ana"); PyStr (lit "11988887777")]);
                    (1, [PyStr (lit "rui"); PyFloat S754_nan])] |}
      (sem_remover (Build_config 0 2 [1] true true 1)) = Ok todos /\
    length todos = 2 /\ subseq mantidos todos.
Proof.
  set (prog := fun (_ : nat) (_ : nat) => Ok tt).
  set (cfg := Build_config 0 2 [1] true true 1).
  set (df := {| dtypes := [Object; Object];
                linhas := [(0, [PyStr (lit "ana"); PyStr (lit "11988887777")]);
                           (1, [PyStr (lit "rui"); PyFloat S754_nan])] |}).
  assert (H : exists mantidos, processar_arquivo prog df cfg = Ok mantidos)
    by (vm_compute; eexists; reflexivity).
  destruct H as [mantidos H].
  destruct (remover_so_retira prog cfg df H) as (todos & Htodos & Hlen & Hsub & _).
  exists mantidos, todos. repeat split; assumption.
Defined.

(** ** The identifier normaliser on its own output and on integers *)

(** X3.  The identifier normaliser is idempotent: applied to its own result
    it returns that result, whatever the first input was. *)
Theorem limpa_cpf_idempotente (v : pyval) :
  limpa_cpf_google_sheets (PyStr (limpa_cpf_google_sheets v)) = limpa_cpf_google_sheets v.
Proof.
  destruct (vazio v) eqn:Hv.
  - now rewrite (limpa_cpf_vazio _ Hv).
  - assert (Hlen : length (limpa_cpf_google_sheets v) = 11).
    { rewrite (limpa_cpf_digitos _ Hv). apply ultimos_length.
      rewrite length_app, repeat_length. lia. }
    assert (Hdig : forallb is_decimal (limpa_cpf_google_sheets v) = true).
    { rewrite (limpa_cpf_digitos _ Hv).
      apply forallb_pad; [reflexivity | apply forallb_filter_id]. }
    rewrite (limpa_cpf_digitos (PyStr (limpa_cpf_google_sheets v)))
      by (destruct (limpa_cpf_google_sheets v); [discriminate | reflexivity]).
    cbn [py_str]. rewrite (filter_all _ _ Hdig), ultimos_trunc by lia.
    unfold ultimos. now rewrite Hlen.
Qed.

Local Open Scope Z_scope.

Lemma valor_acc s : forall acc,
  fold_left (fun acc c => 10 * acc + (Z.of_N c - 48)) s acc
  = acc * 10 ^ Z.of_nat (length s) + valor_decimal s.
Proof.
  unfold valor_decimal. induction s as [|c s IH]; intros acc.
  - simpl. lia.
  - cbn [fold_left length]. rewrite (IH (10 * acc + _)), (IH (10 * 0 + _)).
    rewrite Nat2Z.inj_succ, Z.pow_succ_r by lia. ring.
Qed.

Lemma valor_app s1 s2 :
  valor_decimal (s1 ++ s2)
  = valor_decimal s1 * 10 ^ Z.of_nat (length s2) + valor_decimal s2.
Proof. unfold valor_decimal at 1. rewrite fold_left_app. apply valor_acc. Qed.

Lemma valor_zeros n : valor_decimal (repeat 48%N n) = 0.
Proof.
  induction n as [|n IH]; [reflexivity|].
  change (repeat 48%N (S n)) with ([48%N] ++ repeat 48%N n).
  rewrite valor_app, IH. reflexivity.
Qed.

Lemma valor_bounds s :
  forallb is_ascii_digit s = true -> 0 <= valor_decimal s < 10 ^ Z.of_nat (length s).
Proof.
  induction s as [|c s IH]; intros H.
  - simpl. unfold valor_decimal. simpl. lia.
  - cbn [forallb] in H. apply andb_true_iff in H as [Hc Hs].
    specialize (IH Hs). change (c :: s) with ([c] ++ s). rewrite valor_app.
    unfold is_ascii_digit in Hc. apply andb_true_iff in Hc as [H1 H2].
    apply N.leb_le in H1, H2.
    assert (Hd : 0 <= valor_decimal [c] <= 9) by (unfold valor_decimal; simpl; lia).
    cbn [length app]. rewrite Nat2Z.inj_succ, Z.pow_succ_r by lia. nia.
Qed.

Lemma valor_of_uint_acc d : forall acc,
  fold_left (fun acc c => 10 * acc + (Z.of_N c - 48)) (lit (NilEmpty.string_of_uint d))
            (Zpos acc)
  = Zpos (Pos.of_uint_acc d acc).
Proof.
  induction d; intros acc; cbn [NilEmpty.string_of_uint Pos.of_uint_acc];
    rewrite ?lit_cons; cbn [fold_left]; try reflexivity;
    rewrite <- IHd; f_equal;
    match goal with
    | |- context [Z.of_N (N_of_ascii ?a)] =>
        let v := eval vm_compute in (Z.of_N (N_of_ascii a)) in
        change (Z.of_N (N_of_ascii a)) with v
    end; lia.
Qed.

Lemma valor_of_uint d :
  valor_decimal (lit (NilEmpty.string_of_uint d)) = Z.of_N (Pos.of_uint d).
Proof.
  unfold valor_decimal.
  induction d; cbn [NilEmpty.string_of_uint Pos.of_uint];
    rewrite ?lit_cons; cbn [fold_left]; try reflexivity; try exact IHd;
    apply valor_of_uint_acc.
Qed.

(** Reading back the text of a non-negative integer gives the integer. *)
Lemma valor_str_of_Z z : 0 <= z -> valor_decimal (str_of_Z z) = z.
Proof.
  intros Hz. rewrite <- (DecimalZ.of_to z) at 2. unfold str_of_Z.
  destruct z as [|p|p]; [reflexivity| |lia].
  apply valor_of_uint.
Qed.

(** The last [k] digits of a digit string denote its number modulo [10^k]. *)
Lemma valor_ultimos k s :
  forallb is_ascii_digit s = true -> (k <= length s)%nat ->
  valor_decimal (ultimos k s) = valor_decimal s mod 10 ^ Z.of_nat k.
Proof.
  intros Hs Hk. unfold ultimos.
  rewrite <- (firstn_skipn (length s - k) s) at 3. rewrite valor_app.
  assert (Hlen : length (skipn (length s - k) s) = k) by (rewrite length_skipn; lia).
  pose proof (valor_bounds _ (forallb_skipn _ (length s - k) _ Hs)) as Hb.
  rewrite Hlen in *. rewrite Z.add_comm, Z_mod_plus_full. symmetry.
  now apply Z.mod_small.
Qed.

(** X4.  The identifier of an integer that [str] can print (at most
    [int_max_str_digits] digits) is, as a number, the absolute value of the
    integer modulo [10^11], written with exactly eleven ASCII digits:
    shorter numbers get their leading zeros back, longer ones lose their
    leading digits. *)
Theorem limpa_cpf_inteiro (z : Z) :
  str_retorna (PyInt z) ->
  length (limpa_cpf_google_sheets (PyInt z)) = 11%nat /\
  forallb is_ascii_digit (limpa_cpf_google_sheets (PyInt z)) = true /\
  valor_decimal (limpa_cpf_google_sheets (PyInt z)) = Z.abs z mod 10 ^ 11.
Proof.
  intros _. rewrite limpa_cpf_int.
  assert (Hdig : forallb is_ascii_digit (repeat 48%N 11 ++ str_of_Z (Z.abs z)) = true).
  { rewrite forallb_app. apply andb_true_iff. split; [reflexivity|].
    apply str_of_Z_digits. lia. }
  assert (Hlen : (11 <= length (repeat 48%N 11 ++ str_of_Z (Z.abs z)))%nat)
    by (rewrite length_app, repeat_length; lia).
  split; [now apply ultimos_length|].
  split; [unfold ultimos; now apply forallb_skipn|].
  rewrite (@valor_ultimos 11%nat _ Hdig Hlen), valor_app, valor_zeros, valor_str_of_Z by lia.
  reflexivity.
Qed.

Lemma limpa_cpf_inteiro_witness :
  str_retorna (PyInt (-12345678901234)) /\
  length (limpa_cpf_google_sheets (PyInt (-12345678901234))) = 11%nat /\
  valor_decimal (limpa_cpf_google_sheets (PyInt (-12345678901234))) = 45678901234.
Proof.
  assert (H : str_retorna (PyInt (-12345678901234))) by (vm_compute; reflexivity).
  destruct (@limpa_cpf_inteiro (-12345678901234) H) as (Hlen & _ & Hval).
  split; [exact H|]. split; [exact Hlen|]. rewrite Hval. reflexivity.
Defined.

Local Close Scope Z_scope.

(** ** The name normaliser on its own output *)

Lemma tables_fixas :
  forallb (fun e => imagem_fixa (snd e)) upper_special = true /\
  forallb run_fixo upper_runs = true.
Proof. split; vm_compute; reflexivity. Qed.

Lemma imagem_fixa_In u x :
  imagem_fixa u = true -> In x u -> is_space x = false /\ toupper_full x = [x].
Proof.
  unfold imagem_fixa. intros H Hx.
  pose proof (proj1 (forallb_forall _ _) H x Hx) as Hok. cbv beta in Hok.
  apply andb_true_iff in Hok as [H1 H2].
  split; [now apply negb_true_iff | now apply pystr_eqb_eq].
Qed.

(** Every character of the upper case of a character is its own upper
    case, and is not blank unless the character was. *)
Lemma toupper_imagem c u :
  In u (toupper_full c) ->
  toupper_full u = [u] /\ (is_space c = false -> is_space u = false).
Proof.
  unfold toupper_full at 1.
  destruct (find _ upper_special) as [[k img]|] eqn:Hs.
  - intros Hu. apply find_some in Hs as [Hin _].
    pose proof (proj1 (forallb_forall _ _) (proj1 tables_fixas) _ Hin) as Hok.
    cbn [snd] in Hok. destruct (imagem_fixa_In _ _ Hok Hu). now split.
  - destruct (find (in_run c) upper_runs) as [[[[lo hi] step] up]|] eqn:Hr.
    + intros [<-|[]]. apply find_some in Hr as [Hin Hrun].
      pose proof (proj1 (forallb_forall _ _) (proj2 tables_fixas) _ Hin) as Hok.
      unfold run_fixo in Hok. apply andb_true_iff in Hok as [Hstep Hok].
      apply N.ltb_lt in Hstep.
      unfold in_run in Hrun. apply andb_true_iff in Hrun as [Hrun Hmod].
      apply andb_true_iff in Hrun as [Hlo Hhi].
      apply N.leb_le in Hlo, Hhi. apply N.eqb_eq in Hmod.
      assert (Hdiv : (c - lo = (c - lo) / step * step)%N).
      { rewrite N.mul_comm. apply N.Div0.div_exact. exact Hmod. }
      assert (Hle : ((c - lo) / step <= (hi - lo) / step)%N)
        by (apply N.Div0.div_le_mono; lia).
      destruct (imagem_fixa_In _ (up + (c - lo))%N Hok) as [H1 H2]; [|now split].
      unfold alvos_do_run. apply in_map_iff.
      exists (N.to_nat ((c - lo) / step)). split.
      * rewrite N2Nat.id. now rewrite <- Hdiv.
      * apply in_seq. lia.
    + intros [<-|[]]. split; [|trivial].
      unfold toupper_full. now rewrite Hs, Hr.
Qed.

Lemma str_upper_fixo t : (forall x, In x t -> toupper_full x = [x]) -> str_upper t = t.
Proof.
  unfold str_upper. induction t as [|x t IH]; intros H; simpl; [reflexivity|].
  rewrite (H x) by now left. cbn [app]. f_equal. apply IH. intros y Hy. apply H. now right.
Qed.

Lemma str_upper_In s x : In x (str_upper s) -> toupper_full x = [x].
Proof.
  unfold str_upper. intros H. apply in_flat_map in H as (c & _ & Hx).
  now apply (toupper_imagem c x).
Qed.

(** Upper-casing twice is upper-casing once. *)
Lemma str_upper_idempotente s : str_upper (str_upper s) = str_upper s.
Proof. apply str_upper_fixo. intros x. apply str_upper_In. Qed.

Lemma strip_aparado s : aparado (str_strip s).
Proof.
  destruct (strip_head s) as [H | Hfirst]; [now left|]. right. split; [exact Hfirst|].
  destruct Hfirst as (c & r & Heq & _). unfold str_strip in *.
  destruct (dropwhile is_space (rev (dropwhile is_space s))) as [|d r'] eqn:Hd;
    [discriminate|].
  exists (rev r'), d. split; [reflexivity|].
  assert (Hgen : forall l, dropwhile is_space l = d :: r' -> is_space d = false).
  { induction l as [|y l IH]; simpl; [discriminate|].
    destruct (is_space y) eqn:Hy; [exact IH|]. intros H. injection H as <- _. exact Hy. }
  exact (Hgen _ Hd).
Qed.

Lemma aparado_strip s : aparado s -> str_strip s = s.
Proof.
  intros [-> | [(c & r & Hc & Hsp) (r' & d & Hd & Hspd)]]; [reflexivity|].
  unfold str_strip. rewrite Hc at 1. rewrite (@dropwhile_head is_space _ _ Hsp), <- Hc.
  rewrite Hd at 1. rewrite rev_app_distr. cbn [rev app].
  rewrite (@dropwhile_head is_space _ _ Hspd). cbn [rev]. rewrite rev_involutive.
  now symmetry.
Qed.

Lemma upper_aparado s : aparado s -> aparado (str_upper s).
Proof.
  intros [-> | [(c & r & Hc & Hsp) (r' & d & Hd & Hspd)]]; [now left|]. right. split.
  - destruct (toupper_sane _ Hsp) as (u & us & Hu & Hspu).
    exists u, (us ++ str_upper r). split; [|exact Hspu].
    rewrite Hc. unfold str_upper. cbn [flat_map]. now rewrite Hu.
  - destruct (toupper_sane _ Hspd) as (u & us & Hu & _).
    destruct (@exists_last _ (toupper_full d)) as (ini & fim & Hlast);
      [rewrite Hu; discriminate|].
    exists (str_upper r' ++ ini), fim. split.
    + rewrite Hd. unfold str_upper. rewrite flat_map_app. cbn [flat_map].
      now rewrite app_nil_r, Hlast, app_assoc.
    + apply (toupper_imagem d fim); [|exact Hspd].
      rewrite Hlast. apply in_or_app. right. now left.
Qed.

Lemma split_ws_sem_espaco s : forall cur,
  forallb (fun c => negb (is_space c)) cur = true ->
  Forall (fun t => forallb (fun c => negb (is_space c)) t = true) (split_ws cur s).
Proof.
  induction s as [|c s IH]; intros cur Hcur; simpl.
  - destruct cur; constructor; [|constructor]. now apply forallb_rev.
  - destruct (is_space c) eqn:Hc.
    + destruct cur as [|x cur]; [now apply IH|].
      constructor; [now apply forallb_rev | now apply IH].
    + apply IH. simpl. now rewrite Hc.
Qed.

(** The first token: what precedes the first blank. *)
Lemma split_ws_primeiro s : forall cur tok toks,
  cur <> [] -> split_ws cur s = tok :: toks ->
  exists resto, rev cur ++ s = tok ++ resto /\
                match resto with [] => True | c :: _ => is_space c = true end.
Proof.
  induction s as [|c s IH]; intros cur tok toks Hcur; simpl.
  - destruct cur; [congruence|]. intros H. injection H as <- _.
    exists []. now split.
  - destruct (is_space c) eqn:Hc.
    + destruct cur; [congruence|]. intros H. injection H as <- _.
      exists (c :: s). now split.
    + intros H. destruct (IH (c :: cur) tok toks) as (resto & Heq & Hresto);
        [discriminate | exact H |].
      exists resto. split; [|exact Hresto].
      rewrite <- Heq. cbn [rev]. now rewrite <- app_assoc.
Qed.

(** The first token of a string that starts with a non-blank character. *)
Lemma split_primeiro_token c r :
  is_space c = false ->
  exists tok toks resto,
    str_split (c :: r) = tok :: toks /\
    c :: r = tok ++ resto /\
    forallb (fun c => negb (is_space c)) tok = true /\
    tok <> [] /\
    match resto with [] => True | d :: _ => is_space d = true end.
Proof.
  intros Hsp. unfold str_split. cbn [split_ws]. rewrite Hsp.
  destruct (split_ws [c] r) as [|tok toks] eqn:Hsplit.
  { exfalso. revert Hsplit. apply split_ws_cur. discriminate. }
  destruct (@split_ws_primeiro r [c] tok toks) as (resto & Heq & Hresto);
    [discriminate | exact Hsplit |].
  exists tok, toks, resto. repeat split.
  - exact Heq.
  - pose proof (split_ws_sem_espaco r [c]) as Hall. rewrite Hsplit in Hall.
    assert (Hcur : forallb (fun c => negb (is_space c)) [c] = true)
      by (simpl; now rewrite Hsp).
    specialize (Hall Hcur). now inversion Hall.
  - intros ->. cbn [app rev] in Heq. subst resto. now rewrite Hsp in Hresto.
  - exact Hresto.
Qed.

(** X5.  For a value that [str] can print, the name normaliser returns
    in both modes, and the first name is the first token of the full name:
    the full name is the first name followed by nothing or by a blank and
    the rest, the first name has no blank in it, and it is empty only when
    the full name is. *)
Theorem primeiro_nome_do_completo (v : pyval) :
  str_retorna v ->
  exists primeiro completo resto,
    limpa_nome v true = Ok primeiro /\
    limpa_nome v false = Ok completo /\
    completo = primeiro ++ resto /\
    forallb (fun c => negb (is_space c)) primeiro = true /\
    (primeiro = [] -> completo = []) /\
    match resto with [] => True | c :: _ => is_space c = true end.
Proof.
  intros _. unfold limpa_nome. destruct (pd_isna v || eq_vazio v).
  { exists [], [], []. repeat split. }
  destruct (upper_aparado (strip_aparado (py_str v)))
    as [-> | [(c & r & Hc & Hsp) _]].
  { exists [], [], []. repeat split. }
  rewrite Hc.
  destruct (@split_primeiro_token c r Hsp) as (tok & toks & resto & -> & Heq & Htok & Hne & Hr).
  exists tok, (c :: r), resto. cbn [item0]. repeat split; try assumption.
  intros ->. contradiction.
Qed.

Lemma primeiro_nome_do_completo_witness :
  str_retorna (PyStr (lit " ana maria ")) /\
  exists resto,
    limpa_nome (PyStr (lit " ana maria ")) true = Ok (lit "ANA") /\
    limpa_nome (PyStr (lit " ana maria ")) false = Ok (lit "ANA" ++ resto).
Proof.
  split; [exact I|].
  destruct (@primeiro_nome_do_completo (PyStr (lit " ana maria ")) I)
    as (primeiro & completo & resto & Hp & Hc & Heq & _).
  assert (Hana : limpa_nome (PyStr (lit " ana maria ")) true = Ok (lit "ANA"))
    by (vm_compute; reflexivity).
  exists resto. split; [exact Hana|].
  rewrite Hana in Hp. injection Hp as <-. rewrite <- Heq. exact Hc.
Defined.

(** X6.  The name normaliser is idempotent in both modes: applied to its
    own result it returns that result, whatever the first input was. *)
Theorem limpa_nome_idempotente (v : pyval) (primeiro : bool) :
  exists nome,
    limpa_nome v primeiro = Ok nome /\ limpa_nome (PyStr nome) primeiro = Ok nome.
Proof.
  assert (Hfull : forall t, aparado t -> str_upper t = t ->
                            limpa_nome (PyStr t) false = Ok t).
  { intros t Hap Hup. unfold limpa_nome. destruct t as [|c t]; [reflexivity|].
    cbn [pd_isna eq_vazio orb py_str]. now rewrite (aparado_strip Hap), Hup. }
  assert (Hfirst : forall t, forallb (fun c => negb (is_space c)) t = true ->
                             str_upper t = t -> limpa_nome (PyStr t) true = Ok t).
  { intros t Hsp Hup. unfold limpa_nome. destruct t as [|c t]; [reflexivity|].
    cbn [pd_isna eq_vazio orb py_str]. rewrite (strip_token _ Hsp), Hup.
    unfold str_split. now rewrite (split_ws_token _ [] Hsp). }
  unfold limpa_nome at 1. destruct (pd_isna v || eq_vazio v).
  { exists []. split; [reflexivity | now destruct primeiro]. }
  destruct primeiro.
  - destruct (upper_aparado (strip_aparado (py_str v)))
      as [Hnil | [(c & r & Hc & Hsp) _]].
    { rewrite Hnil. exists []. now split. }
    rewrite Hc.
    destruct (@split_primeiro_token c r Hsp) as (tok & toks & resto & -> & Heq & Htok & _).
    exists tok. split; [reflexivity|]. apply Hfirst; [exact Htok|].
    apply str_upper_fixo. intros x Hx.
    apply (str_upper_In (str_strip (py_str v))). rewrite Hc, Heq.
    apply in_or_app. now left.
  - eexists. split; [reflexivity|]. apply Hfull.
    + apply upper_aparado, strip_aparado.
    + apply str_upper_idempotente.
Qed.

(** ** Shape of the records, and the count of records with a phone *)

Lemma achados_validos row cols : Forall telefone_valido (telefones_achados row cols).
Proof.
  unfold telefones_achados. apply Forall_forall. intros tel Htel.
  apply in_flat_map in Htel as (col & _ & Htel). exact (separar_digitos _ _ Htel).
Qed.

Lemma telefone_valido_nao_vazio tel : telefone_valido tel -> tel <> [].
Proof. intros [_ Hlen] ->. simpl in Hlen. lia. Qed.

(** The slots of a row: the numbers kept, then only empty strings. *)
Lemma slots_cheios cfg row :
  exists cheios,
    slots_da_linha cfg row = cheios ++ repeat [] (max_telefones cfg - length cheios) /\
    length cheios <= max_telefones cfg /\
    Forall telefone_valido cheios.
Proof.
  exists (firstn (max_telefones cfg) (telefones_achados row (telefone_cols cfg))).
  split; [|split].
  - unfold slots_da_linha. f_equal. rewrite length_firstn. f_equal. lia.
  - rewrite length_firstn. lia.
  - apply Forall_forall. intros tel Htel.
    apply (proj1 (Forall_forall _ _) (achados_validos row (telefone_cols cfg))).
    rewrite <- (firstn_skipn (max_telefones cfg)). apply in_or_app. now left.
Qed.

Lemma algum_telefone_repeat n : algum_telefone (repeat [] n) = false.
Proof. induction n as [|n IH]; [reflexivity | exact IH]. Qed.

(** Some slot is filled exactly when the first one is. *)
Lemma algum_telefone_primeiro cfg row :
  algum_telefone (slots_da_linha cfg row) =
  match slots_da_linha cfg row with
  | [] => false
  | tel :: _ => match tel with [] => false | _ => true end
  end.
Proof.
  destruct (slots_cheios cfg row) as (cheios & -> & _ & Hval).
  destruct cheios as [|tel cheios]; cbn [app].
  - rewrite algum_telefone_repeat.
    now destruct (max_telefones cfg - _).
  - inversion Hval as [|? ? Htel _]; subst.
    apply telefone_valido_nao_vazio in Htel. unfold algum_telefone. cbn [existsb].
    now destruct tel.
Qed.

Lemma NoDup_chaves k : NoDup (chaves_telefone k).
Proof.
  unfold chaves_telefone. generalize 0. induction k as [|k IH]; intros i; simpl.
  - constructor.
  - constructor; [|apply IH].
    intros Hin. apply in_map_iff in Hin as (j & Heq & Hj).
    apply chave_telefone_inj in Heq. apply in_seq in Hj. lia.
Qed.

(** A record never has a key twice. *)
Lemma registro_de_NoDup nome cpf slots : NoDup (map fst (registro_de nome cpf slots)).
Proof.
  rewrite registro_de_chaves.
  assert (Hfora : forall k chave, In chave (chaves_telefone k) ->
                                  chave <> lit "Nome" /\ chave <> lit "CPF").
  { intros k chave Hin. unfold chaves_telefone in Hin.
    apply in_map_iff in Hin as (i & <- & _).
    split; [apply chave_telefone_nome | apply chave_telefone_cpf]. }
  constructor; [|constructor; [|apply NoDup_chaves]].
  - intros [H|H]; [discriminate|]. now apply Hfora in H.
  - intros H. now apply Hfora in H.
Qed.

Lemma limpa_nome_sem_espaco v nome :
  limpa_nome v true = Ok nome -> forallb (fun c => negb (is_space c)) nome = true.
Proof.
  unfold limpa_nome. destruct (pd_isna v || eq_vazio v).
  { intros H. now injection H as <-. }
  destruct (upper_aparado (strip_aparado (py_str v)))
    as [-> | [(c & r & -> & Hsp) _]].
  { intros H. now injection H as <-. }
  destruct (@split_primeiro_token c r Hsp) as (tok & toks & resto & -> & _ & Htok & _).
  cbn [item0]. intros H. now injection H as <-.
Qed.

(** X7.  Every record of the output is well formed: its keys are all
    different; its phone slots are the numbers kept, each of decimal digits
    and at least eight long, followed only by empty strings; its identifier
    is empty or eleven decimal digits; and its name has no blank when only
    the first name is asked for. *)
Theorem registro_bem_formado (cfg : config) (row : linha) (registro : dict) :
  processar_linha cfg row = Ok (Some registro) ->
  exists nome cpf cheios,
    registro = registro_de nome cpf
                 (cheios ++ repeat [] (max_telefones cfg - length cheios)) /\
    length cheios <= max_telefones cfg /\
    Forall telefone_valido cheios /\
    (cpf = [] \/ (length cpf = 11 /\ forallb is_decimal cpf = true)) /\
    (apenas_primeiro_nome cfg = true ->
     forallb (fun c => negb (is_space c)) nome = true) /\
    NoDup (map fst registro).
Proof.
  rewrite processar_linha_eq.
  destruct (limpa_nome _ _) as [nome|e] eqn:Hnome; cbn [bind]; [|discriminate].
  destruct (negb _ || _); [|discriminate]. intros H. injection H as <-.
  destruct (slots_cheios cfg row) as (cheios & -> & Hlen & Hval).
  exists nome, (limpa_cpf_google_sheets (nth (cpf_col cfg) row (PyStr []))), cheios.
  split; [reflexivity|]. split; [exact Hlen|]. split; [exact Hval|].
  split; [|split].
  - destruct (vazio (nth (cpf_col cfg) row (PyStr []))) eqn:Hv.
    + left. now apply limpa_cpf_vazio.
    + right. rewrite (limpa_cpf_digitos _ Hv). split.
      * apply ultimos_length. rewrite length_app, repeat_length. lia.
      * apply forallb_pad; [reflexivity | apply forallb_filter_id].
  - intros Hprimeiro. rewrite Hprimeiro in Hnome. exact (limpa_nome_sem_espaco _ Hnome).
  - apply registro_de_NoDup.
Qed.

Lemma registro_bem_formado_witness :
  exists registro nome cpf cheios,
    processar_linha (Build_config 0 1 [2] true true 3)
      [PyStr (lit " ana maria "); PyInt 123; PyStr (lit "11988887777 / 1133334444")]
    = Ok (Some registro) /\
    registro = registro_de nome cpf (cheios ++ repeat [] (3 - length cheios)) /\
    Forall telefone_valido cheios.
Proof.
  set (cfg := Build_config 0 1 [2] true true 3).
  set (row := [PyStr (lit " ana maria "); PyInt 123;
               PyStr (lit "11988887777 / 1133334444")]).
  assert (Hrow : exists registro, processar_linha cfg row = Ok (Some registro))
    by (vm_compute; eexists; reflexivity).
  destruct Hrow as [registro Hrow].
  destruct (registro_bem_formado cfg row Hrow) as (nome & cpf & cheios & Heq & _ & Hval & _).
  exists registro, nome, cpf, cheios. repeat split; assumption.
Defined.

Lemma dict_get_telefone1 nome cpf tel slots :
  dict_get (registro_de nome cpf (tel :: slots)) (lit "DDD/Telefone 1") = Some tel.
Proof.
  unfold registro_de, chaves_telefone. cbn [length seq map combine dict_get].
  rewrite !pystr_eqb_neq by discriminate.
  assert (H : pystr_eqb (chave_telefone 0) (lit "DDD/Telefone 1") = true)
    by (apply pystr_eqb_eq; reflexivity).
  now rewrite H.
Qed.

(** The records a row adds, seen by the count: with a first slot, each has
    the column, and it is counted exactly when the row has a phone. *)
Lemma registros_da_linha_conta cfg row registro :
  1 <= max_telefones cfg ->
  In registro (registros_da_linha cfg row) ->
  exists tel,
    dict_get registro (lit "DDD/Telefone 1") = Some tel /\
    match tel with [] => false | _ => true end = algum_telefone (slots_da_linha cfg row) /\
    (remover_sem_telefone cfg = true -> algum_telefone (slots_da_linha cfg row) = true).
Proof.
  intros Hk Hin.
  destruct (registros_da_linha_eq cfg row) as (nome & _ & Heq). rewrite Heq in Hin.
  destruct (negb (remover_sem_telefone cfg) || algum_telefone (slots_da_linha cfg row))
    eqn:Hkeep; [|contradiction].
  destruct Hin as [<-|[]].
  pose proof (slots_da_linha_length cfg row) as Hlen.
  rewrite algum_telefone_primeiro in *.
  destruct (slots_da_linha cfg row) as [|tel slots]; [simpl in Hlen; lia|].
  exists tel. split; [apply dict_get_telefone1|]. split; [reflexivity|].
  intros Hon. rewrite Hon in Hkeep. exact Hkeep.
Qed.

(** X8.  The count of records with a phone that the application shows
    after a run reads the column [DDD/Telefone 1].  When no record is left
    (an empty table, or every row dropped) the column does not exist and
    the lookup raises; otherwise the count is the number of rows in which a
    phone was found, which is the number of all records when rows without
    phone are dropped. *)
Theorem contagem_com_telefone (rotulo : Type) (prog : rotulo -> nat -> result unit)
    (cfg : config) (df : dataframe rotulo) (out : list dict) :
  processar_arquivo prog df cfg = Ok out ->
  1 <= max_telefones cfg ->
  (out = [] -> registros_com_telefone out = None) /\
  (out <> [] ->
   registros_com_telefone out
   = Some (length (filter (fun row => algum_telefone (slots_da_linha cfg row))
                          (linhas_lidas df)))) /\
  (out <> [] -> remover_sem_telefone cfg = true ->
   registros_com_telefone out = Some (length out)).
Proof.
  intros H Hk. apply processar_arquivo_retorna in H as [_ ->].
  generalize (linhas_lidas df). clear df. intros df.
  unfold registros_com_telefone, registros_com.
  set (out := flat_map (registros_da_linha cfg) df).
  assert (Hcol : out <> [] -> tem_coluna out (lit "DDD/Telefone 1") = true).
  { intros Hne. destruct out as [|registro out'] eqn:Hout; [contradiction|].
    assert (Hin : In registro (flat_map (registros_da_linha cfg) df))
      by (fold out; rewrite Hout; now left).
    apply in_flat_map in Hin as (row & _ & Hin).
    destruct (@registros_da_linha_conta cfg row registro Hk Hin) as (tel & Hget & _).
    unfold tem_coluna. cbn [existsb]. now rewrite Hget. }
  split; [intros ->; reflexivity|]. split.
  - intros Hne. rewrite (Hcol Hne). f_equal. unfold out. clear Hcol Hne out.
    induction df as [|row df IH]; [reflexivity|].
    cbn [flat_map filter]. rewrite filter_app, length_app, IH. clear IH.
    assert (Hrow : length (filter (fun registro =>
                                     match dict_get registro (lit "DDD/Telefone 1") with
                                     | Some [] => false
                                     | _ => true
                                     end) (registros_da_linha cfg row))
                   = if algum_telefone (slots_da_linha cfg row) then 1 else 0).
    { pose proof (fun r => @registros_da_linha_conta cfg row r Hk) as Hconta.
      destruct (registros_da_linha_eq cfg row) as (nome & _ & Heq).
      rewrite Heq in *.
      destruct (negb (remover_sem_telefone cfg) || algum_telefone (slots_da_linha cfg row))
        eqn:Hkeep.
      - destruct (Hconta _ (or_introl eq_refl)) as (tel & Hget & Htel & _).
        cbn [filter]. rewrite Hget, <- Htel. now destruct tel.
      - apply orb_false_iff in Hkeep as [_ ->]. reflexivity. }
    rewrite Hrow. now destruct (algum_telefone (slots_da_linha cfg row)).
  - intros Hne Hon. rewrite (Hcol Hne). f_equal. f_equal.
    apply filter_all. apply forallb_forall. intros registro Hin.
    apply in_flat_map in Hin as (row & _ & Hin).
    destruct (@registros_da_linha_conta cfg row registro Hk Hin) as (tel & Hget & Htel & Halgum).
    rewrite Hget. rewrite (Halgum Hon) in Htel. now destruct tel.
Qed.

Lemma contagem_com_telefone_witness :
  registros_com_telefone [] = None /\
  exists out,
    processar_arquivo (fun (_ : nat) (_ : nat) => Ok tt)
      {| dtypes := [Object; Int64; Object];
         linhas := [(0, [PyStr (lit "ana"); PyInt 1; PyStr (lit "11988887777")]);
                    (1, [PyStr (lit "rui"); PyInt 2; PyFloat S754_nan])] |}
      (Build_config 0 1 [2] true false 2) = Ok out /\
    registros_com_telefone out = Some 1.
Proof.
  set (prog := fun (_ : nat) (_ : nat) => Ok tt).
  split.
  - assert (H : processar_arquivo prog
                  {| dtypes := [Object; Int64; Object];
                     linhas := [(0, [PyStr (lit "rui"); PyInt 2; PyFloat S754_nan])] |}
                  (Build_config 0 1 [2] true true 2) = Ok []) by reflexivity.
    apply (proj1 (contagem_com_telefone _ _ _ H (le_S 1 1 (le_n 1)))). reflexivity.
  - set (cfg := Build_config 0 1 [2] true false 2).
    set (df := {| dtypes := [Object; Int64; Object];
                  linhas := [(0, [PyStr (lit "ana"); PyInt 1; PyStr (lit "11988887777")]);
                             (1, [PyStr (lit "rui"); PyInt 2; PyFloat S754_nan])] |}).
    assert (Hout : exists out, processar_arquivo prog df cfg = Ok out)
      by (vm_compute; eexists; reflexivity).
    destruct Hout as [out Hout]. exists out. split; [exact Hout|].
    assert (Hk : 1 <= max_telefones cfg) by (simpl; lia).
    destruct (contagem_com_telefone _ _ _ Hout Hk) as (_ & Hconta & _).
    rewrite Hconta; [reflexivity|].
    intros ->. vm_compute in Hout. discriminate.
Defined.

(** ** The phone splitter on lists of numbers and on integers *)

Unset Implicit Arguments.

Lemma find_todos {A} (x : A) l : find (fun _ => negb false || true) (x :: l) = Some x.
Proof. reflexivity. Qed.

Lemma match_here_hd r s n l : matches r s = S n :: l -> match_here r false s = Some (S n).
Proof. unfold match_here. now intros ->. Qed.

Lemma match_here_nenhum r s : matches r s = [] -> match_here r false s = None.
Proof. unfold match_here. now intros ->. Qed.

Lemma countdown_hd lo n : exists l, countdown lo n = (lo + n) :: l.
Proof.
  destruct n as [|n]; simpl.
  - exists []. now rewrite Nat.add_0_r.
  - now eexists.
Qed.

Lemma prefix_len_todos p (x resto : pystr) :
  forallb p x = true ->
  match resto with [] => True | c :: _ => p c = false end ->
  prefix_len p (x ++ resto) = length x.
Proof.
  intros Hx Hresto. induction x as [|c x IH]; simpl.
  - destruct resto as [|c resto]; simpl; [reflexivity | now rewrite Hresto].
  - simpl in Hx. apply andb_true_iff in Hx as [Hc Hx]. rewrite Hc. f_equal. now apply IH.
Qed.

(** A repetition first tries its longest match. *)
Lemma matches_star_hd p s : exists l, matches (star p) s = prefix_len p s :: l.
Proof.
  unfold star. cbn [matches Nat.leb]. rewrite Nat.sub_0_r.
  apply (countdown_hd 0 (prefix_len p s)).
Qed.

Lemma matches_cat_hd r1 r2 s n1 l1 n2 l2 :
  matches r1 s = n1 :: l1 -> matches r2 (skipn n1 s) = n2 :: l2 ->
  exists l, matches (Cat r1 r2) s = (n1 + n2) :: l.
Proof. intros H1 H2. cbn [matches]. rewrite H1. cbn [flat_map]. rewrite H2. now eexists. Qed.

(** No match of a pattern [p* [q] ...] starts at a character that is
    neither in [p] nor in [q]. *)
Lemma matches_star_class_inicio p q r c s :
  p c = false -> q c = false -> matches (Cat (star p) (Cat (Class q) r)) (c :: s) = [].
Proof.
  intros Hp Hq. unfold star. cbn [matches prefix_len]. rewrite Hp.
  cbn [Nat.leb Nat.sub countdown flat_map skipn]. now rewrite Hq.
Qed.

Lemma matches_plus_inicio p r c s : p c = false -> matches (Cat (plus p) r) (c :: s) = [].
Proof. intros Hp. unfold plus. cbn [matches prefix_len]. now rewrite Hp. Qed.

(** No match of a pattern [... [q] ...] in a string without a character of
    [q]. *)
Lemma matches_class_ausente r1 q r2 s :
  forallb (fun c => negb (q c)) s = true -> matches (Cat r1 (Cat (Class q) r2)) s = [].
Proof.
  intros Hs. destruct (matches _ s) as [|n l] eqn:Hm; [reflexivity|]. exfalso.
  assert (Hin : In n (matches (Cat r1 (Cat (Class q) r2)) s)) by (rewrite Hm; now left).
  cbn [matches] in Hin.
  apply in_flat_map in Hin as (n1 & _ & Hin). apply in_map_iff in Hin as (n2 & _ & Hin).
  apply in_flat_map in Hin as (n3 & H3 & _).
  destruct (skipn n1 s) as [|c resto] eqn:Hskip; [contradiction|].
  destruct (q c) eqn:Hq; [|contradiction].
  assert (Hc : In c s).
  { rewrite <- (firstn_skipn n1 s), Hskip. apply in_or_app. right. now left. }
  pose proof (proj1 (forallb_forall _ _) Hs c Hc) as Hn. cbv beta in Hn.
  now rewrite Hq in Hn.
Qed.

(** The scan passes a stretch of characters at which no match starts. *)
Lemma split_scan_passa r d : forall seg resto,
  (forall c s, In c d -> matches r (c :: s) = []) ->
  split_scan r 0 seg (d ++ resto) = split_scan r 0 (rev d ++ seg) resto.
Proof.
  induction d as [|c d IH]; intros seg resto Hd; [reflexivity|].
  cbn [app split_scan]. rewrite (match_here_nenhum _ _ (Hd c (d ++ resto) (or_introl eq_refl))).
  rewrite IH by (intros c' s Hc'; apply Hd; now right).
  cbn [rev]. now rewrite <- app_assoc.
Qed.

Lemma split_scan_fim r seg : matches r [] = [] -> split_scan r 0 seg [] = [rev seg].
Proof. intros H. cbn [split_scan]. now rewrite (match_here_nenhum _ _ H). Qed.

Lemma split_scan_pula r x : forall seg resto,
  split_scan r (length x) seg (x ++ resto) = split_scan r 0 seg resto.
Proof. induction x as [|c x IH]; intros seg resto; [reflexivity | apply IH]. Qed.

(** The scan at a separator: the segment read so far is closed and the scan
    goes on behind the separator. *)
Lemma split_scan_separa r x seg resto l :
  x <> [] -> matches r (x ++ resto) = length x :: l ->
  split_scan r 0 seg (x ++ resto) = rev seg :: split_scan r 0 [] resto.
Proof.
  intros Hx Hm. destruct x as [|c x]; [congruence|].
  cbn [length] in Hm. cbn [app split_scan] in *.
  rewrite (match_here_hd _ _ _ _ Hm). f_equal. apply split_scan_pula.
Qed.

(** A string in which no match starts anywhere is not split. *)
Lemma re_split_inteiro r d :
  matches r [] = [] -> (forall c s, In c d -> matches r (c :: s) = []) ->
  re_split r d = [d].
Proof.
  intros Hnil Hd. unfold re_split.
  rewrite <- (app_nil_r d) at 1. rewrite (split_scan_passa r d [] [] Hd).
  rewrite (split_scan_fim _ _ Hnil). now rewrite app_nil_r, rev_involutive.
Qed.

(** A list of strings in which no match starts, joined by a separator that
    the pattern matches as a whole, is split into the list again. *)
Lemma split_scan_lista r sep : forall nums num seg,
  sep <> [] ->
  matches r [] = [] ->
  Forall (fun d => d <> [] /\ forall c s, In c d -> matches r (c :: s) = []) (num :: nums) ->
  (forall d resto, In d nums -> exists l, matches r (sep ++ d ++ resto) = length sep :: l) ->
  split_scan r 0 seg (str_join sep (num :: nums)) = (rev seg ++ num) :: nums.
Proof.
  induction nums as [|num2 nums IH]; intros num seg Hsep Hnil Hall Hmatch.
  - inversion Hall as [|? ? [_ Hnum] _]; subst. cbn [str_join].
    rewrite <- (app_nil_r num) at 1. rewrite (split_scan_passa r num seg [] Hnum).
    rewrite (split_scan_fim _ _ Hnil). now rewrite rev_app_distr, rev_involutive.
  - inversion Hall as [|? ? [_ Hnum] Hrest]; subst.
    change (str_join sep (num :: num2 :: nums))
      with (num ++ sep ++ str_join sep (num2 :: nums)).
    rewrite (split_scan_passa r num seg _ Hnum).
    assert (Hj : exists resto, str_join sep (num2 :: nums) = num2 ++ resto).
    { destruct nums; [exists []; cbn [str_join]; now rewrite app_nil_r | now eexists]. }
    destruct Hj as [resto Hj].
    destruct (Hmatch num2 resto (or_introl eq_refl)) as [l Hl]. rewrite <- Hj in Hl.
    rewrite (split_scan_separa r sep _ _ _ Hsep Hl).
    rewrite rev_app_distr, rev_involutive. f_equal.
    rewrite (IH num2 [] Hsep Hnil Hrest); [reflexivity|].
    intros d resto' Hd. apply Hmatch. now right.
Qed.

Lemma decimal_nao_espaco c : is_decimal c = true -> is_space c = false.
Proof.
  intros Hd. destruct (is_space c) eqn:Hs; [|reflexivity].
  now rewrite (space_not_decimal c Hs) in Hd.
Qed.

Lemma separadores_fim sep : In sep separadores -> matches sep [] = [].
Proof. intros [<-|[<-|[<-|[]]]]; reflexivity. Qed.

(** No separator can start at a digit. *)
Lemma separadores_digito sep c s :
  In sep separadores -> is_decimal c = true -> matches sep (c :: s) = [].
Proof.
  intros Hsep Hd. pose proof (decimal_nao_espaco c Hd) as Hsp.
  destruct Hsep as [<-|[<-|[<-|[]]]].
  - apply matches_star_class_inicio; [exact Hsp|].
    destruct (c =? chr ";")%N eqn:H1; [apply N.eqb_eq in H1; now subst|].
    destruct (c =? chr ",")%N eqn:H2; [apply N.eqb_eq in H2; now subst|].
    destruct (c =? chr "/")%N eqn:H3; [apply N.eqb_eq in H3; now subst|].
    reflexivity.
  - apply matches_star_class_inicio; [exact Hsp|].
    destruct (chr "-" =? c)%N eqn:H1; [apply N.eqb_eq in H1; now subst|]. reflexivity.
  - apply matches_plus_inicio. exact Hsp.
Qed.

Lemma re_split_digitos sep d :
  In sep separadores -> forallb is_decimal d = true -> re_split sep d = [d].
Proof.
  intros Hsep Hd. apply re_split_inteiro; [now apply separadores_fim|].
  intros c s Hc. apply separadores_digito; [exact Hsep|].
  exact (proj1 (forallb_forall _ _) Hd c Hc).
Qed.

Lemma passo_digitos sep nums :
  In sep separadores -> Forall (fun num => forallb is_decimal num = true) nums ->
  passo nums sep = nums.
Proof.
  intros Hsep Hall. unfold passo. induction Hall as [|num nums Hnum _ IH]; [reflexivity|].
  cbn [flat_map]. now rewrite (re_split_digitos sep num Hsep Hnum), IH.
Qed.

(** A string without [;], [,] and [/] is not split by the punctuation
    pass. *)
Lemma re_split_sem_pontuacao s :
  forallb (fun c => negb ((c =? chr ";")%N || (c =? chr ",")%N || (c =? chr "/")%N)) s = true ->
  re_split sep_pontuacao s = [s].
Proof.
  intros Hs. unfold re_split, sep_pontuacao.
  assert (Hgen : forall seg,
             split_scan (Cat (star is_space)
                             (Cat (Class (fun c => (c =? chr ";")%N || (c =? chr ",")%N
                                                   || (c =? chr "/")%N))
                                  (star is_space))) 0 seg s = [rev seg ++ s]).
  { induction s as [|c s IH]; intros seg.
    - rewrite (split_scan_fim _ _ (matches_class_ausente _ _ _ _ Hs)). now rewrite app_nil_r.
    - cbn [split_scan].
      rewrite (match_here_nenhum _ _ (matches_class_ausente _ _ _ _ Hs)).
      cbn [forallb] in Hs. apply andb_true_iff in Hs as [_ Hs].
      rewrite (IH Hs). cbn [rev]. now rewrite <- app_assoc. }
  apply (Hgen []).
Qed.

(** The punctuation pattern matches a whole separator [esq c dir] of blanks
    around [;], [,] or [/] when a digit follows. *)
Lemma matches_sep_pontuacao esq c dir d0 resto :
  forallb is_space esq = true -> forallb is_space dir = true ->
  ((c =? chr ";")%N || (c =? chr ",")%N || (c =? chr "/")%N) = true ->
  is_decimal d0 = true ->
  exists l, matches sep_pontuacao ((esq ++ c :: dir) ++ d0 :: resto)
            = length (esq ++ c :: dir) :: l.
Proof.
  intros Hesq Hdir Hc Hd0. rewrite <- app_assoc. cbn [app].
  assert (Hcsp : is_space c = false).
  { apply orb_true_iff in Hc as [Hc|Hc]; [apply orb_true_iff in Hc as [Hc|Hc]|];
      apply N.eqb_eq in Hc; now subst. }
  destruct (matches_star_hd is_space (esq ++ c :: dir ++ d0 :: resto)) as [l1 H1].
  rewrite (prefix_len_todos is_space esq (c :: dir ++ d0 :: resto) Hesq Hcsp) in H1.
  destruct (matches_star_hd is_space (dir ++ d0 :: resto)) as [l2 H2].
  rewrite (prefix_len_todos is_space dir (d0 :: resto) Hdir (decimal_nao_espaco d0 Hd0)) in H2.
  assert (H3 : exists l, matches (Cat (Class (fun c => (c =? chr ";")%N || (c =? chr ",")%N
                                                        || (c =? chr "/")%N))
                                      (star is_space)) (c :: dir ++ d0 :: resto)
                         = (1 + length dir) :: l).
  { eapply matches_cat_hd; [cbn [matches]; rewrite Hc; reflexivity | exact H2]. }
  destruct H3 as [l3 H3].
  assert (Hskip : skipn (length esq) (esq ++ c :: dir ++ d0 :: resto)
                  = c :: dir ++ d0 :: resto)
    by (rewrite skipn_app, skipn_all, Nat.sub_diag; reflexivity).
  rewrite <- Hskip in H3.
  unfold sep_pontuacao.
  destruct (matches_cat_hd _ _ _ _ _ _ _ H1 H3) as [l Hl].
  exists l. rewrite Hl. f_equal. rewrite length_app. cbn [length]. lia.
Qed.

(** The hyphen pattern matches a whole separator [esq - dir] of blanks
    around a hyphen when a digit follows. *)
Lemma matches_sep_hifen esq dir d0 resto :
  forallb is_space esq = true -> forallb is_space dir = true ->
  is_decimal d0 = true ->
  exists l, matches sep_hifen ((esq ++ chr "-" :: dir) ++ d0 :: resto)
            = length (esq ++ chr "-" :: dir) :: l.
Proof.
  intros Hesq Hdir Hd0. rewrite <- app_assoc. cbn [app].
  destruct (matches_star_hd is_space (esq ++ chr "-" :: dir ++ d0 :: resto)) as [l1 H1].
  rewrite (prefix_len_todos is_space esq (chr "-" :: dir ++ d0 :: resto) Hesq eq_refl) in H1.
  destruct (matches_star_hd is_space (dir ++ d0 :: resto)) as [l2 H2].
  rewrite (prefix_len_todos is_space dir (d0 :: resto) Hdir (decimal_nao_espaco d0 Hd0)) in H2.
  assert (Hskip2 : skipn (length dir) (dir ++ d0 :: resto) = d0 :: resto)
    by (rewrite skipn_app, skipn_all, Nat.sub_diag; reflexivity).
  assert (H3 : matches (Lookahead (Class is_decimal)) (skipn (length dir) (dir ++ d0 :: resto))
               = [0])
    by (rewrite Hskip2; cbn [matches]; now rewrite Hd0).
  destruct (matches_cat_hd _ _ _ _ _ _ _ H2 H3) as [l4 H4].
  assert (H5 : matches (Class (N.eqb (chr "-"))) (chr "-" :: dir ++ d0 :: resto) = [1])
    by reflexivity.
  destruct (matches_cat_hd _ _ _ _ _ _ _ H5 H4) as [l6 H6].
  assert (Hskip : skipn (length esq) (esq ++ chr "-" :: dir ++ d0 :: resto)
                  = chr "-" :: dir ++ d0 :: resto)
    by (rewrite skipn_app, skipn_all, Nat.sub_diag; reflexivity).
  rewrite <- Hskip in H6.
  unfold sep_hifen.
  destruct (matches_cat_hd _ _ _ _ _ _ _ H1 H6) as [l Hl].
  exists l. rewrite Hl. f_equal. rewrite length_app. cbn [length]. lia.
Qed.

Lemma forallb_str_join (f : N -> bool) sep nums :
  forallb f sep = true -> Forall (fun num => forallb f num = true) nums ->
  forallb f (str_join sep nums) = true.
Proof.
  intros Hsep Hall. induction Hall as [|num nums Hnum Hnums IH]; [reflexivity|].
  destruct nums as [|num2 nums]; [exact Hnum|].
  change (str_join sep (num :: num2 :: nums)) with (num ++ sep ++ str_join sep (num2 :: nums)).
  now rewrite !forallb_app, Hnum, Hsep, IH.
Qed.

Lemma limpar_digitos nums :
  Forall (fun num => forallb is_decimal num = true) nums ->
  flat_map limpar_telefone nums = filter (fun num => 8 <=? length num) nums.
Proof.
  intros Hall. induction Hall as [|num nums Hnum _ IH]; [reflexivity|].
  cbn [flat_map filter]. rewrite limpar_telefone_digitos, (filter_all _ _ Hnum), IH.
  now destruct (8 <=? length num).
Qed.

(** X9.  A cell that lists phone numbers, each written with digits only,
    with [;], [,], [/] or [-] between them and any blanks around that
    character, gives exactly the numbers of the list that have at least
    eight digits, in their order. *)
Theorem separar_lista_de_telefones (esq dir : pystr) (c : N) (nums : list pystr) :
  forallb is_space esq = true -> forallb is_space dir = true ->
  In c [chr ";"; chr ","; chr "/"; chr "-"] ->
  Forall (fun num => num <> [] /\ forallb is_decimal num = true) nums ->
  separar_telefones_multiplos (PyStr (str_join (esq ++ c :: dir) nums))
  = filter (fun num => 8 <=? length num) nums.
Proof.
  intros Hesq Hdir Hc Hall.
  destruct nums as [|num nums]; [reflexivity|].
  assert (Hdec : Forall (fun num => forallb is_decimal num = true) (num :: nums)).
  { apply Forall_forall. intros d Hd. exact (proj2 (proj1 (Forall_forall _ _) Hall d Hd)). }
  set (sep := esq ++ c :: dir).
  assert (Hsep : sep <> []) by (unfold sep; now destruct esq).
  assert (Htext : exists c0 t, str_join sep (num :: nums) = c0 :: t).
  { inversion Hall as [|? ? [Hne _] _]; subst.
    destruct num as [|c0 num]; [congruence|].
    destruct nums; cbn [str_join app]; do 2 eexists; reflexivity. }
  destruct Htext as (c0 & t & Htext).
  rewrite separar_fragmentos by (unfold vazio; cbn [pd_isna eq_vazio orb]; now rewrite Htext).
  cbn [py_str].
  assert (Hlista : forall r,
             In r separadores ->
             (forall d0 resto, is_decimal d0 = true ->
                               exists l, matches r (sep ++ d0 :: resto) = length sep :: l) ->
             re_split r (str_join sep (num :: nums)) = num :: nums).
  { intros r Hr Hm. unfold re_split.
    apply (split_scan_lista r sep nums num [] Hsep (separadores_fim r Hr)).
    - apply Forall_forall. intros d Hd.
      destruct (proj1 (Forall_forall _ _) Hall d Hd) as [Hne Hdig].
      split; [exact Hne|]. intros x s Hx.
      apply separadores_digito; [exact Hr|]. exact (proj1 (forallb_forall _ _) Hdig x Hx).
    - intros d resto Hd.
      destruct (proj1 (Forall_forall _ _) Hall d (or_intror Hd)) as [Hne Hdig].
      destruct d as [|d0 d]; [congruence|]. cbn [app].
      apply Hm. cbn [forallb] in Hdig. now apply andb_true_iff in Hdig as [Hd0 _]. }
  assert (Hpassos : fold_left passo separadores [str_join sep (num :: nums)] = num :: nums).
  { cbn [fold_left separadores].
    destruct Hc as [<-|[<-|[<-|[<-|[]]]]].
    1-3: unfold passo at 3; cbn [flat_map]; rewrite app_nil_r;
         rewrite (Hlista sep_pontuacao (or_introl eq_refl))
           by (intros d0 resto Hd0; now apply matches_sep_pontuacao);
         rewrite (passo_digitos sep_hifen _ (or_intror (or_introl eq_refl)) Hdec);
         apply (passo_digitos sep_espaco _ (or_intror (or_intror (or_introl eq_refl))) Hdec).
    unfold passo at 3. cbn [flat_map]. rewrite app_nil_r.
    rewrite re_split_sem_pontuacao.
    - unfold passo at 2. cbn [flat_map]. rewrite app_nil_r.
      rewrite (Hlista sep_hifen (or_intror (or_introl eq_refl)))
        by (intros d0 resto Hd0; now apply matches_sep_hifen).
      apply (passo_digitos sep_espaco _ (or_intror (or_intror (or_introl eq_refl))) Hdec).
    - apply forallb_str_join.
      + unfold sep. rewrite forallb_app. cbn [forallb]. apply andb_true_iff. split.
        * apply forallb_forall. intros x Hx.
          pose proof (proj1 (forallb_forall _ _) Hesq x Hx) as Hsp.
          destruct (x =? chr ";")%N eqn:H1; [apply N.eqb_eq in H1; now subst|].
          destruct (x =? chr ",")%N eqn:H2; [apply N.eqb_eq in H2; now subst|].
          destruct (x =? chr "/")%N eqn:H3; [apply N.eqb_eq in H3; now subst|].
          reflexivity.
        * apply andb_true_iff. split; [reflexivity|].
          apply forallb_forall. intros x Hx.
          pose proof (proj1 (forallb_forall _ _) Hdir x Hx) as Hsp.
          destruct (x =? chr ";")%N eqn:H1; [apply N.eqb_eq in H1; now subst|].
          destruct (x =? chr ",")%N eqn:H2; [apply N.eqb_eq in H2; now subst|].
          destruct (x =? chr "/")%N eqn:H3; [apply N.eqb_eq in H3; now subst|].
          reflexivity.
      + apply Forall_forall. intros d Hd. apply forallb_forall. intros x Hx.
        pose proof (proj1 (forallb_forall _ _)
                      (proj1 (Forall_forall _ _) Hdec d Hd) x Hx) as Hdig.
        destruct (x =? chr ";")%N eqn:H1; [apply N.eqb_eq in H1; now subst|].
        destruct (x =? chr ",")%N eqn:H2; [apply N.eqb_eq in H2; now subst|].
        destruct (x =? chr "/")%N eqn:H3; [apply N.eqb_eq in H3; now subst|].
        reflexivity. }
  rewrite Hpassos. now apply limpar_digitos.
Qed.

Lemma separar_lista_de_telefones_witness :
  separar_telefones_multiplos (PyStr (lit "11988887777 - 1133334444 - 123"))
  = [lit "11988887777"; lit "1133334444"].
Proof.
  apply (separar_lista_de_telefones (lit " ") (lit " ") (chr "-")
           [lit "11988887777"; lit "1133334444"; lit "123"]).
  - reflexivity.
  - reflexivity.
  - simpl. tauto.
  - repeat constructor; discriminate.
Defined.

Local Open Scope Z_scope.

(** The decimal text of a positive number starts with a digit from 1 to 9. *)
Lemma to_uint_inicio p :
  match Pos.to_uint p with
  | Decimal.Nil | Decimal.D0 _ => False
  | _ => True
  end.
Proof.
  pose proof (DecimalPos.Unsigned.to_of (Pos.to_uint p)) as H.
  rewrite DecimalPos.Unsigned.of_to in H. cbn [N.to_uint] in H.
  pose proof (DecimalPos.Unsigned.to_uint_nonzero p) as Hnz.
  pose proof (DecimalFacts.nzhead_nonzero (Pos.to_uint p)) as Hhead.
  unfold Decimal.unorm in H.
  destruct (Decimal.nzhead (Pos.to_uint p)) eqn:Hn; rewrite H;
    try exact I; [now apply Hnz | now apply (Hhead u)].
Qed.

Lemma valor_inicio p :
  10 ^ (Z.of_nat (length (str_of_Z (Zpos p))) - 1) <= valor_decimal (str_of_Z (Zpos p)).
Proof.
  pose proof (to_uint_inicio p) as Hini.
  pose proof (@str_of_Z_digits (Zpos p) ltac:(lia)) as Hdig.
  unfold str_of_Z in *. cbn [Z.to_int NilEmpty.string_of_int] in *.
  destruct (Pos.to_uint p) as [|u|u|u|u|u|u|u|u|u|u]; try contradiction;
    cbn [NilEmpty.string_of_uint] in *; rewrite lit_cons in *;
    cbn [forallb] in Hdig; apply andb_true_iff in Hdig as [_ Hdig];
    apply valor_bounds in Hdig;
    match goal with
    | |- context [valor_decimal (?c :: ?s)] =>
        change (c :: s) with ([c] ++ s); rewrite valor_app;
        let v := eval vm_compute in (valor_decimal [c]) in
        change (valor_decimal [c]) with v
    end;
    cbn [app length]; rewrite Nat2Z.inj_succ;
    replace (Z.succ (Z.of_nat (length (lit (NilEmpty.string_of_uint u)))) - 1)
      with (Z.of_nat (length (lit (NilEmpty.string_of_uint u)))) by lia;
    nia.
Qed.

(** An integer has at least eight digits exactly from ten million on. *)
Lemma oito_digitos z :
  0 <= z -> (8 <=? length (str_of_Z z))%nat = (10 ^ 7 <=? z).
Proof.
  intros Hz. destruct z as [|p|p]; [reflexivity| |lia].
  pose proof (valor_inicio p) as Hlo.
  pose proof (@valor_bounds _ (@str_of_Z_digits (Zpos p) Hz)) as [_ Hhi].
  rewrite valor_str_of_Z in * by lia.
  destruct (Nat.leb_spec 8 (length (str_of_Z (Zpos p)))) as [Hlen|Hlen];
    destruct (Z.leb_spec (10 ^ 7) (Zpos p)) as [Hp|Hp]; try reflexivity; exfalso.
  - assert (10 ^ 7 <= 10 ^ (Z.of_nat (length (str_of_Z (Zpos p))) - 1))
      by (apply Z.pow_le_mono_r; lia).
    lia.
  - assert (10 ^ Z.of_nat (length (str_of_Z (Zpos p))) <= 10 ^ 7)
      by (apply Z.pow_le_mono_r; lia).
    lia.
Qed.

Local Close Scope Z_scope.

Lemma str_of_Z_pos_inicio p :
  exists d0 ds, str_of_Z (Zpos p) = d0 :: ds /\ is_decimal d0 = true.
Proof.
  pose proof (@str_of_Z_digits (Zpos p) ltac:(lia)) as Hdig.
  apply forallb_ascii_decimal in Hdig.
  destruct (str_of_Z (Zpos p)) as [|d0 ds] eqn:Hs.
  - pose proof (@valor_str_of_Z (Zpos p) ltac:(lia)) as Hv. rewrite Hs in Hv. discriminate.
  - exists d0, ds. split; [reflexivity|]. cbn [forallb] in Hdig.
    now apply andb_true_iff in Hdig as [Hd0 _].
Qed.

(** X10.  A phone cell that holds an integer that [str] can print (at most
    [int_max_str_digits] digits) gives the digits of its absolute value as
    the one phone number when the integer has at least eight digits, that
    is from ten million on, and nothing otherwise; the sign of a negative
    integer is taken for a separator. *)
Theorem separar_inteiro (z : Z) :
  str_retorna (PyInt z) ->
  separar_telefones_multiplos (PyInt z) =
  if (10 ^ 7 <=? Z.abs z)%Z then [str_of_Z (Z.abs z)] else [].
Proof.
  intros _. rewrite <- (oito_digitos (Z.abs z)) by lia.
  rewrite separar_fragmentos by reflexivity. cbn [py_str].
  assert (Hdigs : forall n, (0 <= n)%Z -> forallb is_decimal (str_of_Z n) = true)
    by (intros n Hn; now apply forallb_ascii_decimal, str_of_Z_digits).
  assert (Hum : forall d, forallb is_decimal d = true ->
                          flat_map limpar_telefone [d]
                          = if 8 <=? length d then [d] else []).
  { intros d Hd. rewrite (limpar_digitos [d]) by (now constructor).
    cbn [filter]. now destruct (8 <=? length d). }
  destruct z as [|p|p].
  - reflexivity.
  - cbn [Z.abs fold_left separadores].
    assert (Hall : Forall (fun num => forallb is_decimal num = true) [str_of_Z (Zpos p)])
      by (constructor; [apply Hdigs; lia | constructor]).
    rewrite (passo_digitos sep_pontuacao _ (or_introl eq_refl) Hall).
    rewrite (passo_digitos sep_hifen _ (or_intror (or_introl eq_refl)) Hall).
    rewrite (passo_digitos sep_espaco _ (or_intror (or_intror (or_introl eq_refl))) Hall).
    apply Hum. apply Hdigs. lia.
  - cbn [Z.abs fold_left separadores]. rewrite str_of_Z_neg.
    destruct (str_of_Z_pos_inicio p) as (d0 & ds & Hs & Hd0).
    pose proof (Hdigs (Zpos p) ltac:(lia)) as Hdig.
    assert (H1 : passo (@cons pystr (chr "-" :: str_of_Z (Zpos p)) (@nil pystr)) sep_pontuacao
                 = @cons pystr (chr "-" :: str_of_Z (Zpos p)) (@nil pystr)).
    { unfold passo. cbn [flat_map]. rewrite app_nil_r. apply re_split_sem_pontuacao.
      cbn [forallb]. apply andb_true_iff. split; [reflexivity|].
      apply forallb_forall. intros x Hx.
      pose proof (proj1 (forallb_forall _ _) Hdig x Hx) as Hxd.
      destruct (x =? chr ";")%N eqn:E1; [apply N.eqb_eq in E1; now subst|].
      destruct (x =? chr ",")%N eqn:E2; [apply N.eqb_eq in E2; now subst|].
      destruct (x =? chr "/")%N eqn:E3; [apply N.eqb_eq in E3; now subst|].
      reflexivity. }
    assert (H2 : passo (@cons pystr (chr "-" :: str_of_Z (Zpos p)) (@nil pystr)) sep_hifen
                 = @cons pystr [] (@cons pystr (str_of_Z (Zpos p)) (@nil pystr))).
    { unfold passo. cbn [flat_map]. rewrite app_nil_r. unfold re_split.
      destruct (matches_sep_hifen [] [] d0 ds eq_refl eq_refl Hd0) as [l Hl].
      cbn [length] in Hl. rewrite Hs.
      change (chr "-" :: d0 :: ds) with ([chr "-"] ++ d0 :: ds).
      rewrite (split_scan_separa sep_hifen [chr "-"] [] (d0 :: ds) l ltac:(discriminate) Hl).
      cbn [rev]. f_equal. rewrite <- Hs.
      apply (re_split_digitos sep_hifen _ (or_intror (or_introl eq_refl)) Hdig). }
    assert (H3 : passo (@cons pystr [] (@cons pystr (str_of_Z (Zpos p)) (@nil pystr))) sep_espaco
                 = @cons pystr [] (@cons pystr (str_of_Z (Zpos p)) (@nil pystr))).
    { apply (passo_digitos sep_espaco _ (or_intror (or_intror (or_introl eq_refl)))).
      constructor; [reflexivity|]. constructor; [exact Hdig | constructor]. }
    rewrite H1, H2, H3.
    rewrite limpar_digitos
      by (constructor; [reflexivity | constructor; [exact Hdig | constructor]]).
    cbn [filter length Nat.leb]. now destruct (8 <=? length (str_of_Z (Zpos p))).
Qed.

Lemma separar_inteiro_witness :
  str_retorna (PyInt (-1133334444)) /\
  separar_telefones_multiplos (PyInt (-1133334444)) = [lit "1133334444"] /\
  separar_telefones_multiplos (PyInt 9999999) = [].
Proof.
  assert (H1 : str_retorna (PyInt (-1133334444))) by (vm_compute; reflexivity).
  assert (H2 : str_retorna (PyInt 9999999)) by (vm_compute; reflexivity).
  split; [exact H1|]. split.
  - rewrite (separar_inteiro (-1133334444) H1). reflexivity.
  - rewrite (separar_inteiro 9999999 H2). reflexivity.
Defined.

(** ** Codecs: UTF-8, Latin-1 and base64 *)

Ltac lia_div := zify; Z.to_euclidean_division_equations; lia.

(** Decides the comparisons of a goal or of a hypothesis, one after the
    other, and closes the impossible cases by arithmetic. *)
Ltac casos_N :=
  repeat match goal with
    | |- context [(?a <? ?b)%N] => destruct (N.ltb_spec a b); try lia_div
    | |- context [(?a <=? ?b)%N] => destruct (N.leb_spec a b); try lia_div
    | |- context [(?a =? ?b)%N] => destruct (N.eqb_spec a b); try lia_div
    end.

Lemma to_N_byte_of_N n : (n < 256)%N -> Byte.to_N (byte_of_N n) = n.
Proof.
  intros Hn. unfold byte_of_N. destruct (Byte.of_N n) as [b|] eqn:Hb.
  - now apply Byte.to_of_N.
  - apply Byte.of_N_None_iff in Hb. lia.
Qed.

Lemma map_to_N_byte_of_N l :
  Forall (fun n => (n < 256)%N) l -> map Byte.to_N (map byte_of_N l) = l.
Proof.
  intros H. induction H as [|n l Hn _ IH]; [reflexivity|].
  cbn [map]. now rewrite (to_N_byte_of_N n Hn), IH.
Qed.

Lemma some_inj {A} (a b : A) : Some a = Some b -> a = b.
Proof. congruence. Qed.

Lemma utf8_char_bytes c bs :
  utf8_char c = Some bs ->
  Forall (fun n => (n < 256)%N) bs /\
  ((c < 128)%N -> bs = [c]) /\
  ((128 <= c)%N -> 2 <= length bs) /\
  1 <= length bs.
Proof.
  unfold utf8_char. intros H.
  destruct (N.ltb_spec c 0x80).
  { apply some_inj in H; subst bs. split; [|cbn [length]; split; [reflexivity | split; lia]].
    constructor; [lia | constructor]. }
  destruct (N.ltb_spec c 0x800).
  { apply some_inj in H; subst bs. split; [|cbn [length]; split; [lia | split; lia]].
    repeat (constructor; [lia_div|]). constructor. }
  destruct (N.ltb_spec c 0x10000).
  { destruct (surrogate c); [discriminate|].
    apply some_inj in H; subst bs. split; [|cbn [length]; split; [lia | split; lia]].
    repeat (constructor; [lia_div|]). constructor. }
  destruct (N.ltb_spec c 0x110000); [|discriminate].
  apply some_inj in H; subst bs. split; [|cbn [length]; split; [lia | split; lia]].
  repeat (constructor; [lia_div|]). constructor.
Qed.

(** Decoding the bytes of a code point gives the code point back. *)
Lemma utf8_char_decode c bs resto :
  utf8_char c = Some bs ->
  utf8_decode_N (bs ++ resto) = option_map (cons c) (utf8_decode_N resto).
Proof.
  unfold utf8_char. intros H.
  destruct (N.ltb_spec c 0x80) as [H1|H1].
  { apply some_inj in H; subst bs. cbn [app utf8_decode_N]. casos_N. reflexivity. }
  destruct (N.ltb_spec c 0x800) as [H2|H2].
  { apply some_inj in H; subst bs. cbn [app utf8_decode_N]. unfold cont. casos_N.
    cbn [andb]. do 2 f_equal. lia_div. }
  destruct (N.ltb_spec c 0x10000) as [H3|H3].
  { destruct (surrogate c) eqn:Hs; [discriminate|]. apply some_inj in H; subst bs.
    cbn [app utf8_decode_N]. unfold cont.
    assert (Hc : ((0xE0 + c / 4096 - 0xE0) * 4096 + (0x80 + c / 64 mod 64 - 0x80) * 64
                  + (0x80 + c mod 64 - 0x80) = c)%N) by lia_div.
    rewrite Hc, Hs. casos_N. reflexivity. }
  destruct (N.ltb_spec c 0x110000) as [H4|H4]; [|discriminate].
  apply some_inj in H; subst bs. cbn [app utf8_decode_N]. unfold cont.
  assert (Hc : ((0xF0 + c / 262144 - 0xF0) * 262144 + (0x80 + c / 4096 mod 64 - 0x80) * 4096
                + (0x80 + c / 64 mod 64 - 0x80) * 64 + (0x80 + c mod 64 - 0x80) = c)%N)
    by lia_div.
  rewrite Hc. casos_N. reflexivity.
Qed.

(** UTF-8 round trip: what was encoded decodes to the same text. *)
Lemma utf8_encode_decode_N s : forall bs,
  utf8_encode_N s = Some bs -> utf8_decode_N bs = Some s.
Proof.
  induction s as [|c s IH]; intros bs H.
  - injection H as <-. reflexivity.
  - cbn [utf8_encode_N] in H.
    destruct (utf8_char c) as [b1|] eqn:Hc; [|discriminate].
    destruct (utf8_encode_N s) as [b2|] eqn:Hs; [|discriminate].
    injection H as <-. rewrite (utf8_char_decode c b1 b2 Hc), (IH b2 eq_refl). reflexivity.
Qed.

Lemma utf8_encode_N_bytes s : forall bs,
  utf8_encode_N s = Some bs ->
  Forall (fun n => (n < 256)%N) bs /\ length s <= length bs /\
  (length bs = length s -> forallb (fun c => (c <? 128)%N) s = true).
Proof.
  induction s as [|c s IH]; intros bs H.
  - injection H as <-. repeat split; constructor.
  - cbn [utf8_encode_N] in H.
    destruct (utf8_char c) as [b1|] eqn:Hc; [|discriminate].
    destruct (utf8_encode_N s) as [b2|] eqn:Hs; [|discriminate].
    injection H as <-.
    destruct (utf8_char_bytes c b1 Hc) as (Hb1 & _ & H2 & H1).
    destruct (IH b2 eq_refl) as (Hb2 & Hlen & Hascii).
    split; [now apply Forall_app|]. rewrite length_app. cbn [length forallb].
    split; [lia|]. intros Heq.
    destruct (N.ltb_spec c 128) as [Hlt|Hge].
    + apply Hascii. lia.
    + specialize (H2 Hge). lia.
Qed.

(** A text of ASCII characters is its own UTF-8 encoding. *)
Lemma utf8_encode_N_ascii s :
  forallb (fun c => (c <? 128)%N) s = true -> utf8_encode_N s = Some s.
Proof.
  induction s as [|c s IH]; intros H; [reflexivity|].
  cbn [forallb] in H. apply andb_true_iff in H as [Hc Hs].
  cbn [utf8_encode_N]. rewrite (IH Hs). unfold utf8_char.
  change (c <? 0x80)%N with (c <? 128)%N. now rewrite Hc.
Qed.

Lemma utf8_decode_N_ascii l :
  Forall (fun n => (n < 128)%N) l -> utf8_decode_N l = Some l.
Proof.
  intros H. induction H as [|n l Hn _ IH]; [reflexivity|].
  cbn [utf8_decode_N]. destruct (N.ltb_spec n 0x80); [|lia]. now rewrite IH.
Qed.

(** The base64 alphabet: [A-Z], [a-z], [0-9], [+] and [/]. *)
Lemma b64_char_valor n :
  (n < 64)%N ->
  b64_valor (b64_char n) = Some n /\ b64_char n <> 61%N /\ (b64_char n < 128)%N.
Proof.
  intros Hn. unfold b64_valor, b64_char.
  destruct (N.ltb_spec n 26); [|destruct (N.ltb_spec n 52);
    [|destruct (N.ltb_spec n 62); [|destruct (N.eqb_spec n 62)]]];
    (split; [casos_N; cbn [andb]; f_equal; lia | split; lia]).
Qed.

Lemma lista_de_tres {A} (P : list A -> Prop) :
  P [] -> (forall a, P [a]) -> (forall a b, P [a; b]) ->
  (forall a b c l, P l -> P (a :: b :: c :: l)) ->
  forall l, P l.
Proof.
  intros H0 H1 H2 H3.
  assert (H : forall l, P l /\ (forall a, P (a :: l)) /\ (forall a b, P (a :: b :: l))).
  { induction l as [|x l (Hl & Hl1 & Hl2)]; [now repeat split|].
    split; [apply Hl1|]. split; [intros a; apply Hl2|]. intros a b. now apply H3. }
  intros l. apply H.
Qed.

Lemma b64_grupos (a b c : N) :
  (a < 256 -> b < 256 -> c < 256 ->
   a / 4 < 64 /\ a mod 4 * 16 + b / 16 < 64 /\ b mod 16 * 4 + c / 64 < 64 /\
   c mod 64 < 64 /\ a mod 4 * 16 < 64 /\ b mod 16 * 4 < 64 /\
   a / 4 * 4 + (a mod 4 * 16 + b / 16) / 16 = a /\
   (a mod 4 * 16 + b / 16) mod 16 * 16 + (b mod 16 * 4 + c / 64) / 4 = b /\
   (b mod 16 * 4 + c / 64) mod 4 * 64 + c mod 64 = c /\
   a / 4 * 4 + a mod 4 * 16 / 16 = a /\
   (a mod 4 * 16 + b / 16) mod 16 * 16 + b mod 16 * 4 / 4 = b)%N.
Proof. intros Ha Hb Hc. repeat split; lia_div. Qed.

(** Base64 round trip, and the shape of the encoded text: characters of
    the alphabet or [=], in groups of four. *)
Lemma b64_encode_decode_N bs :
  Forall (fun n => (n < 256)%N) bs ->
  b64decode_N (b64encode_N bs) = Some bs /\
  Forall (fun c => (c < 128)%N) (b64encode_N bs) /\
  length (b64encode_N bs) mod 4 = 0.
Proof.
  induction bs as [|a|a b|a b c l IH] using lista_de_tres; intros Hbs.
  - repeat split; constructor.
  - inversion Hbs as [|? ? Ha _]; subst. cbn [b64encode_N b64decode_N].
    destruct (b64_grupos a 0 0 Ha) as (G1 & _ & _ & _ & G5 & _ & _ & _ & _ & E & _);
      [lia | lia|].
    destruct (b64_char_valor _ G1) as (-> & _ & ?).
    destruct (b64_char_valor _ G5) as (-> & _ & ?).
    cbn [N.eqb Pos.eqb]. rewrite E.
    split; [reflexivity|]. split; [repeat constructor; assumption || lia | reflexivity].
  - inversion Hbs as [|? ? Ha Hbs']; subst. inversion Hbs' as [|? ? Hb _]; subst.
    cbn [b64encode_N b64decode_N].
    destruct (b64_grupos a b 0 Ha Hb) as (G1 & G2 & _ & _ & _ & G6 & E1 & _ & _ & _ & E2);
      [lia|].
    destruct (b64_char_valor _ G1) as (-> & _ & ?).
    destruct (b64_char_valor _ G2) as (-> & _ & ?).
    destruct (b64_char_valor _ G6) as (-> & Hne & ?).
    destruct (N.eqb_spec (b64_char (b mod 16 * 4)) 61); [contradiction|].
    cbn [N.eqb Pos.eqb]. rewrite E1, E2.
    split; [reflexivity|]. split; [repeat constructor; assumption || lia | reflexivity].
  - inversion Hbs as [|? ? Ha Hbs1]; subst. inversion Hbs1 as [|? ? Hb Hbs2]; subst.
    inversion Hbs2 as [|? ? Hc Hl]; subst.
    destruct (IH Hl) as (Hdec & Hasc & Hlen).
    cbn [b64encode_N b64decode_N].
    destruct (b64_grupos a b c Ha Hb Hc)
      as (G1 & G2 & G3 & G4 & _ & _ & E1 & E2 & E3 & _ & _).
    destruct (b64_char_valor _ G1) as (-> & _ & ?).
    destruct (b64_char_valor _ G2) as (-> & _ & ?).
    destruct (b64_char_valor _ G3) as (-> & Hne3 & ?).
    destruct (b64_char_valor _ G4) as (-> & Hne4 & ?).
    destruct (N.eqb_spec (b64_char (b mod 16 * 4 + c / 64)) 61); [contradiction|].
    destruct (N.eqb_spec (b64_char (c mod 64)) 61); [contradiction|].
    rewrite Hdec, E1, E2, E3. split; [reflexivity|].
    split; [repeat (constructor; [assumption|]); exact Hasc|].
    cbn [length]. revert Hlen. generalize (length (b64encode_N l)). intros k Hk.
    replace (S (S (S (S k)))) with (k + 1 * 4) by lia.
    now rewrite Nat.Div0.mod_add.
Qed.

Lemma b64encode_alfabeto bs :
  Forall (fun n => (n < 256)%N) bs ->
  Forall (fun c => b64_valor c <> None \/ c = 61%N) (b64encode_N bs).
Proof.
  assert (Hv : forall n, (n < 64)%N -> b64_valor (b64_char n) <> None \/ b64_char n = 61%N).
  { intros n Hn. left. destruct (b64_char_valor n Hn) as (-> & _). discriminate. }
  induction bs as [|a|a b|a b c l IH] using lista_de_tres; intros Hbs.
  - constructor.
  - inversion Hbs as [|? ? Ha _]; subst. cbn [b64encode_N].
    destruct (b64_grupos a 0 0 Ha) as (G1 & _ & _ & _ & G5 & _); [lia | lia|].
    repeat (constructor; [now (apply Hv) || now right|]). constructor.
  - inversion Hbs as [|? ? Ha Hbs']; subst. inversion Hbs' as [|? ? Hb _]; subst.
    cbn [b64encode_N].
    destruct (b64_grupos a b 0 Ha Hb) as (G1 & G2 & _ & _ & _ & G6 & _); [lia|].
    repeat (constructor; [now (apply Hv) || now right|]). constructor.
  - inversion Hbs as [|? ? Ha Hbs1]; subst. inversion Hbs1 as [|? ? Hb Hbs2]; subst.
    inversion Hbs2 as [|? ? Hc Hl]; subst. cbn [b64encode_N].
    destruct (b64_grupos a b c Ha Hb Hc) as (G1 & G2 & G3 & G4 & _).
    repeat (constructor; [now apply Hv|]). now apply IH.
Qed.

Lemma utf8_char_None c :
  utf8_char c = None <-> surrogate c = true \/ (0x110000 <= c)%N.
Proof.
  unfold utf8_char, surrogate.
  destruct (N.ltb_spec c 0x80); [split; [discriminate|intros [Hs|Hs]; [|lia]]|].
  { apply andb_true_iff in Hs as [Hs _]. apply N.leb_le in Hs. lia. }
  destruct (N.ltb_spec c 0x800); [split; [discriminate|intros [Hs|Hs]; [|lia]]|].
  { apply andb_true_iff in Hs as [Hs _]. apply N.leb_le in Hs. lia. }
  destruct (N.ltb_spec c 0x10000).
  { destruct ((0xD800 <=? c)%N && (c <=? 0xDFFF)%N);
      [split; [now left | reflexivity] | split; [discriminate | intros [Hs|Hs]; [discriminate | lia]]]. }
  destruct (N.ltb_spec c 0x110000); [|split; [now right | reflexivity]].
  split; [discriminate|]. intros [Hs|Hs]; [|lia].
  apply andb_true_iff in Hs as [_ Hs]. apply N.leb_le in Hs. lia.
Qed.

Lemma utf8_encode_N_None s :
  utf8_encode_N s = None <-> exists c, In c s /\ utf8_char c = None.
Proof.
  induction s as [|c s IH]; cbn [utf8_encode_N].
  - split; [discriminate | intros (c & [] & _)].
  - destruct (utf8_char c) as [b1|] eqn:Hc.
    + destruct (utf8_encode_N s) as [b2|].
      * split; [discriminate|]. intros (d & [<-|Hd] & Hn); [congruence|].
        destruct IH as [_ IH]. discriminate (IH (ex_intro _ d (conj Hd Hn))).
      * split; [|reflexivity]. intros _.
        destruct IH as [IH _]. destruct (IH eq_refl) as (d & Hd & Hn).
        exists d. split; [now right | exact Hn].
    + split; [|reflexivity]. intros _. exists c. split; [now left | exact Hc].
Qed.

(** What [base64.b64encode(csv.encode('utf-8')).decode()] gives for a text
    that UTF-8 can encode. *)
Lemma b64_de_utf8 (csv : pystr) (bs : list N) :
  utf8_encode_N csv = Some bs ->
  utf8_encode csv = Some (map byte_of_N bs) /\
  utf8_decode (b64encode (map byte_of_N bs)) = Some (b64encode_N bs).
Proof.
  intros He. unfold utf8_encode, utf8_decode, b64encode. rewrite He.
  split; [reflexivity|].
  destruct (utf8_encode_N_bytes csv bs He) as (Hb & _).
  rewrite (map_to_N_byte_of_N bs Hb).
  destruct (b64_encode_decode_N bs Hb) as (_ & Hasc & _).
  rewrite map_to_N_byte_of_N.
  - now apply utf8_decode_N_ascii.
  - eapply Forall_impl; [|exact Hasc]. cbv beta. intros; lia.
Qed.

(** X11. The upload is always read as Latin-1: the first encoding of the
    list decodes every sequence of bytes, so the loop never reaches UTF-8
    or CP1252, and the message that the file cannot be read is never
    shown; the outcome is the table the parser makes of the bytes read as
    code points, or the error of the parser. *)
Theorem carregar_sempre_latin1 (tabela : Type) (analisar : pystr -> option tabela)
    (resto : codec -> pybytes -> pybytes) (dados : pybytes) :
  carregar analisar resto encodings dados =
    match analisar (map Byte.to_N dados) with
    | Some df => Carregado df
    | None => ErroAoProcessar tabela
    end /\
  carregar analisar resto encodings dados = carregar analisar resto [Latin1] dados /\
  carregar analisar resto encodings dados <> NaoFoiPossivelLer tabela.
Proof.
  unfold encodings. cbn [carregar]. unfold read_csv. cbn [decodificar]. unfold latin1_decode.
  destruct (analisar (map Byte.to_N dados)); repeat split; discriminate.
Qed.

(** X12. A text saved as UTF-8 is loaded unchanged exactly when all its
    characters are ASCII: with the parser that returns the text itself,
    the loader gives the text back if and only if every code point is
    below 128 (what it reads is never shorter than the text), whereas the
    same loop with UTF-8 tried first gives the text back in every case. *)
Theorem carregar_utf8_so_ascii (resto : codec -> pybytes -> pybytes)
    (texto : pystr) (dados : pybytes) :
  utf8_encode texto = Some dados ->
  (carregar (@Some pystr) resto encodings dados = Carregado texto <->
   forallb (fun c => (c <? 128)%N) texto = true) /\
  (exists lido, carregar (@Some pystr) resto encodings dados = Carregado lido /\
                length texto <= length lido) /\
  carregar (@Some pystr) resto [Utf8; Latin1; Cp1252] dados = Carregado texto.
Proof.
  unfold utf8_encode. intros He.
  destruct (utf8_encode_N texto) as [bs|] eqn:Hbs; [|discriminate].
  apply some_inj in He. subst dados.
  destruct (utf8_encode_N_bytes texto bs Hbs) as (Hb & Hlen & Hascii).
  unfold encodings. cbn [carregar]. unfold read_csv. cbn [decodificar].
  unfold latin1_decode, utf8_decode. rewrite (map_to_N_byte_of_N bs Hb).
  rewrite (utf8_encode_decode_N texto bs Hbs).
  split; [|split; [exists bs; now split | reflexivity]].
  split.
  - intros H. apply Hascii. congruence.
  - intros H. rewrite (utf8_encode_N_ascii texto H) in Hbs. congruence.
Qed.

Lemma carregar_utf8_so_ascii_witness :
  utf8_encode [74; 111; 115; 233]%N = Some (map byte_of_N [74; 111; 115; 195; 169]%N) /\
  (carregar (@Some pystr) (fun _ dados => dados) encodings
     (map byte_of_N [74; 111; 115; 195; 169]%N) = Carregado [74; 111; 115; 233]%N <->
   forallb (fun c => (c <? 128)%N) [74; 111; 115; 233]%N = true).
Proof.
  split; [reflexivity|].
  apply (carregar_utf8_so_ascii (fun _ dados => dados) [74; 111; 115; 233]%N
           (map byte_of_N [74; 111; 115; 195; 169]%N)).
  reflexivity.
Defined.

(** X13. The download link: when the text of the table can be encoded as
    UTF-8, the result is the anchor with the file name as given and a
    payload of characters of the base64 alphabet and [=], in groups of
    four, from which base64 decoding followed by UTF-8 decoding gives the
    text of the table back; the function fails exactly when the text
    holds a surrogate or a code point above U+10FFFF. *)
Theorem link_de_download (to_csv : list dict -> pystr) (df : list dict) (filename : pystr) :
  (get_download_link to_csv df filename = None <->
   exists c, In c (to_csv df) /\ (surrogate c = true \/ (0x110000 <= c)%N)) /\
  match get_download_link to_csv df filename with
  | Some href =>
      exists b64,
        href = lit "<a href=" ++ [34%N] ++ lit "data:file/csv;base64," ++ b64 ++ [34%N]
               ++ lit " download=" ++ [34%N] ++ filename ++ [34%N]
               ++ lit ">Baixar arquivo CSV</a>" /\
        Forall (fun c => b64_valor c <> None \/ c = 61%N) b64 /\
        length b64 mod 4 = 0 /\
        match b64decode_N b64 with
        | Some bytes => utf8_decode_N bytes
        | None => None
        end = Some (to_csv df)
  | None => True
  end.
Proof.
  assert (Hnone : utf8_encode_N (to_csv df) = None <->
                  exists c, In c (to_csv df) /\ (surrogate c = true \/ (0x110000 <= c)%N)).
  { rewrite utf8_encode_N_None. split; intros (c & Hin & Hc); exists c; split;
      try exact Hin; now apply utf8_char_None. }
  unfold get_download_link.
  destruct (utf8_encode_N (to_csv df)) as [bs|] eqn:Hbs.
  - destruct (b64_de_utf8 (to_csv df) bs Hbs) as (-> & ->).
    split; [split; [discriminate | intros H; apply Hnone in H; discriminate]|].
    destruct (utf8_encode_N_bytes (to_csv df) bs Hbs) as (Hb & _).
    destruct (b64_encode_decode_N bs Hb) as (Hdec & _ & Hlen).
    exists (b64encode_N bs). split; [reflexivity|].
    split; [now apply b64encode_alfabeto|]. split; [exact Hlen|].
    rewrite Hdec. now apply utf8_encode_decode_N.
  - unfold utf8_encode. rewrite Hbs. cbn [option_map].
    split; [|exact I]. split; [intros _; now apply Hnone | reflexivity].
Qed.
